(** * User Collectable Attributes: the construction and commitment engine

    A shallow embedding of [src/uca/UserCollectableAttribute.js] and the
    properties its specification states about it.

    Conventions of the embedding.
    - JavaScript strings are [string]s (sequences of 8-bit code units);
      [\w] is the ASCII class [A-Za-z0-9_], as in a RegExp without the
      unicode flag.
    - JavaScript numbers are embedded at their integer values, as [Z]; the
      code compares them, prints them in decimal and pads them, and never
      does arithmetic on them.  A reading of the clock is an integer too;
      the code stores it and never looks at it.
    - A plain object is an association list of its own enumerable properties
      in insertion order ([VObj]), with distinct keys; property names are
      assumed not to be array indices (which JavaScript enumerates first),
      [length] (which makes lodash take an object for an array) or names
      found on the built-in prototypes.  The theorems that state the
      order of the keys of an object the code builds carry this as a
      hypothesis ([ordinaryKey]).  Arrays and functions are not input
      values.
    - [undefined] and [null] fields of a definition are [None].
    - The module-level array [definitions] is mutable shared state: it is
      the [definitions] field of a [World], threaded through every
      construction.  The clock ([timestamp.now]) and the secure random
      source ([SecureRandom.wordWith]) are oracles indexed by the number of
      reads made so far, also recorded in the [World].
    - A thrown exception is [Throw]; the JavaScript stack overflow of a
      cyclic definition chain is [OutOfFuel]. *)

From Stdlib Require Import ZArith List String Ascii Bool Lia.
From Stdlib Require Import Permutation Sorted DecimalString.
Import ListNotations.
Local Open Scope string_scope.
Local Open Scope Z_scope.

Set Implicit Arguments.
Set Warnings "-register-all".

(** ** Values *)

Inductive JsVal : Type :=
| VUndefined
| VNull
| VBool (b : bool)
| VNum (n : Z)
| VStr (s : string)
| VObj (fields : list (string * JsVal)).

(** Own-property lookup in an association list: the first entry wins. *)
Fixpoint assoc {A : Type} (k : string) (l : list (string * A)) : option A :=
  match l with
  | [] => None
  | (k', a) :: l' => if String.eqb k k' then Some a else assoc k l'
  end.

(** [obj[k] = a]: replaces the value of an existing key in place, appends a
    new key at the end.  This is where JavaScript enumerates the new key
    when it is an ordinary property name ([ordinaryKey] below); an array
    index is enumerated before the other names, in numeric order. *)
Fixpoint assign {A : Type} (k : string) (a : A) (l : list (string * A))
  : list (string * A) :=
  match l with
  | [] => [(k, a)]
  | (k', a') :: l' =>
      if String.eqb k k' then (k, a) :: l' else (k', a') :: assign k a l'
  end.

(** ToBoolean. *)
Definition truthy (v : JsVal) : bool :=
  match v with
  | VUndefined | VNull => false
  | VBool b => b
  | VNum n => negb (n =? 0)
  | VStr s => negb (String.eqb s "")
  | VObj _ => true
  end.

Definition truthyStr (o : option string) : bool :=
  match o with Some s => negb (String.eqb s "") | None => false end.

Definition truthyNum (o : option Z) : bool :=
  match o with Some n => negb (n =? 0) | None => false end.

Definition truthyBool (o : option bool) : bool :=
  match o with Some b => b | None => false end.

(** [_.isNil]. *)
Definition isNil {A : Type} (o : option A) : bool :=
  match o with Some _ => false | None => true end.

(** Relational operators with a possibly [undefined] right operand:
    [undefined] converts to NaN and every comparison with NaN is false. *)
Definition js_gt (a : Z) (b : option Z) : bool :=
  match b with Some b => b <? a | None => false end.
Definition js_ge (a : Z) (b : option Z) : bool :=
  match b with Some b => b <=? a | None => false end.
Definition js_lt (a : Z) (b : option Z) : bool :=
  match b with Some b => a <? b | None => false end.
Definition js_le (a : Z) (b : option Z) : bool :=
  match b with Some b => a <=? b | None => false end.

(** [value.length] of a string. *)
Definition strlen (s : string) : Z := Z.of_nat (String.length s).

(** Decimal rendering of a number ([Number.prototype.toString]): the
    digits, after a minus sign for a negative number.  JavaScript prints
    an integer this way up to a magnitude of 10^21. *)
Definition numToString (n : Z) : string := NilZero.string_of_int (Z.to_int n).

Definition boolToString (b : bool) : string := if b then "true" else "false".

(** ** Definitions of the registry *)

Module Property.
Record t : Type := Build {
  name : string;
  type : string;
  version : option string
}.
End Property.

Record ObjectSchema : Type := {
  properties : list Property.t;
  required : list string
}.

(** [definition.type]: a string (a primitive type name or the identifier
    of another definition) or an inline object schema. *)
Inductive DefType : Type :=
| TypeName (s : string)
| TypeSchema (o : ObjectSchema).

Module Def.
Record t : Type := Build {
  identifier : string;
  version : option string;
  type : DefType;
  pattern : option (string -> bool);
  minimumLength : option Z;
  maximumLength : option Z;
  minimum : option Z;
  maximum : option Z;
  exclusiveMinimum : option bool;
  exclusiveMaximum : option bool;
  credentialItem : bool;
  attestable : bool
}.

(** [definition.type = ty]. *)
Definition set_type (d : t) (ty : DefType) : t :=
  Build (identifier d) (version d) ty (pattern d) (minimumLength d)
        (maximumLength d) (minimum d) (maximum d) (exclusiveMinimum d)
        (exclusiveMaximum d) (credentialItem d) (attestable d).
End Def.

(** ** Value Validator *)

Definition isString (v : JsVal) : bool :=
  match v with VStr _ => true | _ => false end.
Definition isNumber (v : JsVal) : bool :=
  match v with VNum _ => true | _ => false end.
Definition isBoolean (v : JsVal) : bool :=
  match v with VBool _ => true | _ => false end.

Definition isValueOfType (value : JsVal) (type : string) : bool :=
  if String.eqb type "String" then isString value
  else if String.eqb type "Number" then isNumber value
  else if String.eqb type "Boolean" then isBoolean value
  else false.

(** [isValid], a function private to the module.  The String and Number
    branches are embedded at values of that runtime type, the only ones
    its single call site passes (the constructor calls it under the guard
    [isValueOfType]); the implicit conversions JavaScript would apply to
    other values are not modelled and the embedding answers [false]
    there. *)
Definition isValid (value : JsVal) (type : string) (definition : Def.t) : bool :=
  if String.eqb type "String" then
    match value with
    | VStr s =>
        (match Def.pattern definition with
         | Some re => re s
         | None => true
         end)
        && (if truthyNum (Def.minimumLength definition)
            then js_ge (strlen s) (Def.minimumLength definition)
            else true)
        && (if truthyNum (Def.maximumLength definition)
            then js_le (strlen s) (Def.minimumLength definition)
            else true)
    | _ => false
    end
  else if String.eqb type "Number" then
    match value with
    | VNum v =>
        ((if negb (isNil (Def.minimum definition))
              && truthyBool (Def.exclusiveMinimum definition)
          then js_gt v (Def.minimum definition)
          else js_ge v (Def.minimum definition))
         || isNil (Def.minimum definition))
        && ((if negb (isNil (Def.maximum definition))
                 && truthyBool (Def.exclusiveMaximum definition)
             then js_lt v (Def.maximum definition)
             else js_le v (Def.maximum definition))
            || isNil (Def.maximum definition))
    | _ => false
    end
  else if String.eqb type "Boolean" then isBoolean value
  else false.

(** The String rule in the words of the specification: the pattern, if
    present, matches; the length is at least [minimumLength], if present,
    and at most [maximumLength], if present. *)
Definition satisfiesStringConstraints (s : string) (definition : Def.t) : bool :=
  (match Def.pattern definition with Some re => re s | None => true end)
  && (match Def.minimumLength definition with
      | Some m => m <=? strlen s
      | None => true
      end)
  && (match Def.maximumLength definition with
      | Some m => strlen s <=? m
      | None => true
      end).

(** ** Outcomes of a call *)

(** The failures of the specification's taxonomy, with the message of the
    [Error] the code throws, and the [TypeError] the JavaScript runtime
    raises when a property of [undefined] is read or a non-function is
    called. *)
Inductive Error : Type :=
| UnknownIdentifier       (* `${identifier} is not defined` *)
| InvalidValue            (* `${JSON.stringify(value)} is not valid for ${identifier}` *)
| MissingRequiredField    (* `Missing required fields to ${identifier}` *)
| MalformedCommitment     (* 'Invalid attestableValue' *)
| TypeError.

Inductive Outcome (A : Type) : Type :=
| Return (a : A)
| Throw (e : Error)
| OutOfFuel.
Arguments Return {A} a.
Arguments Throw {A} e.
Arguments OutOfFuel {A}.

Definition obind {A B : Type} (o : Outcome A) (k : A -> Outcome B) : Outcome B :=
  match o with
  | Return a => k a
  | Throw e => Throw e
  | OutOfFuel => OutOfFuel
  end.

(** ** Commitment Codec: strings *)

(** [s.split('|')]. *)
Fixpoint splitPipes (s : string) : list string :=
  match s with
  | EmptyString => [""]
  | String c s' =>
      if Ascii.eqb c "|" then "" :: splitPipes s'
      else match splitPipes s' with
           | seg :: rest => String c seg :: rest
           | [] => [String c ""]
           end
  end.

(** The class [\w]. *)
Definition isWordChar (c : ascii) : bool :=
  let n := nat_of_ascii c in
  ((48 <=? n) && (n <=? 57) || (65 <=? n) && (n <=? 90)
   || (97 <=? n) && (n <=? 122) || (n =? 95))%nat.

Fixpoint allWord (s : string) : bool :=
  match s with
  | EmptyString => true
  | String c s' => isWordChar c && allWord s'
  end.

(** The greedy [\w*]: the longest prefix of word characters and the rest.
    What follows [\w*] in the pattern is a colon, which is not a word
    character, so backtracking to a shorter prefix never helps. *)
Fixpoint spanWord (s : string) : string * string :=
  match s with
  | EmptyString => ("", "")
  | String c s' =>
      if isWordChar c
      then let (w, r) := spanWord s' in (String c w, r)
      else ("", s)
  end.

Fixpoint stripPrefix (p s : string) : option string :=
  match p with
  | EmptyString => Some s
  | String a p' =>
      match s with
      | EmptyString => None
      | String b s' => if Ascii.eqb a b then stripPrefix p' s' else None
      end
  end.

(** [attestableValueRegex.exec(s)]: the pattern is [^urn:] then a group of
    word characters, a colon, a second group of word characters, a colon,
    and a third group of any characters.  The result is the three groups
    of a match, which always has length 4; the third group takes every
    remaining character. *)
Definition execUrn (s : string) : option (string * string * string) :=
  match stripPrefix "urn:" s with
  | None => None
  | Some r0 =>
      let (g1, r1) := spanWord r0 in
      match stripPrefix ":" r1 with
      | None => None
      | Some r2 =>
          let (g2, r3) := spanWord r2 in
          match stripPrefix ":" r3 with
          | None => None
          | Some g3 => Some (g1, g2, g3)
          end
      end
  end.

Module Parsed.
Record t : Type := Build {
  propertyName : string;
  salt : string;
  value : string;
  stringValue : string
}.
End Parsed.

(** lodash [toString], applied by [_.split] to its first argument. *)
Definition lodashToString (v : JsVal) : string :=
  match v with
  | VUndefined | VNull => ""
  | VBool b => boolToString b
  | VNum n => numToString n
  | VStr s => s
  | VObj _ => "[object Object]"
  end.

(** [value.k] on an arbitrary value; reading a property of [undefined] or
    [null] throws. *)
Definition getProp (v : JsVal) (k : string) : Outcome JsVal :=
  match v with
  | VUndefined | VNull => Throw TypeError
  | VObj fields => match assoc k fields with
                   | Some x => Return x
                   | None => Return VUndefined
                   end
  | _ => Return VUndefined
  end.

(** [value && value.attestableValue], as a condition. *)
Definition isAttestableValue (value : JsVal) : bool :=
  truthy value &&
  match getProp value "attestableValue" with
  | Return a => truthy a
  | _ => false
  end.

(** The [_.each] of [parseAttestableValue]: the segments that match, in
    order. *)
Fixpoint matchedValues (segments : list string) : list Parsed.t :=
  match segments with
  | [] => []
  | stringValue :: rest =>
      match execUrn stringValue with
      | Some (g1, g2, g3) =>
          Parsed.Build g1 g2 g3 stringValue :: matchedValues rest
      | None => matchedValues rest
      end
  end.

(** [parseAttestableValue] on the string [_.split] sees. *)
Definition parseString (s : string) : Outcome (list Parsed.t) :=
  let splitPipes := splitPipes s in
  let values := matchedValues splitPipes in
  if negb (List.length splitPipes =? List.length values)%nat
     && negb (List.length splitPipes =? List.length values + 1)%nat
  then Throw MalformedCommitment
  else Return values.

Definition parseAttestableValue (value : JsVal) : Outcome (list Parsed.t) :=
  obind (getProp value "attestableValue")
        (fun a => parseString (lodashToString a)).

(** ** Attribute Instances *)

(** The object [this] of a finished constructor call.  [value] is the raw
    string, number or boolean, the string cut out of a commitment, or the
    object that maps property names to child instances. *)
Module Inst.
Inductive t : Type :=
| Build (timestamp : option Z) (id : string) (identifier : string)
        (version : option string) (type : string) (value : val)
        (salt : option string)
with val : Type :=
| Str (s : string)
| Num (n : Z)
| Bool (b : bool)
| Obj (children : list (string * t)).

Definition timestamp (u : t) := let (x, _, _, _, _, _, _) := u in x.
Definition id (u : t) := let (_, x, _, _, _, _, _) := u in x.
Definition identifier (u : t) := let (_, _, x, _, _, _, _) := u in x.
Definition version (u : t) := let (_, _, _, x, _, _, _) := u in x.
Definition type (u : t) := let (_, _, _, _, x, _, _) := u in x.
Definition value (u : t) := let (_, _, _, _, _, x, _) := u in x.
Definition salt (u : t) := let (_, _, _, _, _, _, x) := u in x.

(** [this.id = ...]. *)
Definition set_id (u : t) (i : string) : t :=
  Build (timestamp u) i (identifier u) (version u) (type u) (value u) (salt u).
End Inst.

(** String conversion of [this.value] ([toString] and template literals). *)
Definition valToString (v : Inst.val) : string :=
  match v with
  | Inst.Str s => s
  | Inst.Num n => numToString n
  | Inst.Bool b => boolToString b
  | Inst.Obj _ => "[object Object]"
  end.

(** A possibly [undefined] string inside a template literal. *)
Definition optToString (o : option string) : string :=
  match o with Some s => s | None => "undefined" end.

Fixpoint contains (c : ascii) (s : string) : bool :=
  match s with
  | EmptyString => false
  | String a s' => Ascii.eqb a c || contains c s'
  end.

(** [s.substring(s.lastIndexOf(c) + 1)]; the whole string when [c] does
    not occur ([lastIndexOf] is then -1). *)
Fixpoint afterLast (c : ascii) (s : string) : string :=
  match s with
  | EmptyString => ""
  | String a s' =>
      if contains c s' then afterLast c s'
      else if Ascii.eqb a c then s' else String a s'
  end.

Definition propertyNameOf (identifier : string) : string :=
  if contains "." identifier then afterLast "." identifier
  else afterLast ":" identifier.

Fixpoint repeatChar (n : nat) (c : ascii) : string :=
  match n with O => "" | S n' => String c (repeatChar n' c) end.

(** [_.padStart(s, length, c)]. *)
Definition padStart (s : string) (length : nat) (c : ascii) : string :=
  (repeatChar (length - String.length s) c ++ s)%string.

(** [_.sortBy] on an array of strings: ascending by code units. *)
Fixpoint insertSorted (k : string) (l : list string) : list string :=
  match l with
  | [] => [k]
  | x :: l' => if String.leb k x then k :: l else x :: insertSorted k l'
  end.

Definition sortBy (l : list string) : list string :=
  fold_right insertSorted [] l.

(** [_.keys]. *)
Definition keys {A : Type} (l : list (string * A)) : list string :=
  map fst l.

(** The [_.reduce] of the composite branch of [getAttestableValue], over
    the sorted keys; [rendered] gives, for each key [k], the outcome of
    [this.value[k].getAttestableValue()]. *)
Fixpoint reduceChildren (ks : list string)
         (rendered : list (string * Outcome string)) (s : string)
  : Outcome string :=
  match ks with
  | [] => Return s
  | k :: ks' =>
      match assoc k rendered with
      | Some o =>
          obind o (fun c => reduceChildren ks' rendered (s ++ c ++ "|"))
      | None => Throw TypeError
      end
  end.

Fixpoint getAttestableValue (this : Inst.t) : Outcome string :=
  let propertyName := propertyNameOf (Inst.identifier this) in
  if String.eqb (Inst.type this) "String" then
    Return ("urn:" ++ propertyName ++ ":" ++ optToString (Inst.salt this)
            ++ ":" ++ valToString (Inst.value this))
  else if String.eqb (Inst.type this) "Number" then
    Return ("urn:" ++ propertyName ++ ":" ++ optToString (Inst.salt this)
            ++ ":" ++ padStart (valToString (Inst.value this)) 8 "0")
  else if String.eqb (Inst.type this) "Boolean" then
    Return ("urn:" ++ propertyName ++ ":" ++ optToString (Inst.salt this)
            ++ ":" ++ valToString (Inst.value this))
  else
    match Inst.value this with
    | Inst.Obj children =>
        let rendered :=
          (fix each (l : list (string * Inst.t)) :=
             match l with
             | [] => []
             | (k, child) :: l' => (k, getAttestableValue child) :: each l'
             end) children in
        reduceChildren (sortBy (keys children)) rendered ""
    | Inst.Str (String _ _) =>
        (* the keys of a string are its indices, and a character has no
           method getAttestableValue *)
        Throw TypeError
    | _ => Return ""
    end.

(** ** Definition Registry and Type Resolver *)

(** [_.map(definitions, d => d.identifier)].  The source computes this
    once, when the module is loaded; no assignment ever changes an
    [identifier] or the length of [definitions] (lemma
    [construct_validIdentifiers]), so reading it off the current registry
    gives the same array. *)
Definition validIdentifiers (definitions : list Def.t) : list string :=
  map Def.identifier definitions.

(** [_.includes]. *)
Definition includes (l : list string) (x : string) : bool :=
  existsb (String.eqb x) l.

(** The first element that satisfies [p], with its index: the object
    [_.find] returns is the array element itself, and assigning to one of
    its fields changes the registry at that index. *)
Fixpoint findIndexed {A : Type} (p : A -> bool) (l : list A) : option (nat * A) :=
  match l with
  | [] => None
  | x :: l' =>
      if p x then Some (O, x)
      else match findIndexed p l' with
           | Some (i, y) => Some (S i, y)
           | None => None
           end
  end.

(** The predicate of [_.find(definitions, { identifier })]. *)
Definition matchesIdentifier (identifier : string) (d : Def.t) : bool :=
  String.eqb (Def.identifier d) identifier.

(** The predicate of [_.find(definitions, { identifier, version })]. *)
Definition matchesIdentifierVersion (identifier version : string) (d : Def.t) : bool :=
  String.eqb (Def.identifier d) identifier
  && match Def.version d with
     | Some v => String.eqb v version
     | None => false
     end.

(** The definition the constructor works on, with its index in the
    registry: [version ? _.find(definitions, { identifier, version })
    : _.find(definitions, { identifier })]. *)
Definition lookupDefinition (identifier : string) (version : option string)
           (definitions : list Def.t) : option (nat * Def.t) :=
  match version with
  | Some v =>
      if truthyStr version
      then findIndexed (matchesIdentifierVersion identifier v) definitions
      else findIndexed (matchesIdentifier identifier) definitions
  | None => findIndexed (matchesIdentifier identifier) definitions
  end.

(** Applying a function to an argument that may be [undefined], when the
    function starts by reading a property of it. *)
Definition deref {A B : Type} (o : option A) (k : A -> Outcome B) : Outcome B :=
  match o with
  | Some a => k a
  | None => Throw TypeError
  end.

Fixpoint getTypeName (fuel : nat) (definitions : list Def.t) (definition : Def.t)
  : Outcome string :=
  match fuel with
  | O => OutOfFuel
  | S fuel' =>
      match Def.type definition with
      | TypeName ty =>
          if includes (validIdentifiers definitions) ty then
            let innerDefinition := find (matchesIdentifier ty) definitions in
            deref innerDefinition (getTypeName fuel' definitions)
          else Return ty
      | TypeSchema _ => Return "Object"
      end
  end.

Fixpoint resolveType (fuel : nat) (definitions : list Def.t) (definition : Def.t)
  : Outcome DefType :=
  match fuel with
  | O => OutOfFuel
  | S fuel' =>
      obind (getTypeName fuel definitions definition) (fun typeName =>
        if negb (String.eqb typeName "Object") then Return (TypeName typeName)
        else
          match Def.type definition with
          | TypeSchema o => Return (TypeSchema o)
          | TypeName ty =>
              let refDefinition := find (matchesIdentifier ty) definitions in
              deref refDefinition (resolveType fuel' definitions)
          end)
  end.

(** ** The world a construction runs in *)

Record World : Type := {
  definitions : list Def.t;
  clockReads : nat;
  randomDraws : nat
}.

Fixpoint updateAt {A : Type} (i : nat) (f : A -> A) (l : list A) : list A :=
  match l, i with
  | [], _ => []
  | x :: l', O => f x :: l'
  | x :: l', S i' => x :: updateAt i' f l'
  end.

(** [definition.type = ty], where [definition] is element [i] of the
    registry. *)
Definition assignType (i : nat) (ty : DefType) (w : World) : World :=
  {| definitions := updateAt i (fun d => Def.set_type d ty) (definitions w);
     clockReads := clockReads w;
     randomDraws := randomDraws w |}.

Definition tickClock (w : World) : World :=
  {| definitions := definitions w;
     clockReads := S (clockReads w);
     randomDraws := randomDraws w |}.

Definition drawRandom (w : World) : World :=
  {| definitions := definitions w;
     clockReads := clockReads w;
     randomDraws := S (randomDraws w) |}.

(** Computations that read and write the world and may throw; what was
    written before a throw stays written. *)
Definition M (A : Type) : Type := World -> World * Outcome A.

Definition ret {A : Type} (a : A) : M A := fun w => (w, Return a).
Definition throw {A : Type} (e : Error) : M A := fun w => (w, Throw e).
Definition lift {A : Type} (o : Outcome A) : M A := fun w => (w, o).
Definition bind {A B : Type} (c : M A) (k : A -> M B) : M B :=
  fun w =>
    match c w with
    | (w', Return a) => k a w'
    | (w', Throw e) => (w', Throw e)
    | (w', OutOfFuel) => (w', OutOfFuel)
    end.

Definition gets {A : Type} (f : World -> A) : M A := fun w => (w, Return (f w)).
Definition modify (f : World -> World) : M unit := fun w => (f w, Return tt).

Declare Scope m_scope.
Delimit Scope m_scope with M.
Notation "x <- c ;; k" := (bind c (fun x => k))
  (at level 61, c at next level, right associativity) : m_scope.
Notation "' pat <- c ;; k" := (bind c (fun x => match x with pat => k end))
  (at level 61, pat pattern, c at next level, right associativity) : m_scope.

(** ** Attribute Instance construction *)

(** The [_.reduce] over [definition.type.required]; only the truthiness of
    its result is used. *)
Fixpoint hasRequireds (value : JsVal) (required : list string) (has : bool)
  : Outcome bool :=
  match required with
  | [] => Return has
  | r :: rest =>
      obind (getProp value r)
            (fun x => hasRequireds value rest (truthy x && has))
  end.

(** The pairs [(v, k)] that [_.map(value, ...)] visits.  A non-empty
    string is visited by index, and no property is named by a number, so
    the callback then reads [type] of [undefined]: [None]. *)
Definition collectionEntries (value : JsVal) : option (list (string * JsVal)) :=
  match value with
  | VObj fields => Some fields
  | VStr (String _ _) => None
  | _ => Some []
  end.

(** [_.mapValues(_.keyBy(pairs, 'key'), 'value')]. *)
Definition keyBy {A : Type} (pairs : list (string * A)) : list (string * A) :=
  fold_left (fun o kv => assign (fst kv) (snd kv) o) pairs [].

Fixpoint endsWith (s suffix : string) : bool :=
  String.eqb s suffix
  || match s with
     | EmptyString => false
     | String _ s' => endsWith s' suffix
     end.

(** The raw value as stored in [this.value]; used under the guard
    [isValueOfType], where the value is a string, a number or a boolean. *)
Definition primitive (value : JsVal) : Inst.val :=
  match value with
  | VStr s => Inst.Str s
  | VNum n => Inst.Num n
  | VBool b => Inst.Bool b
  | _ => Inst.Obj []
  end.

Section Engine.

(** [sjcl.codec.hex.fromBits(sjcl.hash.sha256.hash(x))]. *)
Variable sha256hex : string -> string.
(** The result of the [n]-th call of [SecureRandom.wordWith(64)]. *)
Variable wordWith : nat -> string.
(** The result of the [n]-th call of [timestamp.now()]. *)
Variable now : nat -> Z.

(** The type of the constructor, for its recursive uses. *)
Definition Constructor : Type :=
  string -> JsVal -> option string -> M Inst.t.

Local Open Scope m_scope.

(** The [_.map] callback of the composite branch, over the entries of
    the input in order. *)
Fixpoint constructProperties (new : Constructor) (props : list Property.t)
         (entries : list (string * JsVal)) : M (list (string * Inst.t)) :=
  match entries with
  | [] => ret []
  | (k, v) :: rest =>
      match find (fun p => String.eqb (Property.name p) k) props with
      | None => throw TypeError
      | Some propertyDef =>
          uca <- new (Property.type propertyDef) v (Property.version propertyDef) ;;
          tl <- constructProperties new props rest ;;
          ret ((k, uca) :: tl)
      end
  end.

(** The [for] loop of the reconstruction branch. *)
Fixpoint reconstructProperties (new : Constructor) (ty : DefType)
         (parsed : list Parsed.t) (ucaValue : list (string * Inst.t))
  : M (list (string * Inst.t)) :=
  match parsed with
  | [] => ret ucaValue
  | p :: rest =>
      let propertyName := Parsed.propertyName p in
      match ty with
      | TypeName _ => throw TypeError
      | TypeSchema o =>
          match find (fun property =>
                        endsWith (Property.type property) propertyName)
                     (properties o) with
          | None => throw TypeError
          | Some property =>
              let filteredIdentifier := Property.type property in
              child <- new filteredIdentifier
                           (VObj [("attestableValue",
                                   VStr (Parsed.stringValue p))])
                           None ;;
              reconstructProperties new ty rest
                                    (assign propertyName child ucaValue)
          end
      end
  end.

(** The three construction modes: what they leave in [this.timestamp],
    [this.value] and [this.salt].  [definition] is the record after the
    assignment of its resolved type [ty].  The two loops construct
    children only when [ty] is an object schema; a child that looks up
    this same record then assigns it [ty] again, an inline schema being
    its own resolved type, so the later reads of [definition.type] in the
    loops see [ty] (lemma [construct_assigns_resolved]). *)
Definition buildValue (new : Constructor) (identifier : string)
           (definition : Def.t) (ty : DefType) (this_type : string)
           (value : JsVal) : M (option Z * Inst.val * option string) :=
  if isAttestableValue value then
    parsedAttestableValue <- lift (parseAttestableValue value) ;;
    match parsedAttestableValue with
    | [p] => ret (None, Inst.Str (Parsed.value p), Some (Parsed.salt p))
    | _ =>
        ucaValue <- reconstructProperties new ty parsedAttestableValue [] ;;
        ret (None, Inst.Obj ucaValue, None)
    end
  else if isValueOfType value this_type then
    fun w =>
      let timestamp := now (clockReads w) in
      let w := tickClock w in
      if negb (isValid value this_type definition) then (w, Throw InvalidValue)
      else
        let salt := sha256hex (wordWith (randomDraws w)) in
        (drawRandom w, Return (Some timestamp, primitive value, Some salt))
  else
    match ty with
    | TypeName _ => throw InvalidValue
    | TypeSchema o =>
        match properties o with
        | [] => throw InvalidValue
        | _ :: _ =>
            has <- lift (hasRequireds value (required o) true) ;;
            if negb has then throw MissingRequiredField
            else
              match collectionEntries value with
              | None => throw TypeError
              | Some entries =>
                  pairs <- constructProperties new (properties o) entries ;;
                  ret (None, Inst.Obj (keyBy pairs), None)
              end
        end
    end.

(** [new UCABaseConstructor(identifier, value, version)]. *)
Fixpoint construct (fuel : nat) (identifier : string) (value : JsVal)
         (version : option string) : M Inst.t :=
  match fuel with
  | O => lift OutOfFuel
  | S fuel' =>
      definitions0 <- gets definitions ;;
      if negb (includes (validIdentifiers definitions0) identifier)
      then throw UnknownIdentifier
      else
        match lookupDefinition identifier version definitions0 with
        | None =>
            (* [getTypeName(undefined)] reads [undefined.type] *)
            throw TypeError
        | Some (i, definition) =>
            let this_version :=
              if truthyStr version then version else Def.version definition in
            this_type <- lift (getTypeName fuel' definitions0 definition) ;;
            ty <- lift (resolveType fuel' definitions0 definition) ;;
            _ <- modify (assignType i ty) ;;
            ' (timestamp, this_value, salt) <-
               buildValue (construct fuel') identifier
                          (Def.set_type definition ty) ty this_type value ;;
            let this := Inst.Build timestamp "" identifier this_version
                                   this_type this_value salt in
            attestableValue <- lift (getAttestableValue this) ;;
            let hash := sha256hex attestableValue in
            ret (Inst.set_id this
                   (optToString this_version ++ ":" ++ identifier
                    ++ ":" ++ hash)%string)
        end
  end.

End Engine.

(** ** Sample registry

    A small registry in the shape of the shipped definitions, used to run
    the constructor on concrete inputs. *)

Definition plainDefinition (identifier : string) (type : DefType) : Def.t :=
  Def.Build identifier (Some "1") type None None None None None None None
            false false.

Definition personSchema : ObjectSchema :=
  {| properties := [Property.Build "first" "ns:Name:first" None;
                    Property.Build "last" "ns:Name:last" None;
                    Property.Build "age" "ns:Person:age" None];
     required := ["first"; "age"] |}.

(** A number between 0 and 150, both included. *)
Definition ageDefinition : Def.t :=
  Def.Build "ns:Person:age" (Some "1") (TypeName "Number") None None None
            (Some 0) (Some 150) None None false false.

(** A string of one to five characters. *)
Definition nickDefinition : Def.t :=
  Def.Build "ns:Name:nick" (Some "1") (TypeName "String") None
            (Some 1) (Some 5) None None None None false false.

Definition sampleDefinitions : list Def.t :=
  [ plainDefinition "ns:Identity:person" (TypeName "ns:Type:Person");
    plainDefinition "ns:Type:Person" (TypeSchema personSchema);
    plainDefinition "ns:Name:first" (TypeName "String");
    plainDefinition "ns:Name:last" (TypeName "String");
    ageDefinition;
    nickDefinition;
    plainDefinition "ns:Person:adult" (TypeName "Boolean") ].

Definition sampleWorld : World :=
  {| definitions := sampleDefinitions; clockReads := O; randomDraws := O |}.

(** Oracles for the sample runs: a fixed digest, a fixed random word and a
    clock that reads 1000, 1001, ... *)
Definition sampleDigest (_ : string) : string := "ab12".
Definition sampleWord (_ : nat) : string := "r".
Definition sampleClock (n : nat) : Z := 1000 + Z.of_nat n.

Definition sampleConstruct : nat -> Constructor :=
  construct sampleDigest sampleWord sampleClock.

(** How a construction may change a definition record: every field but
    [type] is kept, and a [type] that is an inline object schema is kept
    too. *)
Definition typeRefined (d d' : Def.t) : Prop :=
  d' = Def.set_type d (Def.type d')
  /\ (forall o, Def.type d = TypeSchema o -> Def.type d' = TypeSchema o).

(** The same records in the same order, each changed at most in [type]. *)
Definition registryRefined (defs defs' : list Def.t) : Prop :=
  Forall2 typeRefined defs defs'.

(** The outcome of [getAttestableValue] for each child, by key. *)
Definition renderChildren (children : list (string * Inst.t))
  : list (string * Outcome string) :=
  map (fun kv => (fst kv, getAttestableValue (snd kv))) children.

(** [this.value[k]], when [this.value] is an object of children. *)
Definition child (this : Inst.t) (k : string) : option Inst.t :=
  match Inst.value this with
  | Inst.Obj children => assoc k children
  | _ => None
  end.

(** The commitments of the children, each followed by a pipe. *)
Fixpoint pipeJoin (cs : list string) : string :=
  match cs with
  | [] => ""
  | c :: cs' => c ++ "|" ++ pipeJoin cs'
  end.

(** Ascending order of strings, as a relation. *)
Definition ascending (a b : string) : Prop := String.leb a b = true.

(** The last part of a leaf commitment: the value as a string, zero-padded
    for a number. *)
Definition renderedValue (type : string) (v : Inst.val) : string :=
  if String.eqb type "Number" then padStart (valToString v) 8 "0"
  else valToString v.

(** The type names with a leaf format in [getAttestableValue]. *)
Definition isLeafType (type : string) : bool :=
  String.eqb type "String" || String.eqb type "Number"
  || String.eqb type "Boolean".


(** A record of the registry as a construction may have left it: as it
    was loaded, or with its [type] overwritten by its own resolved type.
    [defs] is the registry as loaded. *)
Definition resolvedFrom (defs : list Def.t) (d d' : Def.t) : Prop :=
  d' = d
  \/ exists fuel ty, resolveType fuel defs d = Return ty /\ d' = Def.set_type d ty.

Definition resolvedRegistry (defs defs' : list Def.t) : Prop :=
  Forall2 (resolvedFrom defs) defs defs'.


(** A constructor that changes the registry only by refining types. *)
Definition Framed (new : Constructor) : Prop :=
  forall identifier value version w w' r,
    new identifier value version w = (w', r) ->
    registryRefined (definitions w) (definitions w').

(** Whether a segment matches the pattern of [parseAttestableValue]. *)
Definition matchesUrn (seg : string) : bool :=
  match execUrn seg with Some _ => true | None => false end.

(** Inputs of the sample runs. *)
Definition annAged (age : Z) : list (string * JsVal) :=
  [("first", VStr "Ann"); ("age", VNum age)].


Definition commitmentOf (c : string) : JsVal :=
  VObj [("attestableValue", VStr c)].

(** ** Disclosure, flattening and claim paths *)

(** [s.split(sep)] for a separator of one character. *)
Fixpoint splitOn (sep : ascii) (s : string) : list string :=
  match s with
  | EmptyString => [""]
  | String c s' =>
      if Ascii.eqb c sep then "" :: splitOn sep s'
      else match splitOn sep s' with
           | seg :: rest => String c seg :: rest
           | [] => [String c ""]
           end
  end.

(** [this.getClaimPropertyName()]: [_.split(this.identifier, ':')[2]],
    which is [undefined] when the identifier has fewer than three
    components. *)
Definition getClaimPropertyName (this : Inst.t) : option string :=
  nth_error (splitOn ":" (Inst.identifier this)) 2.

(** The predicate of [_.find(definitions, { identifier, version })] with
    the fields of an instance.  A source property that is [undefined]
    matches only a record that has the key, so an instance without version
    ([None]) finds no record: the embedding takes a definition without
    version for one that has no such key. *)
Definition matchesInstance (identifier : string) (version : option string)
           (d : Def.t) : bool :=
  String.eqb (Def.identifier d) identifier
  && match version, Def.version d with
     | Some v, Some v' => String.eqb v' v
     | _, _ => false
     end.

(** [_.reduce(innerValues, (res, iv) => res.push(iv), values)]: [push]
    returns the new length, a number, so the second step of the reduction
    calls [push] of a number. *)
Definition pushEach {A : Type} (values innerValues : list A) : Outcome (list A) :=
  match innerValues with
  | [] => Return values
  | [iv] => Return (values ++ [iv])%list
  | _ :: _ :: _ => Throw TypeError
  end.

(** The [_.forEach] of [getAttestableValues] over [_.keys(this.value)];
    [collected] gives, for each key [k], the outcome of
    [this.value[k].getAttestableValues()]. *)
Fixpoint forEachKey (ks : list string)
         (collected : list (string * Outcome (list (string * string))))
         (values : list (string * string))
  : Outcome (list (string * string)) :=
  match ks with
  | [] => Return values
  | k :: ks' =>
      match assoc k collected with
      | Some o =>
          obind o (fun innerValues =>
            obind (pushEach values innerValues) (forEachKey ks' collected))
      | None => Throw TypeError
      end
  end.

(** [this.getAttestableValues()], in the registry [definitions] of the
    time of the call: the pairs [{ identifier, value }]. *)
Fixpoint getAttestableValues (definitions : list Def.t) (this : Inst.t)
  : Outcome (list (string * string)) :=
  deref (find (matchesInstance (Inst.identifier this) (Inst.version this))
              definitions)
        (fun def =>
           if Def.credentialItem def || Def.attestable def then
             obind (getAttestableValue this) (fun c =>
               let values := [(Inst.identifier this, c)] in
               if String.eqb (Inst.type this) "Object" then
                 match Inst.value this with
                 | Inst.Obj children =>
                     let collected :=
                       (fix each (l : list (string * Inst.t)) :=
                          match l with
                          | [] => []
                          | (k, child) :: l' =>
                              (k, getAttestableValues definitions child)
                              :: each l'
                          end) children in
                     forEachKey (keys children) collected values
                 | Inst.Str (String _ _) => Throw TypeError
                 | _ => Return values
                 end
               else Return values)
           else Return []).

(** What [getPlainValue] puts under a key: the [value] of a leaf, or a
    child instance copied out of an object of children. *)
Inductive PlainEntry : Type :=
| PlainValue (v : Inst.val)
| PlainChild (u : Inst.t).

(** The result of [getPlainValue]: [this.value] itself, or the object
    [newParent]. *)
Inductive Plain : Type :=
| Bare (v : Inst.val)
| Flat (newParent : list (string * PlainEntry)).

(** The characters of a string under their indices, as [_.assign] copies
    them from a string source. *)
Fixpoint indexedChars (i : nat) (s : string) : list (string * PlainEntry) :=
  match s with
  | EmptyString => []
  | String c s' =>
      (numToString (Z.of_nat i), PlainValue (Inst.Str (String c "")))
      :: indexedChars (S i) s'
  end.

(** [_.assign(newParent, properties)]. *)
Definition assignPlain (newParent : list (string * PlainEntry)) (properties : Plain)
  : list (string * PlainEntry) :=
  let copy := fold_left (fun o kv => assign (fst kv) (snd kv) o) in
  match properties with
  | Flat l => copy l newParent
  | Bare (Inst.Str s) => copy (indexedChars 0 s) newParent
  | Bare (Inst.Obj children) =>
      copy (map (fun kv => (fst kv, PlainChild (snd kv))) children) newParent
  | Bare _ => newParent
  end.

(** The first [_.forEach] of the composite branch of [getPlainValue], over
    the sorted keys; [flattened] gives, for each key [k], the outcome of
    [this.value[k].getPlainValue(k)]. *)
Fixpoint plainResults (ks : list string) (flattened : list (string * Outcome Plain))
  : Outcome (list Plain) :=
  match ks with
  | [] => Return []
  | k :: ks' =>
      match assoc k flattened with
      | Some o =>
          obind o (fun properties =>
            obind (plainResults ks' flattened) (fun result =>
              Return (properties :: result)))
      | None => Throw TypeError
      end
  end.

(** [this.getPlainValue(propName)].  The constructor never sets
    [this.credentialItem] (and no generated class name is taken to be
    [credentialItem]), so the test [!this.credentialItem] holds and a leaf
    asked without a property name answers its bare value. *)
Fixpoint getPlainValue (this : Inst.t) (propName : option string) : Outcome Plain :=
  if isLeafType (Inst.type this) then
    if truthyStr propName
    then Return (Flat [(optToString propName, PlainValue (Inst.value this))])
    else Return (Bare (Inst.value this))
  else
    match Inst.value this with
    | Inst.Obj children =>
        let flattened :=
          (fix each (l : list (string * Inst.t)) :=
             match l with
             | [] => []
             | (k, child) :: l' => (k, getPlainValue child (Some k)) :: each l'
             end) children in
        obind (plainResults (sortBy (keys children)) flattened) (fun result =>
          Return (Flat (fold_left assignPlain result [])))
    | Inst.Str (String _ _) => Throw TypeError
    | _ => Return (Flat [])
    end.

(** A component of a commitment: property name, salt and printed value;
    its urn and the record [parseAttestableValue] makes of it. *)
Definition urnOf (part : string * string * string) : string :=
  let '(propertyName, salt, value) := part in
  "urn:" ++ propertyName ++ ":" ++ salt ++ ":" ++ value.

Definition parsedOf (part : string * string * string) : Parsed.t :=
  let '(propertyName, salt, value) := part in
  Parsed.Build propertyName salt value (urnOf part).

(** A component that prints and parses without loss: the property name
    and the salt are made of word characters and the value holds no
    pipe. *)
Definition wellFormedPart (part : string * string * string) : Prop :=
  allWord (fst (fst part)) = true
  /\ allWord (snd (fst part)) = true
  /\ contains "|" (snd part) = false.

(** [d] names the definition [e] as its type: the step [getTypeName] and
    [resolveType] take from [d] to [e]. *)
Definition aliasOf (defs : list Def.t) (d e : Def.t) : Prop :=
  exists n, Def.type d = TypeName n
            /\ find (matchesIdentifier n) defs = Some e.

(** [k] such steps lead from [d] to [e]. *)
Fixpoint aliasSteps (k : nat) (defs : list Def.t) (d e : Def.t) : Prop :=
  match k with
  | O => d = e
  | S k' => exists m, aliasOf defs d m /\ aliasSteps k' defs m e
  end.

(** ** A second sample registry

    It holds definitions with disclosure flags, a schema that requires
    nothing, a composite of a composite, a definition without version, a
    definition that declares the type name ['Object'] and two definitions
    that name each other. *)

Definition flaggedDefinition (identifier : string) (version : option string)
           (type : DefType) (credentialItem attestable : bool) : Def.t :=
  Def.Build identifier version type None None None None None None None
            credentialItem attestable.

Definition contactSchema : ObjectSchema :=
  {| properties := [Property.Build "nick" "ns:Name:nick" None;
                    Property.Build "first" "ns:Name:first" None];
     required := [] |}.

Definition householdSchema : ObjectSchema :=
  {| properties := [Property.Build "head" "ns:Identity:contact" None;
                    Property.Build "street" "ns:Address:street" None];
     required := ["head"] |}.

Definition flaggedDefinitions : list Def.t :=
  [ flaggedDefinition "ns:Identity:household" (Some "1")
                      (TypeSchema householdSchema) true false;
    flaggedDefinition "ns:Identity:contact" (Some "1")
                      (TypeSchema contactSchema) true false;
    flaggedDefinition "ns:Name:nick" (Some "1") (TypeName "String") false true;
    flaggedDefinition "ns:Name:first" (Some "1") (TypeName "String") false false;
    flaggedDefinition "ns:Address:street" (Some "1") (TypeName "String")
                      false true;
    flaggedDefinition "ns:Name:alias" None (TypeName "String") true true;
    flaggedDefinition "ns:Odd:object" (Some "1") (TypeName "Object") false false;
    flaggedDefinition "ns:Loop:ping" (Some "1") (TypeName "ns:Loop:pong")
                      false false;
    flaggedDefinition "ns:Loop:pong" (Some "1") (TypeName "ns:Loop:ping")
                      false false ].

Definition flaggedWorld : World :=
  {| definitions := flaggedDefinitions; clockReads := O; randomDraws := O |}.

(** The outcome of [getAttestableValues] for each child, by key. *)
Definition collectChildren (definitions : list Def.t)
           (children : list (string * Inst.t))
  : list (string * Outcome (list (string * string))) :=
  map (fun kv => (fst kv, getAttestableValues definitions (snd kv))) children.

(** The outcome of [getPlainValue(k)] for the child under each key [k]. *)
Definition flattenChildren (children : list (string * Inst.t))
  : list (string * Outcome Plain) :=
  map (fun kv => (fst kv, getPlainValue (snd kv) (Some (fst kv)))) children.

(** A mapping for the household of the second sample registry: a street
    and a head, the head being a contact with one property, [name]. *)
Definition householdOf (name : string) : JsVal :=
  VObj [("head", VObj [(name, VStr "Ann")]); ("street", VStr "Main")].

(** The registry of [b] is at least as resolved as the registry of [a]:
    whatever loaded registry that of [a] is resolved from, that of [b] is
    resolved from too.  Constructions only move a world this way. *)
Definition moreResolved (a b : World) : Prop :=
  forall defs,
    resolvedRegistry defs (definitions a) ->
    resolvedRegistry defs (definitions b).

(** A leaf child of a composite, as its commitment describes it: the key
    it is stored under, its identifier and type, its salt and its printed
    value. *)
Module Component.
Record t : Type := Build {
  key : string;
  identifier : string;
  type : string;
  salt : string;
  printed : string
}.
End Component.

Definition partOf (item : Component.t) : string * string * string :=
  (Component.key item, Component.salt item, Component.printed item).

(** A component that the reconstruction loop of a composite with schema
    [o] turns back into the leaf it describes, in every world at least as
    resolved as [base]: it prints and parses without loss, its key is the
    property name of its identifier, the first property of [o] whose type
    ends with the key has that identifier as type, and the definition
    found under the identifier alone has the leaf type of the component,
    for which the printed value is already in printed form. *)
Definition rebuildable (fuel : nat) (base : World) (o : ObjectSchema)
           (item : Component.t) : Prop :=
  wellFormedPart (partOf item)
  /\ isLeafType (Component.type item) = true
  /\ renderedValue (Component.type item) (Inst.Str (Component.printed item))
     = Component.printed item
  /\ propertyNameOf (Component.identifier item) = Component.key item
  /\ (exists q,
         find (fun property =>
                 endsWith (Property.type property) (Component.key item))
              (properties o) = Some q
         /\ Property.type q = Component.identifier item)
  /\ (forall w,
         moreResolved base w ->
         exists j d,
           lookupDefinition (Component.identifier item) None (definitions w)
           = Some (j, d)
           /\ getTypeName fuel (definitions w) d
              = Return (Component.type item)).

(** ** The grammar of the specification

    The pattern of a segment as the specification writes it: [urn:], one
    word character or more, a colon, one word character or more, a colon
    and any rest.  The code's pattern ([execUrn]) asks for no character in
    the two groups. *)
Definition specMatchesUrn (seg : string) : bool :=
  match execUrn seg with
  | Some (propertyName, salt, _) =>
      negb (String.eqb propertyName "") && negb (String.eqb salt "")
  | None => false
  end.

(** ** Property names the embedding keeps in insertion order

    JavaScript enumerates the array indices of an object first, in numeric
    order, and only then the other names in insertion order; lodash takes
    an object with a numeric [length] for an array; a name found on
    [Object.prototype] is read through the prototype chain, and
    [__proto__] is not assigned as a property.  An association list built
    with [assign] is the object the code builds when its keys are none of
    these.  The test leaves out every name made of digits only, a
    superset of the array indices. *)
Definition isDigit (c : ascii) : bool :=
  let n := nat_of_ascii c in ((48 <=? n) && (n <=? 57))%nat.

Fixpoint allDigits (s : string) : bool :=
  match s with
  | EmptyString => true
  | String c s' => isDigit c && allDigits s'
  end.

Definition prototypeNames : list string :=
  ["constructor"; "__proto__"; "hasOwnProperty"; "isPrototypeOf";
   "propertyIsEnumerable"; "toLocaleString"; "toString"; "valueOf";
   "__defineGetter__"; "__defineSetter__"; "__lookupGetter__";
   "__lookupSetter__"].

Definition ordinaryKey (k : string) : bool :=
  negb (String.eqb k "")
  && negb (allDigits k)
  && negb (String.eqb k "length")
  && negb (includes prototypeNames k).

(** * Properties *)

Unset Implicit Arguments.

(** ** Strings and lists *)

Lemma splitPipes_nonempty (s : string) : splitPipes s <> [].
Proof.
  induction s as [|c s IH]; simpl; [discriminate|].
  destruct (Ascii.eqb c "|"); [discriminate|].
  destruct (splitPipes s); discriminate.
Qed.

Lemma splitPipes_no_pipe (s : string) :
  contains "|" s = false -> splitPipes s = [s].
Proof.
  induction s as [|c s IH]; simpl; intros H; [reflexivity|].
  apply orb_false_iff in H as [Hc Hs].
  rewrite Hc, (IH Hs). reflexivity.
Qed.

Lemma matchedValues_length (segments : list string) :
  List.length (matchedValues segments)
  = List.length (filter matchesUrn segments).
Proof.
  induction segments as [|seg rest IH]; simpl; [reflexivity|].
  unfold matchesUrn at 1.
  destruct (execUrn seg) as [[[g1 g2] g3]|]; simpl; congruence.
Qed.

Lemma spanWord_app (w r : string) :
  allWord w = true ->
  (match r with EmptyString => true | String c _ => negb (isWordChar c) end) = true ->
  spanWord (w ++ r) = (w, r).
Proof.
  induction w as [|c w IH]; simpl; intros Hw Hr.
  - destruct r as [|c r]; [reflexivity|].
    simpl. apply negb_true_iff in Hr. rewrite Hr. reflexivity.
  - apply andb_true_iff in Hw as [Hc Hw].
    rewrite Hc, (IH Hw Hr). reflexivity.
Qed.

Lemma spanWord_inv (s w r : string) :
  spanWord s = (w, r) -> s = (w ++ r)%string /\ allWord w = true.
Proof.
  revert w r. induction s as [|c s IH]; simpl; intros w r H.
  - inversion H. split; reflexivity.
  - destruct (isWordChar c) eqn:Hc.
    + destruct (spanWord s) as [w' r'] eqn:Hs. inversion H; subst.
      destruct (IH _ _ eq_refl) as [-> Hw]. simpl. rewrite Hc. auto.
    + inversion H; subst. split; reflexivity.
Qed.

Lemma stripPrefix_app (p s : string) : stripPrefix p (p ++ s) = Some s.
Proof.
  induction p as [|a p IH]; simpl; [reflexivity|].
  rewrite Ascii.eqb_refl. exact IH.
Qed.

Lemma stripPrefix_inv (p s r : string) :
  stripPrefix p s = Some r -> s = (p ++ r)%string.
Proof.
  revert s. induction p as [|a p IH]; simpl; intros s H.
  - congruence.
  - destruct s as [|b s]; [discriminate|].
    destruct (Ascii.eqb a b) eqn:E; [|discriminate].
    apply Ascii.eqb_eq in E. subst. f_equal. auto.
Qed.

(** The pattern, read as a grammar: a segment matches exactly when it is
    [urn:], a run of word characters, a colon, a run of word characters, a
    colon, and anything; the groups are those three parts. *)
Lemma execUrn_iff (s g1 g2 g3 : string) :
  execUrn s = Some (g1, g2, g3)
  <-> s = ("urn:" ++ g1 ++ ":" ++ g2 ++ ":" ++ g3)%string
      /\ allWord g1 = true /\ allWord g2 = true.
Proof.
  unfold execUrn. split.
  - destruct (stripPrefix "urn:" s) as [r0|] eqn:H0; [|discriminate].
    destruct (spanWord r0) as [w1 r1] eqn:H1.
    destruct (stripPrefix ":" r1) as [r2|] eqn:H2; [|discriminate].
    destruct (spanWord r2) as [w2 r3] eqn:H3.
    destruct (stripPrefix ":" r3) as [r4|] eqn:H4; [|discriminate].
    intros H; inversion H; subst.
    apply stripPrefix_inv in H0, H2, H4.
    apply spanWord_inv in H1 as [H1 W1], H3 as [H3 W3].
    subst. auto.
  - intros (-> & W1 & W2).
    rewrite (stripPrefix_app "urn:").
    rewrite (spanWord_app g1 (":" ++ g2 ++ ":" ++ g3) W1 eq_refl).
    rewrite (stripPrefix_app ":").
    rewrite (spanWord_app g2 (":" ++ g3) W2 eq_refl).
    rewrite (stripPrefix_app ":"). reflexivity.
Qed.

Lemma findIndexed_None {A : Type} (p : A -> bool) (l : list A) :
  (forall x, In x l -> p x = false) -> findIndexed p l = None.
Proof.
  induction l as [|x l IH]; simpl; intros H; [reflexivity|].
  rewrite (H x (or_introl eq_refl)).
  rewrite IH; [reflexivity|]. intros y Hy. apply H. now right.
Qed.

Lemma includes_In (l : list string) (x : string) :
  includes l x = true <-> In x l.
Proof.
  unfold includes. rewrite existsb_exists. split.
  - intros (y & Hy & E). apply String.eqb_eq in E. now subst.
  - intros H. exists x. split; [assumption|apply String.eqb_refl].
Qed.

(** ** Value Validator *)

(** What the String branch computes: the third test, guarded by
    [maximumLength], compares the length with [minimumLength]. *)
Lemma isValid_String_eq (s : string) (d : Def.t) :
  isValid (VStr s) "String" d
  = (match Def.pattern d with Some re => re s | None => true end)
    && (if truthyNum (Def.minimumLength d)
        then js_ge (strlen s) (Def.minimumLength d) else true)
    && (if truthyNum (Def.maximumLength d)
        then js_le (strlen s) (Def.minimumLength d) else true).
Proof. reflexivity. Qed.

(** C3, at an input where the code and the specification part: the
    string ["abc"] against [nickDefinition], whose [minimumLength] is 1
    and [maximumLength] is 5.  The length 3 lies between the two bounds,
    so the String rule of the specification accepts the value, yet
    [isValid] rejects it, and the constructor throws '... is not valid
    for ...': the test guarded by [maximumLength] compares the length with
    [minimumLength]. *)
Theorem isValid_String_maximumLength :
  satisfiesStringConstraints "abc" nickDefinition = true
  /\ isValid (VStr "abc") "String" nickDefinition = false
  /\ snd (sampleConstruct 2 "ns:Name:nick" (VStr "abc") None sampleWorld)
     = Throw InvalidValue.
Proof. repeat split; vm_compute; reflexivity. Qed.

(** C7: numeric boundary behaviour.  [isValid] on a number is the
    conjunction of a test of the lower bound and a test of the upper
    bound; a bound that is absent imposes nothing, an exclusive bound is
    compared strictly and any other bound loosely.  Hence a value equal to
    [minimum] is rejected when [exclusiveMinimum] is true and otherwise
    accepted as soon as the upper bound is respected, and symmetrically
    for [maximum]; with no bounds every number is accepted. *)
Theorem isValid_Number_boundary (d : Def.t) (v : Z) :
  (isValid (VNum v) "Number" d = true
   <-> (forall m, Def.minimum d = Some m ->
                  if truthyBool (Def.exclusiveMinimum d) then m < v else m <= v)
       /\ (forall m, Def.maximum d = Some m ->
                     if truthyBool (Def.exclusiveMaximum d) then v < m else v <= m))
  /\ (Def.minimum d = Some v -> truthyBool (Def.exclusiveMinimum d) = true ->
      isValid (VNum v) "Number" d = false)
  /\ (Def.minimum d = Some v -> truthyBool (Def.exclusiveMinimum d) = false ->
      isValid (VNum v) "Number" d
      = (if truthyBool (Def.exclusiveMaximum d)
         then js_lt v (Def.maximum d) else js_le v (Def.maximum d))
        || isNil (Def.maximum d))
  /\ (Def.maximum d = Some v -> truthyBool (Def.exclusiveMaximum d) = true ->
      isValid (VNum v) "Number" d = false)
  /\ (Def.maximum d = Some v -> truthyBool (Def.exclusiveMaximum d) = false ->
      isValid (VNum v) "Number" d
      = (if truthyBool (Def.exclusiveMinimum d)
         then js_gt v (Def.minimum d) else js_ge v (Def.minimum d))
        || isNil (Def.minimum d))
  /\ (Def.minimum d = None -> Def.maximum d = None ->
      isValid (VNum v) "Number" d = true).
Proof.
  unfold isValid. simpl.
  destruct (Def.minimum d) as [lo|], (Def.maximum d) as [hi|];
    destruct (truthyBool (Def.exclusiveMinimum d)),
             (truthyBool (Def.exclusiveMaximum d)); simpl;
    repeat split; intros;
    repeat match goal with
           | H : Some _ = Some _ |- _ => inversion H; subst; clear H
           | H : _ /\ _ |- _ => destruct H
           | H : (_ && _)%bool = true |- _ => apply andb_true_iff in H
           | H : (_ || _)%bool = true |- _ => apply orb_true_iff in H
           | H : forall m, Some ?x = Some m -> _ |- _ => specialize (H x eq_refl)
           | H : forall m, None = Some m -> _ |- _ => clear H
           end;
    try discriminate; try reflexivity;
    rewrite ?andb_true_iff, ?orb_true_iff, ?orb_false_r, ?andb_true_r in *;
    rewrite ?Z.ltb_lt, ?Z.leb_le, ?Z.ltb_irrefl, ?Z.leb_refl in *;
    simpl; try lia; try reflexivity; try tauto.
Qed.

Lemma isValid_Number_boundary_witness :
  isValid (VNum 0) "Number" ageDefinition = true
  /\ isValid (VNum 150) "Number" ageDefinition = true
  /\ isValid (VNum 151) "Number" ageDefinition = false.
Proof.
  pose proof (isValid_Number_boundary ageDefinition 0) as (_ & _ & Hmin & _).
  pose proof (isValid_Number_boundary ageDefinition 150) as (_ & _ & _ & _ & Hmax & _).
  split; [exact (Hmin eq_refl eq_refl)|].
  split; [exact (Hmax eq_refl eq_refl)|reflexivity].
Defined.

(** ** Commitment Codec: parsing *)

(** Splitting cuts at the pipes and nowhere else: no segment holds a
    pipe, and the segments joined by pipes are the string. *)
Lemma splitPipes_segments (s : string) :
  Forall (fun seg => contains "|" seg = false) (splitPipes s).
Proof.
  induction s as [|c s IH]; simpl; [repeat constructor|].
  destruct (Ascii.eqb c "|") eqn:Hc; [constructor; [reflexivity|assumption]|].
  destruct (splitPipes s) as [|seg rest]; [repeat constructor; simpl; now rewrite Hc|].
  inversion IH; subst. constructor; [|assumption]. simpl. now rewrite Hc.
Qed.

Lemma concat_splitPipes (s : string) : String.concat "|" (splitPipes s) = s.
Proof.
  induction s as [|c s IH]; [reflexivity|]. cbn [splitPipes].
  destruct (Ascii.eqb_spec c "|") as [->|Hc].
  - pose proof (splitPipes_nonempty s) as Hne.
    destruct (splitPipes s) as [|seg rest]; [now elim Hne|].
    cbn [String.concat]. cbn [String.concat] in IH. now rewrite IH.
  - destruct (splitPipes s) as [|seg rest] eqn:E.
    + now elim (splitPipes_nonempty s).
    + cbn [String.concat] in *. destruct rest as [|seg' rest];
        rewrite <- IH; reflexivity.
Qed.

(** The components returned are the matching segments, in order, each
    with its three groups and the segment itself. *)
Lemma matchedValues_matching (segments : list string) :
  Forall2 (fun seg p =>
             execUrn seg
             = Some (Parsed.propertyName p, Parsed.salt p, Parsed.value p)
             /\ Parsed.stringValue p = seg)
          (filter matchesUrn segments) (matchedValues segments).
Proof.
  induction segments as [|seg rest IH]; cbn [filter matchedValues];
    [constructor|].
  unfold matchesUrn at 1.
  destruct (execUrn seg) as [[[g1 g2] g3]|] eqn:E; [|exact IH].
  constructor; [|exact IH]. split; [exact E|reflexivity].
Qed.

(** C6, as the code has it: parsing tolerance.  The commitment is split
    at its pipes (no segment holds a pipe, and the segments joined by
    pipes are the commitment), every segment is matched against the
    pattern, and the call returns the components of the matching
    segments, in order, exactly when their number is the number of
    segments or one less; in every other case it throws 'Invalid
    attestableValue'.  A segment matches when it reads [urn:], word
    characters, a colon, word characters, a colon and any rest, where
    either run of word characters may be empty. *)
Theorem parseAttestableValue_tolerance (s : string) :
  let segments := splitPipes s in
  let matching := filter matchesUrn segments in
  let parsed := parseAttestableValue (VObj [("attestableValue", VStr s)]) in
  String.concat "|" segments = s
  /\ Forall (fun seg => contains "|" seg = false) segments
  /\ (parsed = Return (matchedValues segments)
      <-> (List.length matching = List.length segments
           \/ List.length matching = List.length segments - 1)%nat)
  /\ (parsed = Throw MalformedCommitment
      <-> ~ (List.length matching = List.length segments
             \/ List.length matching = List.length segments - 1)%nat)
  /\ Forall2 (fun seg p =>
                execUrn seg
                = Some (Parsed.propertyName p, Parsed.salt p, Parsed.value p)
                /\ Parsed.stringValue p = seg)
             matching (matchedValues segments)
  /\ (forall seg, matchesUrn seg = true
                  <-> exists g1 g2 g3,
                      seg = ("urn:" ++ g1 ++ ":" ++ g2 ++ ":" ++ g3)%string
                      /\ allWord g1 = true /\ allWord g2 = true).
Proof.
  intros segments matching parsed.
  assert (Hlen : List.length (matchedValues segments) = List.length matching)
    by apply matchedValues_length.
  assert (Hne : (1 <= List.length segments)%nat).
  { pose proof (splitPipes_nonempty s). subst segments.
    destruct (splitPipes s); [congruence|simpl; lia]. }
  assert (Hparsed : parsed = parseString s) by reflexivity.
  split; [apply concat_splitPipes|].
  split; [apply splitPipes_segments|].
  rewrite Hparsed. unfold parseString. fold segments. rewrite Hlen.
  split; [|split; [|split; [apply matchedValues_matching|]]].
  - destruct (Nat.eqb_spec (List.length segments) (List.length matching));
      destruct (Nat.eqb_spec (List.length segments) (List.length matching + 1));
      simpl; split; intros H; try discriminate; try reflexivity; lia.
  - destruct (Nat.eqb_spec (List.length segments) (List.length matching));
      destruct (Nat.eqb_spec (List.length segments) (List.length matching + 1));
      simpl; split; intros H; try discriminate; try reflexivity; lia.
  - intros seg. split.
    + unfold matchesUrn. destruct (execUrn seg) as [[[g1 g2] g3]|] eqn:E;
        [|discriminate].
      intros _. exists g1, g2, g3. now apply execUrn_iff.
    + intros (g1 & g2 & g3 & H). apply execUrn_iff in H.
      unfold matchesUrn. now rewrite H.
Qed.

Lemma parseAttestableValue_tolerance_witness :
  splitPipes "urn:age:ab12:00000042|urn:first:ab12:Ann|"
  = ["urn:age:ab12:00000042"; "urn:first:ab12:Ann"; ""]
  /\ parseAttestableValue
       (commitmentOf "urn:age:ab12:00000042|urn:first:ab12:Ann|")
     = Return [Parsed.Build "age" "ab12" "00000042" "urn:age:ab12:00000042";
               Parsed.Build "first" "ab12" "Ann" "urn:first:ab12:Ann"]
  /\ splitPipes "urn:age:ab12:00000042|x|y"
     = ["urn:age:ab12:00000042"; "x"; "y"]
  /\ parseAttestableValue (commitmentOf "urn:age:ab12:00000042|x|y")
     = Throw MalformedCommitment.
Proof.
  pose proof (parseAttestableValue_tolerance
                "urn:age:ab12:00000042|urn:first:ab12:Ann|")
    as (_ & _ & [_ Hok] & _).
  pose proof (parseAttestableValue_tolerance "urn:age:ab12:00000042|x|y")
    as (_ & _ & _ & [_ Hbad] & _).
  split; [reflexivity|]. split; [exact (Hok (or_intror eq_refl))|].
  split; [reflexivity|]. apply Hbad. intros [H|H]; discriminate.
Defined.

(** C6 as stated fails on ["urn:::|"].  The string splits into ["urn:::"]
    and the empty segment.  The grammar of the specification asks for a
    word character at least in the property name and in the salt, so
    no segment matches it, and zero is neither the split count, two, nor
    one less: the claim has the parse fail.  The pattern of
    the code lets both groups be empty, the first segment matches, and
    the call returns one component with an empty property name and an
    empty salt. *)
Lemma empty_groups_parse :
  splitPipes "urn:::|" = ["urn:::"; ""]
  /\ filter specMatchesUrn (splitPipes "urn:::|") = []
  /\ List.length (filter specMatchesUrn (splitPipes "urn:::|"))
     <> List.length (splitPipes "urn:::|")
  /\ List.length (filter specMatchesUrn (splitPipes "urn:::|"))
     <> (List.length (splitPipes "urn:::|") - 1)%nat
  /\ parseAttestableValue (commitmentOf "urn:::|")
     = Return [Parsed.Build "" "" "" "urn:::"]
  /\ parseAttestableValue (commitmentOf "urn:::|") <> Throw MalformedCommitment.
Proof.
  repeat split; try reflexivity; vm_compute; discriminate.
Qed.

Lemma append_nil_r (s : string) : (s ++ "")%string = s.
Proof. induction s; simpl; congruence. Qed.

Lemma append_assoc (a b c : string) : ((a ++ b) ++ c = a ++ b ++ c)%string.
Proof. induction a; simpl; congruence. Qed.

Lemma length_append (a b : string) :
  String.length (a ++ b) = (String.length a + String.length b)%nat.
Proof. induction a; simpl; congruence. Qed.

(** ** Commitment Codec: serializing *)

Lemma getAttestableValue_set_id (this : Inst.t) (i : string) :
  getAttestableValue (Inst.set_id this i) = getAttestableValue this.
Proof. destruct this; reflexivity. Qed.


Lemma getAttestableValue_Obj timestamp id identifier version type children salt :
  isLeafType type = false ->
  getAttestableValue
    (Inst.Build timestamp id identifier version type (Inst.Obj children) salt)
  = reduceChildren (sortBy (keys children)) (renderChildren children) "".
Proof.
  unfold isLeafType. intros H.
  apply orb_false_iff in H as [H HB]. apply orb_false_iff in H as [HS HN].
  cbn [getAttestableValue Inst.type Inst.value]. rewrite HS, HN, HB.
  f_equal. unfold renderChildren.
  induction children as [|[k child] rest IH]; [reflexivity|].
  cbn [map fst snd]. f_equal. exact IH.
Qed.

Lemma assoc_In_keys {A : Type} (k : string) (l : list (string * A)) :
  In k (keys l) -> exists a, assoc k l = Some a.
Proof.
  induction l as [|[k' a] l IH]; simpl; [contradiction|].
  intros [->|H].
  - rewrite String.eqb_refl. eauto.
  - destruct (String.eqb k k'); eauto.
Qed.

Lemma assoc_Some_In {A : Type} (k : string) (a : A) (l : list (string * A)) :
  assoc k l = Some a -> In (k, a) l.
Proof.
  induction l as [|[k' a'] l IH]; simpl; [discriminate|].
  destruct (String.eqb_spec k k') as [->|Hne].
  - intros H; inversion H; subst. now left.
  - intros H. right. auto.
Qed.

Lemma assoc_renderChildren (k : string) (children : list (string * Inst.t)) :
  assoc k (renderChildren children)
  = option_map getAttestableValue (assoc k children).
Proof.
  induction children as [|[k' child] rest IH]; simpl; [reflexivity|].
  destruct (String.eqb k k'); [reflexivity|exact IH].
Qed.


(** When every child answers, the reduction is the concatenation of the
    answers in the order of the keys, each followed by a pipe. *)
Lemma reduceChildren_Return (ks : list string)
      (rendered : list (string * Outcome string)) (cs : list string) (s : string) :
  Forall2 (fun k c => assoc k rendered = Some (Return c)) ks cs ->
  reduceChildren ks rendered s
  = Return (s ++ pipeJoin cs)%string.
Proof.
  intros H. revert s. induction H as [|k c ks cs Hk _ IH]; intros s; simpl.
  - now rewrite append_nil_r.
  - rewrite Hk. simpl. rewrite IH. now rewrite !append_assoc.
Qed.


(** ** Objects built key by key *)

Lemma assign_fresh {A : Type} (k : string) (a : A) (l : list (string * A)) :
  ~ In k (keys l) -> assign k a l = (l ++ [(k, a)])%list.
Proof.
  induction l as [|[k' a'] l IH]; simpl; intros H; [reflexivity|].
  destruct (String.eqb_spec k k') as [->|Hne]; [exfalso; auto|].
  rewrite IH; auto.
Qed.

Lemma keyBy_from_NoDup {A : Type} (pairs acc : list (string * A)) :
  NoDup (keys (acc ++ pairs)%list) ->
  fold_left (fun o kv => assign (fst kv) (snd kv) o) pairs acc
  = (acc ++ pairs)%list.
Proof.
  revert acc. induction pairs as [|[k a] pairs IH]; intros acc H; simpl.
  - now rewrite app_nil_r.
  - rewrite assign_fresh.
    + rewrite IH; rewrite <- app_assoc; [reflexivity|exact H].
    + unfold keys in H. rewrite map_app in H. simpl in H.
      apply NoDup_remove_2 in H. intros Hin. apply H.
      apply in_or_app. now left.
Qed.

Lemma keyBy_NoDup {A : Type} (pairs : list (string * A)) :
  NoDup (keys pairs) -> keyBy pairs = pairs.
Proof. intros H. unfold keyBy. now rewrite keyBy_from_NoDup. Qed.

Lemma assign_Forall {A : Type} (P : string * A -> Prop) (k : string) (a : A)
      (l : list (string * A)) :
  P (k, a) -> Forall P l -> Forall P (assign k a l).
Proof.
  intros Hka. induction 1 as [|[k' a'] l Hx Hl IH]; simpl.
  - repeat constructor. exact Hka.
  - destruct (String.eqb k k'); constructor; auto.
Qed.

Lemma keyBy_Forall {A : Type} (P : string * A -> Prop) (pairs : list (string * A)) :
  Forall P pairs -> Forall P (keyBy pairs).
Proof.
  unfold keyBy. intros H.
  assert (G : forall acc, Forall P acc ->
                          Forall P (fold_left
                                      (fun o kv => assign (fst kv) (snd kv) o)
                                      pairs acc)).
  { induction H as [|[k a] pairs Hx _ IH]; intros acc Hacc; simpl;
      [assumption|].
    apply IH. now apply assign_Forall. }
  apply G. constructor.
Qed.




(** ** Sorting keys *)

Lemma leb_refl (a : string) : String.leb a a = true.
Proof. destruct (String.leb_total a a); assumption. Qed.

Lemma compare_not_Gt_trans (a b c : string) :
  String.compare a b <> Gt -> String.compare b c <> Gt ->
  String.compare a c <> Gt.
Proof.
  revert b c. induction a as [|x a IH]; intros [|y b] [|z c]; simpl;
    try congruence.
  unfold Ascii.compare.
  destruct (N.compare_spec (N_of_ascii x) (N_of_ascii y)),
           (N.compare_spec (N_of_ascii y) (N_of_ascii z)),
           (N.compare_spec (N_of_ascii x) (N_of_ascii z));
    try congruence; try lia; eauto.
Qed.

Lemma leb_trans (a b c : string) :
  String.leb a b = true -> String.leb b c = true -> String.leb a c = true.
Proof.
  unfold String.leb. intros H1 H2.
  pose proof (compare_not_Gt_trans a b c) as H.
  destruct (String.compare a b), (String.compare b c), (String.compare a c);
    try discriminate; try reflexivity; exfalso; apply H; congruence.
Qed.

Lemma insertSorted_Permutation (k : string) (l : list string) :
  Permutation (insertSorted k l) (k :: l).
Proof.
  induction l as [|x l IH]; simpl; [reflexivity|].
  destruct (String.leb k x); [reflexivity|].
  rewrite IH. apply perm_swap.
Qed.

Lemma sortBy_Permutation (l : list string) : Permutation (sortBy l) l.
Proof.
  induction l as [|x l IH]; simpl; [reflexivity|].
  rewrite insertSorted_Permutation. now constructor.
Qed.

Lemma insertSorted_sorted (k : string) (l : list string) :
  StronglySorted ascending l -> StronglySorted ascending (insertSorted k l).
Proof.
  induction 1 as [|x l Hl IH Hx]; simpl.
  - repeat constructor.
  - destruct (String.leb k x) eqn:Hk.
    + constructor; [now constructor|].
      constructor; [exact Hk|].
      eapply Forall_impl; [|exact Hx]. intros y Hy. eapply leb_trans; eauto.
    + constructor; [exact IH|].
      eapply Permutation_Forall; [symmetry; apply insertSorted_Permutation|].
      constructor; [|exact Hx].
      destruct (String.leb_total k x); [congruence|assumption].
Qed.

Lemma sortBy_sorted (l : list string) : StronglySorted ascending (sortBy l).
Proof.
  induction l; simpl; [constructor|now apply insertSorted_sorted].
Qed.

(** A list has one ascending arrangement. *)
Lemma sorted_unique (l1 l2 : list string) :
  StronglySorted ascending l1 -> StronglySorted ascending l2 ->
  Permutation l1 l2 -> l1 = l2.
Proof.
  intros H1. revert l2. induction H1 as [|x l1 Hl1 IH Hx]; intros l2 H2 HP.
  - apply Permutation_nil in HP. now subst.
  - destruct H2 as [|y l2 Hl2 Hy].
    + symmetry in HP. apply Permutation_nil in HP. discriminate.
    + assert (x = y) as ->.
      { assert (Hxy : In x (y :: l2)) by (eapply Permutation_in; eauto; now left).
        assert (Hyx : In y (x :: l1))
          by (eapply Permutation_in; [symmetry; eauto|now left]).
        destruct Hxy as [->|Hxy]; [reflexivity|].
        destruct Hyx as [->|Hyx]; [reflexivity|].
        rewrite Forall_forall in Hx, Hy.
        apply String.leb_antisym; [apply Hx|apply Hy]; assumption. }
      f_equal. apply IH; [assumption|]. eapply Permutation_cons_inv; eauto.
Qed.

Lemma sortBy_permuted (l1 l2 : list string) :
  Permutation l1 l2 -> sortBy l1 = sortBy l2.
Proof.
  intros H. apply sorted_unique; try apply sortBy_sorted.
  rewrite !sortBy_Permutation. exact H.
Qed.


(** ** Registry lookups *)

Lemma findIndexed_Some {A : Type} (p : A -> bool) (l : list A) (i : nat) (x : A) :
  findIndexed p l = Some (i, x) -> nth_error l i = Some x /\ p x = true.
Proof.
  revert i. induction l as [|y l IH]; simpl; intros i H; [discriminate|].
  destruct (p y) eqn:Hy.
  - inversion H; subst. auto.
  - destruct (findIndexed p l) as [[j z]|]; [|discriminate].
    inversion H; subst. simpl. auto.
Qed.

Lemma lookupDefinition_Some (identifier : string) (version : option string)
      (defs : list Def.t) (i : nat) (d : Def.t) :
  lookupDefinition identifier version defs = Some (i, d) ->
  nth_error defs i = Some d /\ Def.identifier d = identifier.
Proof.
  unfold lookupDefinition. intros H.
  assert (H' : (exists v, findIndexed (matchesIdentifierVersion identifier v) defs
                          = Some (i, d))
               \/ findIndexed (matchesIdentifier identifier) defs = Some (i, d)).
  { destruct version as [v|]; [destruct (truthyStr (Some v))|]; eauto. }
  destruct H' as [[v H']|H']; apply findIndexed_Some in H' as [Hn Hp];
    split; try assumption.
  - unfold matchesIdentifierVersion in Hp. apply andb_true_iff in Hp as [Hp _].
    now apply String.eqb_eq.
  - now apply String.eqb_eq.
Qed.

Lemma typeRefined_refl (d : Def.t) : typeRefined d d.
Proof. split; [destruct d; reflexivity|auto]. Qed.

Lemma typeRefined_trans (a b c : Def.t) :
  typeRefined a b -> typeRefined b c -> typeRefined a c.
Proof.
  intros [H1 S1] [H2 S2]. split.
  - rewrite H2 at 1. rewrite H1. destruct a; reflexivity.
  - intros o H. eauto.
Qed.

Lemma registryRefined_refl (defs : list Def.t) : registryRefined defs defs.
Proof. induction defs; constructor; auto using typeRefined_refl. Qed.

Lemma registryRefined_trans (a b c : list Def.t) :
  registryRefined a b -> registryRefined b c -> registryRefined a c.
Proof.
  intros H. revert c. induction H; intros c Hc; inversion Hc; subst;
    constructor; eauto using typeRefined_trans.
  now apply IHForall2.
Qed.

Lemma registryRefined_identifiers (defs defs' : list Def.t) :
  registryRefined defs defs' -> validIdentifiers defs' = validIdentifiers defs.
Proof.
  induction 1 as [|d d' l l' [H _] _ IH]; simpl; [reflexivity|].
  rewrite IH, H. reflexivity.
Qed.

Lemma registryRefined_updateAt (defs : list Def.t) (i : nat) (d : Def.t)
      (ty : DefType) :
  nth_error defs i = Some d ->
  (forall o, Def.type d = TypeSchema o -> ty = TypeSchema o) ->
  registryRefined defs (updateAt i (fun d => Def.set_type d ty) defs).
Proof.
  revert i. induction defs as [|x l IH]; intros i Hn Hty;
    [destruct i; constructor|].
  destruct i as [|i]; simpl in *.
  - inversion Hn; subst. constructor; [|apply registryRefined_refl].
    split; [reflexivity|exact Hty].
  - constructor; [apply typeRefined_refl|]. now apply IH.
Qed.

(** ** Type Resolver *)

Lemma getTypeName_not_identifier (fuel : nat) (defs : list Def.t) (d : Def.t)
      (typeName : string) :
  getTypeName fuel defs d = Return typeName ->
  typeName = "Object" \/ includes (validIdentifiers defs) typeName = false.
Proof.
  revert d. induction fuel as [|fuel IH]; simpl; intros d H; [discriminate|].
  destruct (Def.type d) as [ty|o].
  - destruct (includes (validIdentifiers defs) ty) eqn:Hin.
    + destruct (find (matchesIdentifier ty) defs) as [inner|]; simpl in H;
        [eauto|discriminate].
    + inversion H; subst. now right.
  - inversion H. now left.
Qed.

Lemma resolveType_typeName (fuel : nat) (defs : list Def.t) (d : Def.t)
      (ty : DefType) :
  resolveType fuel defs d = Return ty ->
  exists typeName,
    getTypeName fuel defs d = Return typeName
    /\ match ty with
       | TypeName n => n = typeName /\ typeName <> "Object"
       | TypeSchema _ => typeName = "Object"
       end.
Proof.
  revert d ty. induction fuel as [|fuel IH]; intros d ty H; [discriminate|].
  cbn [resolveType] in H.
  destruct (getTypeName (S fuel) defs d) as [typeName| |] eqn:Hn;
    try discriminate.
  exists typeName. split; [reflexivity|]. cbn [obind] in H.
  destruct (String.eqb_spec typeName "Object") as [->|Hne]; simpl in H.
  - destruct (Def.type d) as [n|o] eqn:Hty.
    + destruct (find (matchesIdentifier n) defs) as [ref|] eqn:Href;
        simpl in H; [|discriminate].
      apply IH in H as (typeName' & Hn' & H).
      destruct ty as [n0|o0]; [|reflexivity].
      exfalso. destruct H as [-> Hne].
      cbn [getTypeName] in Hn. rewrite Hty in Hn.
      destruct (includes (validIdentifiers defs) n) eqn:Hin.
      * rewrite Href in Hn. simpl in Hn. congruence.
      * inversion Hn; subst.
        apply find_some in Href as [Hin' Hid].
        apply String.eqb_eq in Hid.
        assert (includes (validIdentifiers defs) "Object" = true); [|congruence].
        apply includes_In. unfold validIdentifiers. rewrite <- Hid.
        now apply in_map.
    + inversion H; subst. reflexivity.
  - inversion H; subst. auto.
Qed.

Lemma resolveType_schema (fuel : nat) (defs : list Def.t) (d : Def.t)
      (o : ObjectSchema) (ty : DefType) :
  Def.type d = TypeSchema o ->
  resolveType fuel defs d = Return ty -> ty = TypeSchema o.
Proof.
  intros Hty. destruct fuel as [|fuel]; [discriminate|].
  cbn [resolveType getTypeName]. rewrite Hty. simpl. congruence.
Qed.

(** ** Resolution in a registry that constructions have written to *)

Lemma getTypeName_mono (fuel : nat) (defs : list Def.t) (d : Def.t) (T : string) :
  getTypeName fuel defs d = Return T ->
  forall fuel', (fuel <= fuel')%nat -> getTypeName fuel' defs d = Return T.
Proof.
  revert d. induction fuel as [|fuel IH]; intros d H fuel' Hle; [discriminate|].
  destruct fuel' as [|fuel']; [lia|]. simpl in *.
  destruct (Def.type d) as [n|o]; [|exact H].
  destruct (includes (validIdentifiers defs) n); [|exact H].
  destruct (find (matchesIdentifier n) defs) as [inner|]; simpl in *;
    [|discriminate].
  apply IH; [exact H|lia].
Qed.

Lemma getTypeName_det (f1 f2 : nat) (defs : list Def.t) (d : Def.t) (T1 T2 : string) :
  getTypeName f1 defs d = Return T1 ->
  getTypeName f2 defs d = Return T2 -> T1 = T2.
Proof.
  intros H1 H2.
  apply (getTypeName_mono _ _ _ _) with (fuel' := Nat.max f1 f2) in H1; [|lia].
  apply (getTypeName_mono _ _ _ _) with (fuel' := Nat.max f1 f2) in H2; [|lia].
  congruence.
Qed.

Lemma resolveType_mono (fuel : nat) (defs : list Def.t) (d : Def.t) (ty : DefType) :
  resolveType fuel defs d = Return ty ->
  forall fuel', (fuel <= fuel')%nat -> resolveType fuel' defs d = Return ty.
Proof.
  revert d. induction fuel as [|fuel IH]; intros d H fuel' Hle; [discriminate|].
  destruct fuel' as [|fuel']; [lia|]. cbn [resolveType] in *.
  destruct (getTypeName (S fuel) defs d) as [T| |] eqn:Hn; try discriminate.
  rewrite (getTypeName_mono _ _ _ _ Hn (S fuel') Hle). cbn [obind] in *.
  destruct (negb (String.eqb T "Object")); [exact H|].
  destruct (Def.type d) as [n|o]; [|exact H].
  destruct (find (matchesIdentifier n) defs) as [ref|]; simpl in *;
    [|discriminate].
  apply IH; [exact H|lia].
Qed.

Lemma resolveType_det (f1 f2 : nat) (defs : list Def.t) (d : Def.t)
      (ty1 ty2 : DefType) :
  resolveType f1 defs d = Return ty1 ->
  resolveType f2 defs d = Return ty2 -> ty1 = ty2.
Proof.
  intros H1 H2.
  apply (resolveType_mono _ _ _ _) with (fuel' := Nat.max f1 f2) in H1; [|lia].
  apply (resolveType_mono _ _ _ _) with (fuel' := Nat.max f1 f2) in H2; [|lia].
  congruence.
Qed.

Lemma resolvedFrom_identifier (defs : list Def.t) (d d' : Def.t) :
  resolvedFrom defs d d' ->
  Def.identifier d' = Def.identifier d /\ Def.version d' = Def.version d.
Proof. intros [->|(f & ty & _ & ->)]; split; reflexivity. Qed.

Lemma resolvedRegistry_refl (defs : list Def.t) : resolvedRegistry defs defs.
Proof.
  unfold resolvedRegistry. generalize defs at 1 as base.
  induction defs; constructor; [now left|auto].
Qed.

Lemma resolvedRegistry_identifiers (defs defs' : list Def.t) :
  resolvedRegistry defs defs' -> validIdentifiers defs' = validIdentifiers defs.
Proof.
  unfold resolvedRegistry. generalize defs at 1 as base. intros base H.
  induction H as [|d d' l l' Hd _ IH]; simpl; [reflexivity|].
  destruct (resolvedFrom_identifier _ _ _ Hd) as [-> _]. now rewrite IH.
Qed.

Lemma findIndexed_Forall2 {A : Type} (R : A -> A -> Prop) (p : A -> bool)
      (l l' : list A) (i : nat) (x : A) :
  Forall2 R l l' ->
  (forall a b, R a b -> p b = p a) ->
  findIndexed p l = Some (i, x) ->
  exists y, findIndexed p l' = Some (i, y) /\ R x y.
Proof.
  intros H Hp. revert i. induction H as [|a b l l' Hab _ IH]; intros i Hf;
    simpl in *; [discriminate|].
  rewrite (Hp _ _ Hab). destruct (p a).
  - inversion Hf; subst. eauto.
  - destruct (findIndexed p l) as [[j z]|]; [|discriminate].
    inversion Hf; subst. destruct (IH j eq_refl) as (y & -> & Hy). eauto.
Qed.

Lemma find_Forall2 {A : Type} (R : A -> A -> Prop) (p : A -> bool)
      (l l' : list A) (x : A) :
  Forall2 R l l' ->
  (forall a b, R a b -> p b = p a) ->
  find p l = Some x ->
  exists y, find p l' = Some y /\ R x y.
Proof.
  intros H Hp. induction H as [|a b l l' Hab _ IH]; intros Hf;
    simpl in *; [discriminate|].
  rewrite (Hp _ _ Hab). destruct (p a); [inversion Hf; subst; eauto|auto].
Qed.

Lemma lookupDefinition_resolved (defs defs' : list Def.t) identifier version
      (i : nat) (d : Def.t) :
  resolvedRegistry defs defs' ->
  lookupDefinition identifier version defs = Some (i, d) ->
  exists d', lookupDefinition identifier version defs' = Some (i, d')
             /\ resolvedFrom defs d d'.
Proof.
  intros HR. unfold lookupDefinition.
  assert (HbyId : forall a b, resolvedFrom defs a b ->
                              matchesIdentifier identifier b
                              = matchesIdentifier identifier a).
  { intros a b Hab. unfold matchesIdentifier.
    now destruct (resolvedFrom_identifier _ _ _ Hab) as [-> _]. }
  assert (HbyVer : forall v a b, resolvedFrom defs a b ->
                                 matchesIdentifierVersion identifier v b
                                 = matchesIdentifierVersion identifier v a).
  { intros v a b Hab. unfold matchesIdentifierVersion.
    now destruct (resolvedFrom_identifier _ _ _ Hab) as [-> ->]. }
  destruct version as [v|]; [destruct (truthyStr (Some v))|];
    eauto using findIndexed_Forall2.
Qed.

(** Resolution gives the same answers in the written registry as in the
    loaded one. *)
Lemma getTypeName_resolved (defs defs' : list Def.t) :
  resolvedRegistry defs defs' ->
  forall fuel d d' T,
    resolvedFrom defs d d' ->
    getTypeName fuel defs d = Return T ->
    getTypeName fuel defs' d' = Return T.
Proof.
  intros HR. pose proof (resolvedRegistry_identifiers _ _ HR) as Hids.
  induction fuel as [|fuel IH]; intros d d' T Hd H; [discriminate|].
  destruct Hd as [->|(f0 & ty & Hty & ->)].
  - simpl in *. rewrite Hids.
    destruct (Def.type d) as [n|o]; [|exact H].
    destruct (includes (validIdentifiers defs) n); [|exact H].
    destruct (find (matchesIdentifier n) defs) as [inner|] eqn:Hf;
      simpl in H; [|discriminate].
    destruct (find_Forall2 (resolvedFrom defs) (matchesIdentifier n)
                           defs defs' inner HR) as (inner' & -> & Hin);
      [|exact Hf|simpl; eauto].
    intros a b Hab. unfold matchesIdentifier.
    now destruct (resolvedFrom_identifier _ _ _ Hab) as [-> _].
  - destruct (resolveType_typeName _ _ _ _ Hty) as (T0 & Hn0 & Hshape).
    assert (T0 = T) as -> by (eapply getTypeName_det; eauto).
    cbn [getTypeName Def.type Def.set_type]. destruct ty as [n|o].
    + destruct Hshape as [-> Hne]. rewrite Hids.
      destruct (getTypeName_not_identifier _ _ _ _ Hn0) as [? | ->];
        [contradiction|reflexivity].
    + now subst T.
Qed.

Lemma resolveType_resolved (defs defs' : list Def.t) :
  resolvedRegistry defs defs' ->
  forall fuel d d' ty,
    resolvedFrom defs d d' ->
    resolveType fuel defs d = Return ty ->
    resolveType fuel defs' d' = Return ty.
Proof.
  intros HR. induction fuel as [|fuel IH]; intros d d' ty Hd H; [discriminate|].
  pose proof H as Hfull. cbn [resolveType] in H |- *.
  destruct (getTypeName (S fuel) defs d) as [T| |] eqn:Hn; try discriminate.
  rewrite (getTypeName_resolved _ _ HR _ _ _ _ Hd Hn). cbn [obind] in *.
  destruct (negb (String.eqb T "Object")) eqn:HT; [exact H|].
  destruct Hd as [->|(f0 & ty0 & Hty0 & ->)].
  - destruct (Def.type d) as [n|o]; [|exact H].
    destruct (find (matchesIdentifier n) defs) as [ref|] eqn:Hf;
      simpl in H; [|discriminate].
    destruct (find_Forall2 (resolvedFrom defs) (matchesIdentifier n)
                           defs defs' ref HR) as (ref' & -> & Href);
      [|exact Hf|simpl; eauto].
    intros a b Hab. unfold matchesIdentifier.
    now destruct (resolvedFrom_identifier _ _ _ Hab) as [-> _].
  - assert (ty0 = ty) as -> by (eapply resolveType_det; eauto).
    destruct (resolveType_typeName _ _ _ _ Hfull) as (T' & Hn' & Hshape).
    rewrite Hn in Hn'. inversion Hn'; subst T'.
    apply negb_false_iff, String.eqb_eq in HT. subst T.
    cbn [Def.type Def.set_type]. destruct ty as [n|o]; [|reflexivity].
    now destruct Hshape.
Qed.

Lemma resolvedFrom_assign (base l l' : list Def.t) (i : nat) (d d' : Def.t)
      (fuel : nat) (ty : DefType) :
  Forall2 (resolvedFrom base) l l' ->
  nth_error l i = Some d ->
  nth_error l' i = Some d' ->
  resolveType fuel base d = Return ty ->
  Forall2 (resolvedFrom base) l (updateAt i (fun d => Def.set_type d ty) l').
Proof.
  intros H. revert i. induction H as [|a b l l' Hab Hl IH]; intros i Hn Hn' Hty;
    [destruct i; constructor|].
  destruct i as [|i]; simpl in *.
  - inversion Hn; inversion Hn'; subst. constructor; [|exact Hl].
    right. exists fuel, ty. split; [exact Hty|].
    destruct Hab as [->|(f0 & ty0 & _ & ->)]; reflexivity.
  - constructor; [exact Hab|]. eapply IH; eauto.
Qed.

(** Assigning a record its resolved type keeps the registry among those
    that constructions may leave. *)
Lemma resolvedRegistry_assign (defs defs' : list Def.t) (i : nat) (d d' : Def.t)
      (fuel : nat) (ty : DefType) :
  resolvedRegistry defs defs' ->
  nth_error defs i = Some d ->
  nth_error defs' i = Some d' ->
  resolveType fuel defs d = Return ty ->
  resolvedRegistry defs (updateAt i (fun d => Def.set_type d ty) defs').
Proof. apply resolvedFrom_assign. Qed.

(** ** Leaf commitments *)

Lemma getAttestableValue_leaf timestamp id identifier version type v salt :
  isLeafType type = true ->
  getAttestableValue (Inst.Build timestamp id identifier version type v salt)
  = Return ("urn:" ++ propertyNameOf identifier ++ ":" ++ optToString salt
            ++ ":" ++ renderedValue type v)%string.
Proof.
  unfold isLeafType, renderedValue. intros H.
  cbn [getAttestableValue Inst.type Inst.value Inst.salt Inst.identifier].
  destruct (String.eqb_spec type "String") as [->|_]; [reflexivity|].
  destruct (String.eqb_spec type "Number") as [->|_]; [reflexivity|].
  destruct (String.eqb_spec type "Boolean") as [->|_]; [reflexivity|].
  discriminate.
Qed.

Lemma isValueOfType_leaf (value : JsVal) (type : string) :
  isValueOfType value type = true ->
  isLeafType type = true
  /\ isAttestableValue value = false
  /\ ((type = "String" /\ exists s, value = VStr s)
      \/ (type = "Number" /\ exists n, value = VNum n)
      \/ (type = "Boolean" /\ exists b, value = VBool b)).
Proof.
  unfold isValueOfType, isLeafType.
  destruct (String.eqb_spec type "String") as [->|_].
  { destruct value; try discriminate. intros _.
    repeat split; [unfold isAttestableValue; simpl; apply andb_false_r|].
    left. eauto. }
  destruct (String.eqb_spec type "Number") as [->|_].
  { destruct value; try discriminate. intros _.
    repeat split; [unfold isAttestableValue; simpl; apply andb_false_r|].
    right. left. eauto. }
  destruct (String.eqb_spec type "Boolean") as [->|_]; [|discriminate].
  destruct value; try discriminate. intros _.
  repeat split; [unfold isAttestableValue; simpl; apply andb_false_r|].
  right. right. eauto.
Qed.

Lemma contains_append (c : ascii) (a b : string) :
  contains c (a ++ b) = contains c a || contains c b.
Proof.
  induction a as [|x a IH]; simpl; [reflexivity|].
  now rewrite IH, orb_assoc.
Qed.

Lemma allWord_no_pipe (s : string) : allWord s = true -> contains "|" s = false.
Proof.
  induction s as [|c s IH]; simpl; [reflexivity|].
  intros H. apply andb_true_iff in H as [Hc Hs]. rewrite (IH Hs), orb_false_r.
  destruct (Ascii.eqb_spec c "|") as [->|]; [discriminate|reflexivity].
Qed.

Lemma uint_no_pipe (d : Decimal.uint) :
  contains "|" (NilEmpty.string_of_uint d) = false.
Proof. induction d; simpl; auto. Qed.

Lemma numToString_no_pipe (n : Z) : contains "|" (numToString n) = false.
Proof.
  unfold numToString, NilZero.string_of_int, NilZero.string_of_uint.
  destruct (Z.to_int n) as [d|d]; destruct d; simpl;
    try reflexivity; apply uint_no_pipe.
Qed.

Lemma repeatChar_length (n : nat) (c : ascii) :
  String.length (repeatChar n c) = n.
Proof. induction n; simpl; congruence. Qed.

Lemma padStart_long (s : string) (n : nat) (c : ascii) :
  (n <= String.length s)%nat -> padStart s n c = s.
Proof.
  unfold padStart. intros H.
  replace (n - String.length s)%nat with O by lia. reflexivity.
Qed.

Lemma padStart_length (s : string) (n : nat) (c : ascii) :
  (n <= String.length (padStart s n c))%nat.
Proof. unfold padStart. rewrite length_append, repeatChar_length. lia. Qed.

Lemma padStart_no_pipe (s : string) (n : nat) :
  contains "|" s = false -> contains "|" (padStart s n "0") = false.
Proof.
  unfold padStart. intros H. rewrite contains_append, H, orb_false_r.
  induction (n - String.length s)%nat; simpl; auto.
Qed.

(** Rendering the rendered value again gives it back: this is what makes
    the commitment of a rebuilt number the commitment it was built from. *)
Lemma renderedValue_again (type : string) (v : Inst.val) :
  renderedValue type (Inst.Str (renderedValue type v)) = renderedValue type v.
Proof.
  unfold renderedValue. destruct (String.eqb type "Number"); [|reflexivity].
  cbn [valToString]. apply padStart_long, padStart_length.
Qed.

Lemma renderedValue_no_pipe (value : JsVal) (type : string) :
  isValueOfType value type = true ->
  match value with VStr s => contains "|" s = false | _ => True end ->
  contains "|" (renderedValue type (primitive value)) = false.
Proof.
  intros Ht Hs. apply isValueOfType_leaf in Ht as (_ & _ & Hcase).
  unfold renderedValue.
  destruct Hcase as [[-> [s ->]]|[[-> [n ->]]|[-> [b ->]]]]; simpl.
  - exact Hs.
  - apply padStart_no_pipe, numToString_no_pipe.
  - destruct b; reflexivity.
Qed.

(** Parsing a leaf commitment gives back its three parts. *)
Lemma parseString_leaf (propertyName salt rest : string) :
  allWord propertyName = true ->
  allWord salt = true ->
  contains "|" rest = false ->
  let c := ("urn:" ++ propertyName ++ ":" ++ salt ++ ":" ++ rest)%string in
  parseString c = Return [Parsed.Build propertyName salt rest c].
Proof.
  intros Hp Hs Hr c. unfold parseString.
  assert (Hc : contains "|" c = false).
  { subst c. rewrite !contains_append, (allWord_no_pipe _ Hp),
      (allWord_no_pipe _ Hs), Hr. reflexivity. }
  rewrite (splitPipes_no_pipe _ Hc). cbn [matchedValues].
  assert (He : execUrn c = Some (propertyName, salt, rest))
    by (apply execUrn_iff; auto).
  rewrite He. reflexivity.
Qed.

(** ** Looking a definition up again *)

Lemma findIndexed_updateAt {A : Type} (p : A -> bool) (f : A -> A)
      (l : list A) (i : nat) (x : A) :
  (forall y, p (f y) = p y) ->
  findIndexed p l = Some (i, x) ->
  findIndexed p (updateAt i f l) = Some (i, f x).
Proof.
  intros Hp. revert i. induction l as [|y l IH]; intros i H; simpl in H;
    [discriminate|].
  destruct (p y) eqn:Hy.
  - inversion H; subst. simpl. now rewrite Hp, Hy.
  - destruct (findIndexed p l) as [[j z]|] eqn:Hl; [|discriminate].
    inversion H; subst. simpl. rewrite Hy, (IH j eq_refl). reflexivity.
Qed.

Lemma findIndexed_stronger {A : Type} (p q : A -> bool) (l : list A)
      (i : nat) (x : A) :
  (forall y, q y = true -> p y = true) ->
  findIndexed p l = Some (i, x) ->
  q x = true ->
  findIndexed q l = Some (i, x).
Proof.
  intros Hqp. revert i. induction l as [|y l IH]; intros i H Hq; simpl in H;
    [discriminate|].
  simpl. destruct (p y) eqn:Hy.
  - inversion H; subst. now rewrite Hq.
  - destruct (q y) eqn:Hqy; [rewrite (Hqp y Hqy) in Hy; discriminate|].
    destruct (findIndexed p l) as [[j z]|] eqn:Hl; [|discriminate].
    inversion H; subst. rewrite (IH j eq_refl Hq). reflexivity.
Qed.

(** The version an instance records finds, with the identifier, the
    definition the instance was built from, also after the assignment of
    the resolved type. *)
Lemma lookupDefinition_again (identifier : string) (version : option string)
      (defs : list Def.t) (i : nat) (d : Def.t) (ty : DefType) :
  lookupDefinition identifier version defs = Some (i, d) ->
  lookupDefinition identifier
                   (if truthyStr version then version else Def.version d)
                   (updateAt i (fun d => Def.set_type d ty) defs)
  = Some (i, Def.set_type d ty).
Proof.
  intros H.
  assert (HbyId : forall y, matchesIdentifier identifier (Def.set_type y ty)
                            = matchesIdentifier identifier y) by reflexivity.
  assert (HbyVer : forall v y,
             matchesIdentifierVersion identifier v (Def.set_type y ty)
             = matchesIdentifierVersion identifier v y) by reflexivity.
  destruct (truthyStr version) eqn:Htruthy.
  - unfold lookupDefinition in *. rewrite Htruthy in *.
    destruct version as [v|]; [|discriminate].
    apply (findIndexed_updateAt _ (fun d => Def.set_type d ty));
      [apply HbyVer|exact H].
  - assert (Hid : findIndexed (matchesIdentifier identifier) defs = Some (i, d)).
    { unfold lookupDefinition in H. rewrite Htruthy in H.
      destruct version; exact H. }
    clear H. unfold lookupDefinition.
    destruct (Def.version d) as [v'|] eqn:Hv;
      [destruct (truthyStr (Some v')) eqn:Hv'|];
      try (apply (findIndexed_updateAt _ (fun d => Def.set_type d ty));
           [apply HbyId|exact Hid]).
    apply (findIndexed_updateAt _ (fun d => Def.set_type d ty));
      [apply HbyVer|].
    eapply findIndexed_stronger; [|exact Hid|].
    + intros y Hy. unfold matchesIdentifierVersion in Hy.
      now apply andb_true_iff in Hy as [Hy _].
    + apply findIndexed_Some in Hid as [_ Hid].
      unfold matchesIdentifierVersion. unfold matchesIdentifier in Hid.
      rewrite Hid, Hv. simpl. apply String.eqb_refl.
Qed.

Lemma updateAt_again {A : Type} (f : A -> A) (l : list A) (i : nat) :
  (forall x, f (f x) = f x) -> updateAt i f (updateAt i f l) = updateAt i f l.
Proof.
  intros Hf. revert i. induction l as [|x l IH]; intros [|i]; simpl;
    try reflexivity; [now rewrite Hf|now rewrite IH].
Qed.

Lemma validIdentifiers_updateAt (defs : list Def.t) (i : nat) (ty : DefType) :
  validIdentifiers (updateAt i (fun d => Def.set_type d ty) defs)
  = validIdentifiers defs.
Proof.
  revert i. induction defs as [|x l IH]; intros [|i]; simpl; try reflexivity.
  now rewrite IH.
Qed.

(** ** The constructor *)

(** Case analysis of a monadic bind. *)
Lemma bind_inv {A B : Type} (c : M A) (k : A -> M B) (w w' : World)
      (r : Outcome B) :
  bind c k w = (w', r) ->
  (exists w1 a, c w = (w1, Return a) /\ k a w1 = (w', r))
  \/ (exists e, c w = (w', Throw e) /\ r = Throw e)
  \/ (c w = (w', OutOfFuel) /\ r = OutOfFuel).
Proof.
  unfold bind. destruct (c w) as [w1 [a|e|]]; intros H.
  - left. eauto.
  - right. left. inversion H; subst. eauto.
  - right. right. inversion H; subst. eauto.
Qed.

Ltac bind_cases H :=
  let w1 := fresh "w" in
  let a := fresh "a" in
  let e := fresh "e" in
  let H1 := fresh "Hc" in
  apply bind_inv in H as [(w1 & a & H1 & H)|[(e & H1 & H)|(H1 & H)]].

Ltac pure_step H :=
  match type of H with
  | ret _ _ = _ => unfold ret in H; inversion H; subst; clear H
  | throw _ _ = _ => unfold throw in H; inversion H; subst; clear H
  | lift _ _ = _ => unfold lift in H; inversion H; subst; clear H
  | gets _ _ = _ => unfold gets in H; inversion H; subst; clear H
  | modify _ _ = _ => unfold modify in H; inversion H; subst; clear H
  end.

Section ConstructorProperties.

Variable sha256hex : string -> string.
Variable wordWith : nat -> string.
Variable now : nat -> Z.

Abbreviation Construct := (construct sha256hex wordWith now).
Abbreviation BuildValue := (buildValue sha256hex wordWith now).

Lemma constructProperties_frame (new : Constructor) (props : list Property.t) :
  Framed new ->
  forall entries w w' r,
    constructProperties new props entries w = (w', r) ->
    registryRefined (definitions w) (definitions w').
Proof.
  intros Hnew. induction entries as [|[k v] rest IH]; intros w w' r H; simpl in H.
  - pure_step H. apply registryRefined_refl.
  - destruct (find _ props) as [propertyDef|].
    + bind_cases H.
      * apply Hnew in Hc. bind_cases H.
        -- apply IH in Hc0. pure_step H.
           eauto using registryRefined_trans.
        -- apply IH in Hc0. eauto using registryRefined_trans.
        -- apply IH in Hc0. eauto using registryRefined_trans.
      * now apply Hnew in Hc.
      * now apply Hnew in Hc.
    + pure_step H. apply registryRefined_refl.
Qed.

Lemma reconstructProperties_frame (new : Constructor) (ty : DefType) :
  Framed new ->
  forall parsed ucaValue w w' r,
    reconstructProperties new ty parsed ucaValue w = (w', r) ->
    registryRefined (definitions w) (definitions w').
Proof.
  intros Hnew. induction parsed as [|p rest IH]; intros ucaValue w w' r H;
    simpl in H.
  - pure_step H. apply registryRefined_refl.
  - destruct ty as [n|o]; [pure_step H; apply registryRefined_refl|].
    destruct (find _ (properties o)) as [property|];
      [|pure_step H; apply registryRefined_refl].
    bind_cases H; apply Hnew in Hc; [|assumption..].
    apply IH in H. eauto using registryRefined_trans.
Qed.

Lemma buildValue_frame (new : Constructor) identifier definition ty this_type
      value :
  Framed new ->
  forall w w' r,
    BuildValue new identifier definition ty this_type value w = (w', r) ->
    registryRefined (definitions w) (definitions w').
Proof.
  intros Hnew w w' r H. unfold buildValue in H.
  destruct (isAttestableValue value).
  - bind_cases H; pure_step Hc; try apply registryRefined_refl.
    destruct a as [|p [|q rest]].
    + bind_cases H;
        eapply reconstructProperties_frame in Hc; try exact Hnew;
        try pure_step H; assumption.
    + pure_step H. apply registryRefined_refl.
    + bind_cases H;
        eapply reconstructProperties_frame in Hc; try exact Hnew;
        try pure_step H; assumption.
  - destruct (isValueOfType value this_type).
    + destruct (negb (isValid value this_type definition));
        inversion H; subst; apply registryRefined_refl.
    + destruct ty as [n|o]; [pure_step H; apply registryRefined_refl|].
      destruct (properties o) as [|pr prs] eqn:Hprops;
        [pure_step H; apply registryRefined_refl|].
      bind_cases H; pure_step Hc; try apply registryRefined_refl.
      destruct (negb a); [pure_step H; apply registryRefined_refl|].
      destruct (collectionEntries value) as [entries|];
        [|pure_step H; apply registryRefined_refl].
      bind_cases H;
        eapply constructProperties_frame in Hc; try exact Hnew;
        try pure_step H; assumption.
Qed.

Lemma lookupDefinition_includes identifier version defs i d :
  lookupDefinition identifier version defs = Some (i, d) ->
  includes (validIdentifiers defs) identifier = true.
Proof.
  intros H. apply lookupDefinition_Some in H as [Hn Hid].
  apply includes_In. subst identifier. unfold validIdentifiers.
  apply in_map. eapply nth_error_In; eauto.
Qed.

(** The constructor, one call unfolded, stage by stage. *)
Lemma construct_S (fuel : nat) identifier value version (w : World) :
  Construct (S fuel) identifier value version w
  = if negb (includes (validIdentifiers (definitions w)) identifier)
    then (w, Throw UnknownIdentifier)
    else
      match lookupDefinition identifier version (definitions w) with
      | None => (w, Throw TypeError)
      | Some (i, definition) =>
          let this_version :=
            if truthyStr version then version else Def.version definition in
          match getTypeName fuel (definitions w) definition with
          | Return this_type =>
              match resolveType fuel (definitions w) definition with
              | Return ty =>
                  match BuildValue (Construct fuel) identifier
                                   (Def.set_type definition ty) ty this_type
                                   value (assignType i ty w) with
                  | (w2, Return (timestamp, this_value, salt)) =>
                      let this := Inst.Build timestamp "" identifier
                                             this_version this_type
                                             this_value salt in
                      (w2, obind (getAttestableValue this) (fun c =>
                             Return (Inst.set_id this
                                       (optToString this_version ++ ":"
                                        ++ identifier ++ ":"
                                        ++ sha256hex c)%string)))
                  | (w2, Throw e) => (w2, Throw e)
                  | (w2, OutOfFuel) => (w2, OutOfFuel)
                  end
              | Throw e => (w, Throw e)
              | OutOfFuel => (w, OutOfFuel)
              end
          | Throw e => (w, Throw e)
          | OutOfFuel => (w, OutOfFuel)
          end
      end.
Proof.
  cbn [construct]. unfold bind, gets, lift, modify, ret, throw.
  destruct (negb (includes _ identifier)); [reflexivity|].
  destruct (lookupDefinition _ _ _) as [[i definition]|]; [|reflexivity].
  destruct (getTypeName _ _ _) as [this_type|e|]; try reflexivity.
  destruct (resolveType _ _ _) as [ty|e|]; try reflexivity.
  destruct (buildValue _ _ _ _ _ _ _ _ _ _) as [w2 [[[ts v] salt]|e|]];
    try reflexivity.
  destruct (getAttestableValue _); reflexivity.
Qed.

Lemma construct_frame (fuel : nat) : Framed (Construct fuel).
Proof.
  induction fuel as [|fuel IH]; intros identifier value version w w' r H.
  - cbn [construct] in H. pure_step H. apply registryRefined_refl.
  - rewrite construct_S in H.
    destruct (negb (includes _ identifier));
      [inversion H; apply registryRefined_refl|].
    destruct (lookupDefinition _ _ _) as [[i definition]|] eqn:Hlook;
      [|inversion H; apply registryRefined_refl].
    cbv zeta in H.
    destruct (getTypeName _ _ _) as [this_type|e|];
      try (inversion H; apply registryRefined_refl).
    destruct (resolveType _ _ _) as [ty|e|] eqn:Hty;
      try (inversion H; apply registryRefined_refl).
    assert (Hstep : registryRefined (definitions w)
                                    (definitions (assignType i ty w))).
    { apply lookupDefinition_Some in Hlook as [Hn _]. simpl.
      apply (registryRefined_updateAt _ _ _ _ Hn).
      intros o Ho. eapply resolveType_schema; eauto. }
    destruct (buildValue _ _ _ _ _ _ _ _ _ _) as [w2 o] eqn:Hb.
    eapply buildValue_frame in Hb; try exact IH.
    assert (w' = w2) as ->
      by (destruct o as [[[ts v] salt]|e|]; now inversion H).
    eauto using registryRefined_trans.
Qed.

(** The array [validIdentifiers], computed when the module is loaded, is
    the array of the identifiers of the registry at any later time. *)
Lemma construct_validIdentifiers (fuel : nat) identifier value version w w' r :
  Construct fuel identifier value version w = (w', r) ->
  validIdentifiers (definitions w') = validIdentifiers (definitions w).
Proof.
  intros H. apply registryRefined_identifiers.
  exact (construct_frame fuel _ _ _ _ _ _ H).
Qed.

Lemma reconstructProperties_TypeName (new : Constructor) (n : string)
      parsed ucaValue w w' r :
  reconstructProperties new (TypeName n) parsed ucaValue w = (w', r) -> w' = w.
Proof. destruct parsed; simpl; intros H; now pure_step H. Qed.

(** With a resolved type that is a name no child is ever constructed,
    and the registry stays as the assignment left it. *)
Lemma buildValue_TypeName (new : Constructor) identifier definition
      (n : string) this_type value w w' r :
  BuildValue new identifier definition (TypeName n) this_type value w = (w', r) ->
  definitions w' = definitions w.
Proof.
  unfold buildValue. intros H.
  destruct (isAttestableValue value).
  - bind_cases H; pure_step Hc; try reflexivity.
    destruct a as [|p [|q rest]].
    + bind_cases H; apply reconstructProperties_TypeName in Hc; subst;
        try pure_step H; reflexivity.
    + now pure_step H.
    + bind_cases H; apply reconstructProperties_TypeName in Hc; subst;
        try pure_step H; reflexivity.
  - destruct (isValueOfType value this_type).
    + destruct (negb (isValid value this_type definition));
        inversion H; reflexivity.
    + now pure_step H.
Qed.

Lemma nth_error_updateAt {A : Type} (f : A -> A) (l : list A) (i : nat) (x : A) :
  nth_error l i = Some x -> nth_error (updateAt i f l) i = Some (f x).
Proof.
  revert i. induction l as [|y l IH]; intros [|i] H; simpl in *;
    try discriminate; [congruence|auto].
Qed.

Lemma registryRefined_nth (defs defs' : list Def.t) (i : nat) (d : Def.t) :
  registryRefined defs defs' ->
  nth_error defs i = Some d ->
  exists d', nth_error defs' i = Some d' /\ typeRefined d d'.
Proof.
  intros H. revert i. induction H as [|x y l l' Hxy _ IH]; intros [|i] Hn;
    simpl in *; try discriminate; [inversion Hn; subst; eauto|auto].
Qed.

(** What a returning call went through. *)
Lemma construct_Return_inv (fuel : nat) identifier value version w w' u :
  Construct fuel identifier value version w = (w', Return u) ->
  exists fuel' i d this_type ty timestamp this_value salt c,
    fuel = S fuel'
    /\ lookupDefinition identifier version (definitions w) = Some (i, d)
    /\ getTypeName fuel' (definitions w) d = Return this_type
    /\ resolveType fuel' (definitions w) d = Return ty
    /\ BuildValue (Construct fuel') identifier (Def.set_type d ty) ty
                  this_type value (assignType i ty w)
       = (w', Return (timestamp, this_value, salt))
    /\ getAttestableValue
         (Inst.Build timestamp "" identifier
                     (if truthyStr version then version else Def.version d)
                     this_type this_value salt) = Return c
    /\ u = Inst.Build timestamp
                      (optToString (if truthyStr version then version
                                    else Def.version d)
                       ++ ":" ++ identifier ++ ":" ++ sha256hex c)%string
                      identifier
                      (if truthyStr version then version else Def.version d)
                      this_type this_value salt.
Proof.
  destruct fuel as [|fuel']; [discriminate|].
  rewrite construct_S.
  destruct (negb (includes _ identifier)); [discriminate|].
  destruct (lookupDefinition _ _ _) as [[i d]|]; [|discriminate].
  cbv zeta.
  destruct (getTypeName _ _ _) as [this_type|e|] eqn:Hn; try discriminate.
  destruct (resolveType _ _ _) as [ty|e|] eqn:Hty; try discriminate.
  destruct (buildValue _ _ _ _ _ _ _ _ _ _) as [w2 [[[ts v] salt]|e|]] eqn:Hb;
    try discriminate.
  destruct (getAttestableValue _) as [c|e|] eqn:Hc; try discriminate.
  cbn [obind]. intros H. inversion H; subst.
  exists fuel', i, d, this_type, ty, ts, v, salt, c.
  repeat split; try assumption; reflexivity.
Qed.

(** A returned instance has a commitment, and its [id] is derived from
    it. *)
Lemma construct_committed (fuel : nat) identifier value version w w' u :
  Construct fuel identifier value version w = (w', Return u) ->
  exists c,
    getAttestableValue u = Return c
    /\ Inst.identifier u = identifier
    /\ Inst.id u = (optToString (Inst.version u) ++ ":" ++ identifier
                    ++ ":" ++ sha256hex c)%string.
Proof.
  intros H. apply construct_Return_inv in H
    as (fuel' & i & d & this_type & ty & ts & v & salt & c
        & _ & _ & _ & _ & _ & Hc & ->).
  exists c. repeat split. exact Hc.
Qed.

(** The three modes of [buildValue], when it returns. *)
Lemma buildValue_raw (new : Constructor) identifier definition ty this_type
      value w :
  isAttestableValue value = false ->
  isValueOfType value this_type = true ->
  BuildValue new identifier definition ty this_type value w
  = if negb (isValid value this_type definition)
    then (tickClock w, Throw InvalidValue)
    else (drawRandom (tickClock w),
          Return (Some (now (clockReads w)), primitive value,
                  Some (sha256hex (wordWith (randomDraws w))))).
Proof. unfold buildValue. intros -> ->. reflexivity. Qed.

Lemma buildValue_commitment_inv (new : Constructor) identifier definition ty
      this_type value w w' x :
  isAttestableValue value = true ->
  BuildValue new identifier definition ty this_type value w = (w', Return x) ->
  exists parsed,
    parseAttestableValue value = Return parsed
    /\ ((exists p, parsed = [p] /\ w' = w
                   /\ x = (None, Inst.Str (Parsed.value p), Some (Parsed.salt p)))
        \/ (List.length parsed <> 1%nat
            /\ exists ucaValue,
                reconstructProperties new ty parsed [] w = (w', Return ucaValue)
                /\ x = (None, Inst.Obj ucaValue, None))).
Proof.
  unfold buildValue. intros -> H.
  bind_cases H; pure_step Hc; try discriminate.
  exists a. split; [assumption|].
  destruct a as [|p [|q rest]].
  - right. split; [discriminate|].
    bind_cases H; try discriminate. pure_step H. eauto.
  - left. pure_step H. eauto.
  - right. split; [discriminate|].
    bind_cases H; try discriminate. pure_step H. eauto.
Qed.

Lemma buildValue_composite_inv (new : Constructor) identifier definition ty
      this_type value w w' x :
  isAttestableValue value = false ->
  isValueOfType value this_type = false ->
  BuildValue new identifier definition ty this_type value w = (w', Return x) ->
  exists o entries pairs,
    ty = TypeSchema o
    /\ properties o <> []
    /\ hasRequireds value (required o) true = Return true
    /\ collectionEntries value = Some entries
    /\ constructProperties new (properties o) entries w = (w', Return pairs)
    /\ x = (None, Inst.Obj (keyBy pairs), None).
Proof.
  unfold buildValue. intros -> -> H.
  destruct ty as [n|o]; [pure_step H|].
  destruct (properties o) as [|pr prs] eqn:Hprops; [pure_step H|].
  bind_cases H; pure_step Hc; try discriminate.
  destruct a; simpl in H; [|pure_step H].
  destruct (collectionEntries value) as [entries|]; [|pure_step H].
  bind_cases H; try discriminate. pure_step H.
  exists o, entries, a. rewrite Hprops. repeat split; try assumption.
  discriminate.
Qed.

(** C8: an identifier that no definition of the registry carries is
    rejected with the error '... is not defined', whatever the value and
    the version; nothing is constructed and the world is left as it
    was. *)
Theorem construct_unknown_identifier (fuel : nat) (identifier : string)
        (value : JsVal) (version : option string) (w : World) :
  ~ In identifier (map Def.identifier (definitions w)) ->
  Construct (S fuel) identifier value version w = (w, Throw UnknownIdentifier).
Proof.
  intros Hnot. rewrite construct_S.
  destruct (includes (validIdentifiers (definitions w)) identifier) eqn:Hin;
    [|reflexivity].
  apply includes_In in Hin. contradiction.
Qed.

(** C10, as the code has it: for an identifier of the registry, a
    non-empty version string that no definition of that identifier
    carries makes the lookup return [undefined]; the constructor then
    reads [type] of it and the call ends in a TypeError, with no instance
    and the world unchanged. *)
Theorem construct_unmatched_version (fuel : nat) (identifier : string)
        (value : JsVal) (v : string) (w : World) :
  In identifier (map Def.identifier (definitions w)) ->
  v <> "" ->
  (forall d, In d (definitions w) ->
             Def.identifier d = identifier -> Def.version d <> Some v) ->
  lookupDefinition identifier (Some v) (definitions w) = None
  /\ Construct (S fuel) identifier value (Some v) w = (w, Throw TypeError).
Proof.
  intros Hin Hv Hnone.
  assert (Hlook : lookupDefinition identifier (Some v) (definitions w) = None).
  { unfold lookupDefinition. simpl.
    destruct (String.eqb_spec v ""); [contradiction|]. simpl.
    apply findIndexed_None. intros d Hd. unfold matchesIdentifierVersion.
    destruct (String.eqb_spec (Def.identifier d) identifier) as [Hid|];
      [|reflexivity].
    specialize (Hnone d Hd Hid). simpl.
    destruct (Def.version d) as [v'|]; [|reflexivity].
    destruct (String.eqb_spec v' v); [congruence|reflexivity]. }
  split; [exact Hlook|].
  rewrite construct_S, Hlook.
  apply includes_In in Hin. unfold validIdentifiers. simpl.
  unfold validIdentifiers in Hin. rewrite Hin. reflexivity.
Qed.

(** After a call that got as far as resolving the type of the definition
    it looked up, this record holds the resolved type, however the call
    ended and whatever its children wrote. *)
Lemma construct_assigns_resolved (fuel : nat) identifier value version w w' r
      (i : nat) (d : Def.t) (ty : DefType) :
  Construct (S fuel) identifier value version w = (w', r) ->
  lookupDefinition identifier version (definitions w) = Some (i, d) ->
  resolveType fuel (definitions w) d = Return ty ->
  nth_error (definitions w') i = Some (Def.set_type d ty).
Proof.
  intros H Hlook Hty.
  rewrite construct_S, Hlook, (lookupDefinition_includes _ _ _ _ _ Hlook) in H.
  cbv zeta in H. cbn [negb] in H. rewrite Hty in H.
  apply resolveType_typeName in Hty as Hname.
  destruct Hname as (typeName & Hname & Hshape). rewrite Hname in H.
  apply lookupDefinition_Some in Hlook as [Hn _].
  destruct (buildValue _ _ _ _ _ _ _ _ _ _) as [w2 o] eqn:Hb.
  assert (w' = w2) as ->
    by (destruct o as [[[ts v] salt]|e|]; now inversion H).
  pose proof (nth_error_updateAt (fun d => Def.set_type d ty) _ _ _ Hn) as Hn1.
  destruct ty as [n|o'].
  - apply buildValue_TypeName in Hb. rewrite Hb. exact Hn1.
  - eapply buildValue_frame in Hb; [|apply construct_frame].
    destruct (registryRefined_nth _ _ _ _ Hb Hn1) as (d' & Hn' & Heq & Hsch).
    rewrite Hn', Heq. specialize (Hsch o' eq_refl). rewrite Hsch.
    destruct d; reflexivity.
Qed.

(** C2, as the code has it: a construction call, whatever its inputs and
    however it ends, keeps the records of the registry in place and
    changes no field of any record other than [type]; a [type] that is
    an inline object schema is not changed either.  What the call does
    write is the [type] of the definition it looks up, which receives
    that definition's resolved concrete type. *)
Theorem construct_refines_registry (fuel : nat) (identifier : string)
        (value : JsVal) (version : option string) (w w' : World)
        (r : Outcome Inst.t) :
  Construct fuel identifier value version w = (w', r) ->
  List.length (definitions w') = List.length (definitions w)
  /\ (forall i d,
         nth_error (definitions w) i = Some d ->
         exists d',
           nth_error (definitions w') i = Some d'
           /\ Def.identifier d' = Def.identifier d
           /\ Def.version d' = Def.version d
           /\ Def.pattern d' = Def.pattern d
           /\ Def.minimumLength d' = Def.minimumLength d
           /\ Def.maximumLength d' = Def.maximumLength d
           /\ Def.minimum d' = Def.minimum d
           /\ Def.maximum d' = Def.maximum d
           /\ Def.exclusiveMinimum d' = Def.exclusiveMinimum d
           /\ Def.exclusiveMaximum d' = Def.exclusiveMaximum d
           /\ Def.credentialItem d' = Def.credentialItem d
           /\ Def.attestable d' = Def.attestable d
           /\ (forall o, Def.type d = TypeSchema o -> Def.type d' = TypeSchema o))
  /\ (forall fuel' i d ty,
         fuel = S fuel' ->
         lookupDefinition identifier version (definitions w) = Some (i, d) ->
         resolveType fuel' (definitions w) d = Return ty ->
         nth_error (definitions w') i = Some (Def.set_type d ty)).
Proof.
  intros H. pose proof (construct_frame fuel _ _ _ _ _ _ H) as Hframe.
  split; [symmetry; eapply Forall2_length; exact Hframe|]. split.
  - intros i d Hn.
    destruct (registryRefined_nth _ _ _ _ Hframe Hn) as (d' & Hn' & Heq & Hsch).
    exists d'. split; [exact Hn'|].
    rewrite Heq. destruct d; simpl. repeat split. exact Hsch.
  - intros fuel' i d ty -> Hlook Hty.
    eapply construct_assigns_resolved; eauto.
Qed.

Lemma isValueOfType_VObj fields type : isValueOfType (VObj fields) type = false.
Proof.
  unfold isValueOfType.
  destruct (String.eqb type "String"), (String.eqb type "Number"),
    (String.eqb type "Boolean"); reflexivity.
Qed.

Lemma constructProperties_committed (fuel : nat) props entries w w' pairs :
  constructProperties (Construct fuel) props entries w = (w', Return pairs) ->
  keys pairs = keys entries
  /\ Forall (fun kv => exists c, getAttestableValue (snd kv) = Return c) pairs.
Proof.
  revert w w' pairs.
  induction entries as [|[k v] rest IH]; intros w w' pairs H; simpl in H.
  - pure_step H. split; [reflexivity|constructor].
  - destruct (find _ props) as [propertyDef|]; [|pure_step H].
    bind_cases H; try discriminate.
    apply construct_committed in Hc as (c & Hc & _).
    bind_cases H; try discriminate.
    apply IH in Hc0 as [Hk Hall]. pure_step H.
    split; [simpl; now rewrite Hk|].
    constructor; [exists c; exact Hc|exact Hall].
Qed.

(** C9, as the code has it: an instance built from a raw string, number
    or boolean carries a salt, the digest of a fresh random word; an
    instance rebuilt from a commitment that parses to exactly one
    component carries the salt of that component, and no randomness is
    drawn; an instance built from an object of properties, or rebuilt
    from a commitment that parses to any other number of components,
    has no salt of its own. *)
Theorem construct_salt (fuel : nat) (identifier : string) (value : JsVal)
        (version : option string) (w w' : World) (u : Inst.t) :
  Construct fuel identifier value version w = (w', Return u) ->
  (isAttestableValue value = false ->
   isValueOfType value (Inst.type u) = true ->
   Inst.salt u = Some (sha256hex (wordWith (randomDraws w)))
   /\ randomDraws w' = S (randomDraws w))
  /\ (isAttestableValue value = true ->
      forall p, parseAttestableValue value = Return [p] ->
                Inst.salt u = Some (Parsed.salt p)
                /\ randomDraws w' = randomDraws w)
  /\ (isAttestableValue value = true ->
      forall parsed, parseAttestableValue value = Return parsed ->
                     List.length parsed <> 1%nat ->
                     Inst.salt u = None)
  /\ (isAttestableValue value = false ->
      isValueOfType value (Inst.type u) = false ->
      Inst.salt u = None).
Proof.
  intros H. apply construct_Return_inv in H
    as (fuel' & i & d & this_type & ty & ts & v & salt & c
        & _ & _ & _ & _ & Hb & _ & ->).
  cbn [Inst.salt Inst.type]. repeat split.
  - rewrite buildValue_raw in Hb by assumption.
    destruct (negb (isValid _ _ _)); inversion Hb; reflexivity.
  - rewrite buildValue_raw in Hb by assumption.
    destruct (negb (isValid _ _ _)); inversion Hb; reflexivity.
  - apply buildValue_commitment_inv in Hb as (parsed & Hp & Hcase);
      [|assumption].
    rewrite Hp in H0. inversion H0; subst.
    destruct Hcase as [(q & Hq & _ & Hx)|[Hlen _]];
      [|exfalso; now apply Hlen].
    inversion Hq; subst. now inversion Hx.
  - apply buildValue_commitment_inv in Hb as (parsed & Hp & Hcase);
      [|assumption].
    rewrite Hp in H0. inversion H0; subst.
    destruct Hcase as [(q & Hq & -> & Hx)|[Hlen _]];
      [|exfalso; now apply Hlen].
    reflexivity.
  - intros Hatt parsed Hparsed Hlen.
    apply buildValue_commitment_inv in Hb as (parsed' & Hp & Hcase);
      [|assumption].
    rewrite Hp in Hparsed. inversion Hparsed; subst.
    destruct Hcase as [(q & -> & _)|(_ & ucaValue & _ & Hx)];
      [exfalso; now apply Hlen|].
    now inversion Hx.
  - intros Hatt Htype.
    apply buildValue_composite_inv in Hb
      as (o & entries & pairs & _ & _ & _ & _ & _ & Hx); try assumption.
    now inversion Hx.
Qed.

(** An instance built from an object of properties: its children are
    the constructed properties, in the order of the input, and each has
    a commitment. *)
Lemma construct_composite_shape (fuel : nat) identifier fields version w w' u :
  Construct fuel identifier (VObj fields) version w = (w', Return u) ->
  isAttestableValue (VObj fields) = false ->
  exists pairs,
    Inst.type u = "Object"
    /\ Inst.value u = Inst.Obj (keyBy pairs)
    /\ keys pairs = keys fields
    /\ Forall (fun kv => exists c, getAttestableValue (snd kv) = Return c) pairs.
Proof.
  intros H Hatt. apply construct_Return_inv in H
    as (fuel' & i & d & T & ty & ts & v & salt & c
        & -> & _ & Hn & Hty & Hb & _ & ->).
  apply buildValue_composite_inv in Hb
    as (o & entries & pairs & -> & _ & _ & Hentries & Hpairs & Hx);
    [|exact Hatt|apply isValueOfType_VObj].
  inversion Hentries; subst entries. inversion Hx; subst.
  destruct (resolveType_typeName _ _ _ _ Hty) as (T' & Hn' & ->).
  rewrite Hn in Hn'. inversion Hn'; subst T.
  destruct (constructProperties_committed _ _ _ _ _ _ Hpairs) as [Hk Hc].
  exists pairs. repeat split; assumption.
Qed.


Lemma resolveType_of_leaf (fuel : nat) (defs : list Def.t) (d : Def.t) (T : string) :
  getTypeName fuel defs d = Return T ->
  isLeafType T = true ->
  resolveType fuel defs d = Return (TypeName T).
Proof.
  intros Hn Hleaf. destruct fuel as [|fuel]; [discriminate|].
  cbn [resolveType]. rewrite Hn. cbn [obind].
  destruct (String.eqb_spec T "Object") as [->|_]; [discriminate|reflexivity].
Qed.





Lemma version_again (version dv : option string) :
  (if truthyStr (if truthyStr version then version else dv)
   then (if truthyStr version then version else dv)
   else dv)
  = (if truthyStr version then version else dv).
Proof.
  destruct (truthyStr version) eqn:Hv; [now rewrite Hv|].
  destruct (truthyStr dv); reflexivity.
Qed.

(** Rebuilding a leaf from its own commitment, in the world its
    construction left behind. *)
Lemma construct_from_leaf_commitment (fuel' : nat) identifier version w i d
      (T salt rest : string) (clock draws : nat) :
  lookupDefinition identifier version (definitions w) = Some (i, d) ->
  getTypeName fuel' (definitions w) d = Return T ->
  isLeafType T = true ->
  allWord (propertyNameOf identifier) = true ->
  allWord salt = true ->
  contains "|" rest = false ->
  let this_version := if truthyStr version then version else Def.version d in
  let c := ("urn:" ++ propertyNameOf identifier ++ ":" ++ salt ++ ":"
            ++ rest)%string in
  let w' := {| definitions := updateAt i (fun d => Def.set_type d (TypeName T))
                                       (definitions w);
               clockReads := clock;
               randomDraws := draws |} in
  Construct (S fuel') identifier (VObj [("attestableValue", VStr c)])
            this_version w'
  = (w', Return (Inst.Build None
                            (optToString this_version ++ ":" ++ identifier
                             ++ ":"
                             ++ sha256hex
                                  ("urn:" ++ propertyNameOf identifier ++ ":"
                                   ++ salt ++ ":"
                                   ++ renderedValue T (Inst.Str rest)))%string
                            identifier this_version T (Inst.Str rest)
                            (Some salt))).
Proof.
  intros Hlook Hn Hleaf Hpn Hsalt Hrest this_version c w'.
  assert (Hnot : includes (validIdentifiers (definitions w)) T = false).
  { destruct (getTypeName_not_identifier _ _ _ _ Hn) as [->|H];
      [discriminate|exact H]. }
  assert (HT : String.eqb T "Object" = false).
  { destruct (String.eqb_spec T "Object") as [->|]; [discriminate|reflexivity]. }
  destruct fuel' as [|f]; [discriminate|].
  rewrite construct_S. subst w'. cbn [definitions].
  rewrite validIdentifiers_updateAt,
    (lookupDefinition_includes _ _ _ _ _ Hlook).
  cbn [negb]. subst this_version.
  rewrite (lookupDefinition_again _ _ _ _ _ (TypeName T) Hlook).
  cbv zeta.
  assert (Hn2 : getTypeName (S f)
                  (updateAt i (fun d => Def.set_type d (TypeName T))
                            (definitions w))
                  (Def.set_type d (TypeName T)) = Return T).
  { cbn [getTypeName Def.type Def.set_type].
    now rewrite validIdentifiers_updateAt, Hnot. }
  assert (Hty2 : resolveType (S f)
                   (updateAt i (fun d => Def.set_type d (TypeName T))
                             (definitions w))
                   (Def.set_type d (TypeName T)) = Return (TypeName T)).
  { cbn [resolveType]. rewrite Hn2. cbn [obind]. now rewrite HT. }
  rewrite Hn2, Hty2.
  assert (Hw : assignType i (TypeName T)
                 {| definitions := updateAt i (fun d => Def.set_type d (TypeName T))
                                            (definitions w);
                    clockReads := clock;
                    randomDraws := draws |}
               = {| definitions := updateAt i (fun d => Def.set_type d (TypeName T))
                                            (definitions w);
                    clockReads := clock;
                    randomDraws := draws |}).
  { unfold assignType. cbn [definitions clockReads randomDraws].
    now rewrite updateAt_again by reflexivity. }
  rewrite Hw.
  assert (Hbuild : forall definition w0,
             BuildValue (Construct (S f)) identifier definition (TypeName T) T
                        (VObj [("attestableValue", VStr c)]) w0
             = (w0, Return (None, Inst.Str rest, Some salt))).
  { intros definition w0. unfold buildValue.
    assert (Hparse : parseAttestableValue (VObj [("attestableValue", VStr c)])
                     = Return [Parsed.Build (propertyNameOf identifier) salt
                                            rest c])
      by (apply (parseString_leaf _ _ _ Hpn Hsalt Hrest)).
    rewrite Hparse. subst c. reflexivity. }
  rewrite Hbuild.
  rewrite getAttestableValue_leaf by assumption.
  rewrite version_again. reflexivity.
Qed.

(** C1, as the code has it.  Take a raw-value construction that returns
    [A], of a definition whose property name is made of word characters,
    with a digest in word characters (it is hexadecimal) and, when the
    value is a string, no pipe in it.  Constructing again from the
    commitment of [A], with the identifier and the version of [A],
    returns an instance [B] with the salt, the commitment and the id of
    [A] and no timestamp, whereas [A] has one.  The value of [B] is the
    string the commitment carries: the value of [A] itself when [A] is a
    String, its zero-padded decimal for a Number, [true] or [false] as a
    word for a Boolean. *)
Theorem commitment_roundtrip (fuel : nat) (identifier : string) (value : JsVal)
        (version : option string) (w w' : World) (A : Inst.t) :
  (forall x, allWord (sha256hex x) = true) ->
  allWord (propertyNameOf identifier) = true ->
  Construct fuel identifier value version w = (w', Return A) ->
  isValueOfType value (Inst.type A) = true ->
  match value with VStr s => contains "|" s = false | _ => True end ->
  exists c B,
    getAttestableValue A = Return c
    /\ Construct fuel identifier (VObj [("attestableValue", VStr c)])
                 (Inst.version A) w' = (w', Return B)
    /\ Inst.value B = Inst.Str (renderedValue (Inst.type A) (Inst.value A))
    /\ (Inst.type A = "String" -> Inst.value B = Inst.value A)
    /\ Inst.salt B = Inst.salt A
    /\ getAttestableValue B = Return c
    /\ Inst.id B = Inst.id A
    /\ Inst.timestamp B = None
    /\ Inst.timestamp A <> None.
Proof.
  intros Hhex Hpn H Htype Hpipe.
  apply construct_Return_inv in H
    as (fuel' & i & d & T & ty & ts & v & salt & c
        & -> & Hlook & Hn & Hty & Hb & Hc & ->).
  cbn [Inst.type Inst.value Inst.salt Inst.id Inst.timestamp Inst.version] in *.
  destruct (isValueOfType_leaf _ _ Htype) as (Hleaf & Hatt & Hcase).
  rewrite buildValue_raw in Hb by assumption.
  destruct (negb (isValid _ _ _)); [discriminate|].
  inversion Hb; subst w' ts v salt; clear Hb.
  destruct (resolveType_typeName _ _ _ _ Hty) as (T' & Hn' & Hshape).
  rewrite Hn in Hn'. inversion Hn'; subst T'; clear Hn'.
  assert (ty = TypeName T) as ->.
  { destruct ty as [n|o]; [now destruct Hshape as [-> _]|].
    subst T. discriminate. }
  rewrite getAttestableValue_leaf in Hc by assumption.
  inversion Hc; subst c; clear Hc. cbn [optToString].
  pose proof (renderedValue_no_pipe _ _ Htype Hpipe) as Hrest.
  pose proof (construct_from_leaf_commitment
                fuel' identifier version w i d T
                (sha256hex (wordWith (randomDraws (tickClock (assignType i (TypeName T) w)))))
                (renderedValue T (primitive value))
                (clockReads (drawRandom (tickClock (assignType i (TypeName T) w))))
                (randomDraws (drawRandom (tickClock (assignType i (TypeName T) w))))
                Hlook Hn Hleaf Hpn (Hhex _) Hrest) as HB.
  cbv zeta in HB. rewrite renderedValue_again in HB.
  eexists. eexists.
  split; [apply getAttestableValue_leaf; exact Hleaf|].
  split; [exact HB|].
  cbn [Inst.type Inst.value Inst.salt Inst.id Inst.timestamp Inst.version].
  repeat split.
  - intros ->. destruct Hcase as [[_ [s ->]]|[[E _]|[E _]]];
      [reflexivity|discriminate E..].
  - rewrite getAttestableValue_leaf by assumption.
    now rewrite renderedValue_again.
  - discriminate.
Qed.


End ConstructorProperties.

(** ** The sample registry at work *)

Lemma sampleDigest_word (x : string) : allWord (sampleDigest x) = true.
Proof. reflexivity. Qed.

(** C1 as stated fails on a string with a pipe, on a number and on a
    boolean: the value that comes back from the commitment is the text
    before the pipe, the zero-padded decimal string instead of the number,
    and the word [true] instead of the boolean.  In the first case the
    commitment changes too. *)
Lemma roundtrip_loses_value :
  (exists wA A wB B,
      sampleConstruct 3 "ns:Name:first" (VStr "a|b") None sampleWorld
      = (wA, Return A)
      /\ isValueOfType (VStr "a|b") (Inst.type A) = true
      /\ getAttestableValue A = Return "urn:first:ab12:a|b"
      /\ sampleConstruct 3 "ns:Name:first" (commitmentOf "urn:first:ab12:a|b")
                         (Inst.version A) wA
         = (wB, Return B)
      /\ Inst.value A = Inst.Str "a|b"
      /\ Inst.value B = Inst.Str "a"
      /\ Inst.value B <> Inst.value A
      /\ getAttestableValue B <> getAttestableValue A)
  /\ (exists wA A wB B,
         sampleConstruct 3 "ns:Person:age" (VNum 42) None sampleWorld
         = (wA, Return A)
         /\ getAttestableValue A = Return "urn:age:ab12:00000042"
         /\ sampleConstruct 3 "ns:Person:age"
                            (commitmentOf "urn:age:ab12:00000042")
                            (Inst.version A) wA
            = (wB, Return B)
         /\ Inst.value A = Inst.Num 42
         /\ Inst.value B = Inst.Str "00000042"
         /\ Inst.value B <> Inst.value A)
  /\ (exists wA A wB B,
         sampleConstruct 3 "ns:Person:adult" (VBool true) None sampleWorld
         = (wA, Return A)
         /\ getAttestableValue A = Return "urn:adult:ab12:true"
         /\ sampleConstruct 3 "ns:Person:adult"
                            (commitmentOf "urn:adult:ab12:true")
                            (Inst.version A) wA
            = (wB, Return B)
         /\ Inst.value A = Inst.Bool true
         /\ Inst.value B = Inst.Str "true"
         /\ Inst.value B <> Inst.value A).
Proof.
  split; [|split].
  - do 4 eexists.
    split; [vm_compute; reflexivity|].
    split; [reflexivity|].
    split; [reflexivity|].
    split; [vm_compute; reflexivity|].
    split; [reflexivity|].
    split; [reflexivity|].
    split; vm_compute; discriminate.
  - do 4 eexists.
    split; [vm_compute; reflexivity|].
    split; [reflexivity|].
    split; [vm_compute; reflexivity|].
    split; [reflexivity|].
    split; [reflexivity|].
    vm_compute. discriminate.
  - do 4 eexists.
    split; [vm_compute; reflexivity|].
    split; [reflexivity|].
    split; [vm_compute; reflexivity|].
    split; [reflexivity|].
    split; [reflexivity|].
    vm_compute. discriminate.
Qed.

Lemma commitment_roundtrip_witness :
  exists wA A c B,
    sampleConstruct 3 "ns:Name:first" (VStr "Ann") None sampleWorld
    = (wA, Return A)
    /\ getAttestableValue A = Return c
    /\ sampleConstruct 3 "ns:Name:first" (commitmentOf c) (Inst.version A) wA
       = (wA, Return B)
    /\ Inst.value B = Inst.value A
    /\ Inst.salt B = Inst.salt A
    /\ getAttestableValue B = Return c
    /\ Inst.id B = Inst.id A
    /\ Inst.timestamp B = None
    /\ Inst.timestamp A <> None.
Proof.
  destruct (commitment_roundtrip
              sampleDigest sampleWord sampleClock 3 "ns:Name:first"
              (VStr "Ann") None sampleWorld
              (fst (sampleConstruct 3 "ns:Name:first" (VStr "Ann") None sampleWorld))
              (Inst.Build (Some 1000) "1:ns:Name:first:ab12" "ns:Name:first"
                          (Some "1") "String" (Inst.Str "Ann") (Some "ab12"))
              sampleDigest_word eq_refl eq_refl eq_refl eq_refl)
    as (c & B & Hc & HB & Hv & Hs & Hsalt & HcB & Hid & HtB & HtA).
  exists (fst (sampleConstruct 3 "ns:Name:first" (VStr "Ann") None sampleWorld)),
    (Inst.Build (Some 1000) "1:ns:Name:first:ab12" "ns:Name:first"
                (Some "1") "String" (Inst.Str "Ann") (Some "ab12")),
    c, B.
  split; [reflexivity|].
  split; [exact Hc|].
  split; [exact HB|].
  split; [exact (Hs eq_refl)|].
  repeat split; assumption.
Defined.

(** C2 as stated fails: constructing a person rewrites the [type] of the
    definition [ns:Identity:person], a reference to [ns:Type:Person]
    before the call and the object schema itself after it. *)
Lemma construct_rewrites_type :
  exists w' u,
    sampleConstruct 3 "ns:Identity:person" (VObj (annAged 42)) None sampleWorld
    = (w', Return u)
    /\ option_map Def.type (nth_error (definitions sampleWorld) 0)
       = Some (TypeName "ns:Type:Person")
    /\ option_map Def.type (nth_error (definitions w') 0)
       = Some (TypeSchema personSchema)
    /\ definitions w' <> definitions sampleWorld.
Proof.
  do 2 eexists.
  split; [vm_compute; reflexivity|].
  split; [reflexivity|].
  split; [reflexivity|].
  vm_compute. discriminate.
Qed.

Lemma construct_refines_registry_witness :
  exists w' r d',
    sampleConstruct 3 "ns:Identity:person" (VObj (annAged 42)) None sampleWorld
    = (w', r)
    /\ List.length (definitions w') = List.length (definitions sampleWorld)
    /\ nth_error (definitions w') 4 = Some d'
    /\ Def.minimum d' = Some 0
    /\ Def.maximum d' = Some 150.
Proof.
  destruct (construct_refines_registry
              sampleDigest sampleWord sampleClock 3 "ns:Identity:person"
              (VObj (annAged 42)) None sampleWorld
              (fst (sampleConstruct 3 "ns:Identity:person" (VObj (annAged 42))
                                    None sampleWorld))
              (snd (sampleConstruct 3 "ns:Identity:person" (VObj (annAged 42))
                                    None sampleWorld))
              eq_refl)
    as (Hlen & Hfields & _).
  destruct (Hfields 4%nat ageDefinition eq_refl)
    as (d' & Hn & _ & _ & _ & _ & _ & Hmin & Hmax & _).
  exists (fst (sampleConstruct 3 "ns:Identity:person" (VObj (annAged 42))
                               None sampleWorld)),
    (snd (sampleConstruct 3 "ns:Identity:person" (VObj (annAged 42))
                          None sampleWorld)),
    d'.
  split; [reflexivity|].
  split; [exact Hlen|].
  split; [exact Hn|].
  split; [exact Hmin|exact Hmax].
Defined.




Lemma construct_unknown_identifier_witness :
  sampleConstruct 1 "nonexistent:id" (VStr "anything") None sampleWorld
  = (sampleWorld, Throw UnknownIdentifier).
Proof.
  apply (construct_unknown_identifier sampleDigest sampleWord sampleClock).
  simpl. intuition discriminate.
Defined.

(** C9 as stated fails: a composite instance has no salt, whether it is
    built from an object of properties or rebuilt from a commitment. *)
Lemma composite_without_salt :
  (exists w' u,
      sampleConstruct 3 "ns:Identity:person" (VObj (annAged 42)) None sampleWorld
      = (w', Return u)
      /\ Inst.salt u = None)
  /\ (exists w' u,
         sampleConstruct 3 "ns:Identity:person"
                         (commitmentOf "urn:age:ab12:00000042|urn:first:ab12:Ann|")
                         None sampleWorld
         = (w', Return u)
         /\ Inst.salt u = None).
Proof.
  split; do 2 eexists; (split; [vm_compute; reflexivity|reflexivity]).
Qed.

Lemma construct_salt_witness :
  exists w' u,
    sampleConstruct 3 "ns:Person:age" (commitmentOf "urn:age:cafe:00000042")
                    None sampleWorld
    = (w', Return u)
    /\ Inst.salt u = Some "cafe"
    /\ randomDraws w' = randomDraws sampleWorld.
Proof.
  eexists _, _. split; [vm_compute; reflexivity|].
  refine (proj1 (proj2 (construct_salt
                          sampleDigest sampleWord sampleClock 3 "ns:Person:age"
                          (commitmentOf "urn:age:cafe:00000042") None
                          sampleWorld _ _ eq_refl))
                eq_refl
                (Parsed.Build "age" "cafe" "00000042" "urn:age:cafe:00000042")
                eq_refl).
Defined.

(** C10 as stated fails on the empty version string: it is a falsy value,
    the definition is looked up by identifier alone, and the call returns
    an instance although no definition carries the empty version. *)
Lemma empty_version_is_no_version :
  (forall d, In d (definitions sampleWorld) -> Def.version d <> Some "")
  /\ exists w' u,
      sampleConstruct 3 "ns:Person:age" (VNum 42) (Some "") sampleWorld
      = (w', Return u)
      /\ Inst.version u = Some "1".
Proof.
  split.
  - simpl. intros d H. repeat destruct H as [<-|H]; try discriminate.
    contradiction.
  - do 2 eexists. split; [vm_compute; reflexivity|reflexivity].
Qed.

Lemma construct_unmatched_version_witness :
  sampleConstruct 1 "ns:Person:age" (VNum 42) (Some "2") sampleWorld
  = (sampleWorld, Throw TypeError).
Proof.
  apply (construct_unmatched_version sampleDigest sampleWord sampleClock).
  - simpl. auto 10.
  - discriminate.
  - simpl. intros d H. repeat destruct H as [<-|H]; try discriminate.
    contradiction.
Defined.

(** * Further properties of the validator, the resolver and the codec *)

(** ** String lengths *)

(** X1: the length tests of the String branch.  When [maximumLength] is
    set (and not zero), [isValid] accepts a string exactly when the pattern,
    if any, matches and the length of the string is equal to
    [minimumLength]: the test guarded by [maximumLength] bounds the length
    by [minimumLength] from above, so a definition with a [maximumLength]
    and no [minimumLength] accepts no string at all.  When [maximumLength]
    is absent or zero, no upper bound is tested. *)
Theorem isValid_String_lengths (s : string) (d : Def.t) :
  (truthyNum (Def.maximumLength d) = true ->
   (isValid (VStr s) "String" d = true
    <-> (match Def.pattern d with Some re => re s | None => true end) = true
        /\ Def.minimumLength d = Some (strlen s)))
  /\ (truthyNum (Def.maximumLength d) = true ->
      Def.minimumLength d = None -> isValid (VStr s) "String" d = false)
  /\ (truthyNum (Def.maximumLength d) = false ->
      isValid (VStr s) "String" d
      = (match Def.pattern d with Some re => re s | None => true end)
        && (if truthyNum (Def.minimumLength d)
            then js_ge (strlen s) (Def.minimumLength d) else true)).
Proof.
  rewrite isValid_String_eq.
  split; [|split]; intros Hmax; rewrite Hmax.
  - destruct (match Def.pattern d with Some re => re s | None => true end);
      destruct (Def.minimumLength d) as [m|]; simpl;
      try (split; [discriminate|intros [Ha Hb]; discriminate]).
    destruct (Z.eqb_spec m 0) as [->|Hm]; simpl.
    + destruct (Z.leb_spec (strlen s) 0) as [Hle|Hgt]; split; intros Hv;
        try discriminate; try reflexivity.
      * split; [reflexivity|]. f_equal. unfold strlen in *. lia.
      * destruct Hv as [_ Hv]. inversion Hv. lia.
    + destruct (Z.leb_spec m (strlen s)) as [Hle|Hgt],
               (Z.leb_spec (strlen s) m) as [Hle'|Hgt'];
        simpl; split; intros Hv; try discriminate; try reflexivity;
        try (split; [reflexivity|f_equal; lia]);
        destruct Hv as [_ Hv]; inversion Hv; lia.
  - intros ->. simpl. now rewrite andb_false_r.
  - now rewrite andb_true_r.
Qed.

Lemma isValid_String_lengths_witness :
  isValid (VStr "a") "String" nickDefinition = true
  /\ (isValid (VStr "abc") "String" nickDefinition = true
      <-> true = true /\ Some 1 = Some (strlen "abc")).
Proof.
  pose proof (isValid_String_lengths "a" nickDefinition) as [H1 _].
  pose proof (isValid_String_lengths "abc" nickDefinition) as [H3 _].
  split.
  - apply (H1 eq_refl). split; reflexivity.
  - exact (H3 eq_refl).
Defined.

(** ** Type resolution *)

Lemma find_includes (defs : list Def.t) (n : string) (d : Def.t) :
  find (matchesIdentifier n) defs = Some d ->
  includes (validIdentifiers defs) n = true.
Proof.
  intros H. apply find_some in H as [Hin Hp].
  apply includes_In. unfold matchesIdentifier in Hp.
  apply String.eqb_eq in Hp. subst n.
  unfold validIdentifiers. now apply in_map.
Qed.

Lemma find_not_included (defs : list Def.t) (n : string) :
  includes (validIdentifiers defs) n = false ->
  find (matchesIdentifier n) defs = None.
Proof.
  intros H. destruct (find (matchesIdentifier n) defs) eqn:E; [|reflexivity].
  apply find_includes in E. congruence.
Qed.

(** The schema [resolveType] answers is written inline in the definition
    itself or in a definition of the registry. *)
Lemma resolveType_schema_origin (fuel : nat) (defs : list Def.t) (d : Def.t)
      (o : ObjectSchema) :
  resolveType fuel defs d = Return (TypeSchema o) ->
  exists d', (d' = d \/ In d' defs) /\ Def.type d' = TypeSchema o.
Proof.
  revert d. induction fuel as [|fuel IH]; intros d H; [discriminate|].
  cbn [resolveType] in H.
  destruct (getTypeName (S fuel) defs d) as [T| |]; try discriminate.
  cbn [obind] in H.
  destruct (negb (T =? "Object")%string); [discriminate|].
  destruct (Def.type d) as [n|o'] eqn:Ety.
  - destruct (find (matchesIdentifier n) defs) as [e|] eqn:Ef;
      [|discriminate].
    cbn [deref] in H. apply IH in H as (d' & [->|Hin] & Hd').
    + exists e. split; [right; now apply find_some in Ef|assumption].
    + exists d'. auto.
  - inversion H; subst. exists d. auto.
Qed.

(** X2: what [resolveType] returns is fully resolved.  A returned name is
    the answer of [getTypeName], is not ['Object'] and is not the
    identifier of a definition, so resolving never stops at an alias; a
    returned schema goes with the type name ['Object'] and is the inline
    schema of the definition itself or of a definition of the registry. *)
Theorem resolveType_fully_resolved (fuel : nat) (defs : list Def.t)
        (d : Def.t) (ty : DefType) :
  resolveType fuel defs d = Return ty ->
  match ty with
  | TypeName n =>
      getTypeName fuel defs d = Return n
      /\ n <> "Object"
      /\ includes (validIdentifiers defs) n = false
  | TypeSchema o =>
      getTypeName fuel defs d = Return "Object"
      /\ exists d', (d' = d \/ In d' defs) /\ Def.type d' = TypeSchema o
  end.
Proof.
  intros H.
  destruct (resolveType_typeName _ _ _ _ H) as (T & HT & Hty).
  destruct ty as [n|o].
  - destruct Hty as [-> Hn]. repeat split; try assumption.
    destruct (getTypeName_not_identifier _ _ _ _ HT); [contradiction|assumption].
  - subst T. split; [assumption|].
    exact (resolveType_schema_origin _ _ _ _ H).
Qed.

Lemma resolveType_fully_resolved_witness :
  getTypeName 3 sampleDefinitions
              (plainDefinition "ns:Identity:person" (TypeName "ns:Type:Person"))
  = Return "Object"
  /\ exists d', (d' = plainDefinition "ns:Identity:person"
                                      (TypeName "ns:Type:Person")
                 \/ In d' sampleDefinitions)
                /\ Def.type d' = TypeSchema personSchema.
Proof.
  exact (resolveType_fully_resolved
           3 sampleDefinitions
           (plainDefinition "ns:Identity:person" (TypeName "ns:Type:Person"))
           (TypeSchema personSchema) eq_refl).
Defined.

(** ** Commitment Codec: composites *)

Lemma splitPipes_segment (c rest : string) :
  contains "|" c = false ->
  splitPipes (c ++ "|" ++ rest) = c :: splitPipes rest.
Proof.
  change ("|" ++ rest)%string with (String "|" rest).
  induction c as [|a c IH]; simpl; intros H; [reflexivity|].
  apply orb_false_iff in H as [Ha Hc].
  rewrite Ha, (IH Hc). reflexivity.
Qed.

Lemma urnOf_no_pipe (part : string * string * string) :
  allWord (fst (fst part)) = true ->
  allWord (snd (fst part)) = true ->
  contains "|" (snd part) = false ->
  contains "|" (urnOf part) = false.
Proof.
  destruct part as [[n s] v]. simpl fst. simpl snd. intros Hn Hs Hv.
  unfold urnOf.
  rewrite !contains_append, (allWord_no_pipe _ Hn), (allWord_no_pipe _ Hs), Hv.
  reflexivity.
Qed.

Lemma execUrn_urnOf (part : string * string * string) :
  allWord (fst (fst part)) = true ->
  allWord (snd (fst part)) = true ->
  execUrn (urnOf part) = Some part.
Proof.
  destruct part as [[n s] v]. simpl fst. simpl snd. intros Hn Hs.
  apply execUrn_iff. auto.
Qed.

Lemma splitPipes_pipeJoin (parts : list (string * string * string)) :
  Forall wellFormedPart parts ->
  splitPipes (pipeJoin (map urnOf parts)) = (map urnOf parts ++ [""])%list.
Proof.
  induction 1 as [|part parts (Hn & Hs & Hv) _ IH]; [reflexivity|].
  cbn [map pipeJoin app].
  rewrite splitPipes_segment by now apply urnOf_no_pipe.
  now rewrite IH.
Qed.

Lemma matchedValues_urns (parts : list (string * string * string)) :
  Forall wellFormedPart parts ->
  matchedValues (map urnOf parts ++ [""])%list = map parsedOf parts.
Proof.
  induction 1 as [|part parts (Hn & Hs & Hv) _ IH]; [reflexivity|].
  cbn [map app matchedValues].
  rewrite (execUrn_urnOf part Hn Hs), IH.
  destruct part as [[n s] v]. reflexivity.
Qed.

(** X3: parsing inverts the composite format.  The commitment a composite
    renders is each child commitment followed by a pipe; when the property
    names and the salts are made of word characters and the printed values
    hold no pipe, [parseAttestableValue] returns one component per child,
    in their order, with exactly the property name, the salt and the value
    that went in and the child commitment as [stringValue].  This holds
    for any number of children, none included. *)
Theorem parseAttestableValue_pipeJoin (parts : list (string * string * string)) :
  Forall wellFormedPart parts ->
  parseAttestableValue (commitmentOf (pipeJoin (map urnOf parts)))
  = Return (map parsedOf parts).
Proof.
  intros H. unfold parseAttestableValue, commitmentOf. cbn [getProp assoc].
  cbn [String.eqb Ascii.eqb Bool.eqb obind lodashToString].
  unfold parseString.
  rewrite (splitPipes_pipeJoin _ H), (matchedValues_urns _ H).
  rewrite length_app, !length_map. cbn [List.length].
  rewrite Nat.eqb_refl, andb_false_r. reflexivity.
Qed.

Lemma parseAttestableValue_pipeJoin_witness :
  parseAttestableValue
    (commitmentOf "urn:age:ab12:00000042|urn:first:ab12:Ann|")
  = Return [Parsed.Build "age" "ab12" "00000042" "urn:age:ab12:00000042";
            Parsed.Build "first" "ab12" "Ann" "urn:first:ab12:Ann"].
Proof.
  apply (parseAttestableValue_pipeJoin
           [("age", "ab12", "00000042"); ("first", "ab12", "Ann")]).
  repeat constructor.
Defined.
(** ** Claim property names *)

Lemma splitOn_none (sep : ascii) (s : string) :
  contains sep s = false -> splitOn sep s = [s].
Proof.
  induction s as [|c s IH]; simpl; intros H; [reflexivity|].
  apply orb_false_iff in H as [Hc Hs].
  rewrite Hc, (IH Hs). reflexivity.
Qed.

Lemma splitOn_segment (sep : ascii) (a rest : string) :
  contains sep a = false ->
  splitOn sep (a ++ String sep rest) = a :: splitOn sep rest.
Proof.
  induction a as [|c a IH]; simpl; intros H.
  - now rewrite Ascii.eqb_refl.
  - apply orb_false_iff in H as [Hc Ha].
    rewrite Hc, (IH Ha). reflexivity.
Qed.

Lemma afterLast_none (sep : ascii) (s : string) :
  contains sep s = false -> afterLast sep s = s.
Proof.
  induction s as [|c s IH]; simpl; intros H; [reflexivity|].
  apply orb_false_iff in H as [Hc Hs]. now rewrite Hs, Hc.
Qed.

Lemma afterLast_segment (sep : ascii) (a rest : string) :
  contains sep rest = false ->
  afterLast sep (a ++ String sep rest) = rest.
Proof.
  intros Hr. induction a as [|c a IH]; simpl.
  - now rewrite Hr, Ascii.eqb_refl.
  - rewrite contains_append. simpl. rewrite Ascii.eqb_refl, orb_true_r.
    exact IH.
Qed.

Lemma afterLast_append (sep : ascii) (a rest : string) :
  contains sep rest = true ->
  afterLast sep (a ++ rest) = afterLast sep rest.
Proof.
  intros Hr. induction a as [|c a IH]; simpl; [reflexivity|].
  now rewrite contains_append, Hr, orb_true_r.
Qed.

(** X4: the claim property name and the property name of a commitment.
    For an identifier of three components [a:b:c], none holding a colon,
    [getClaimPropertyName] answers the third component [c].  The property
    name that [getAttestableValue] puts into a commitment is the same [c]
    when the identifier holds no dot; when [c] holds a dot the two part:
    the commitment carries only what follows the last dot of [c]. *)
Theorem getClaimPropertyName_third (u : Inst.t) (a b c : string) :
  Inst.identifier u = (a ++ ":" ++ b ++ ":" ++ c)%string ->
  contains ":" a = false ->
  contains ":" b = false ->
  contains ":" c = false ->
  getClaimPropertyName u = Some c
  /\ (contains "." (Inst.identifier u) = false ->
      propertyNameOf (Inst.identifier u) = c)
  /\ (contains "." c = true ->
      propertyNameOf (Inst.identifier u) = afterLast "." c).
Proof.
  intros Hid Ha Hb Hc. unfold getClaimPropertyName. rewrite Hid.
  change (a ++ ":" ++ b ++ ":" ++ c)%string
    with (a ++ String ":" (b ++ String ":" c))%string.
  split; [|split].
  - rewrite (splitOn_segment ":" a _ Ha), (splitOn_segment ":" b _ Hb),
      (splitOn_none ":" c Hc).
    reflexivity.
  - intros Hdot. unfold propertyNameOf. rewrite Hdot.
    change (a ++ String ":" (b ++ String ":" c))%string
      with (a ++ (":" ++ b) ++ String ":" c)%string.
    rewrite <- append_assoc. now apply afterLast_segment.
  - intros Hdot. unfold propertyNameOf.
    change (a ++ String ":" (b ++ String ":" c))%string
      with (a ++ (":" ++ b) ++ ":" ++ c)%string.
    rewrite <- !append_assoc.
    rewrite !contains_append, Hdot, !orb_true_r.
    apply afterLast_append. exact Hdot.
Qed.

Lemma getClaimPropertyName_third_witness :
  getClaimPropertyName
    (Inst.Build None "" "ns:Name:name.first" None "String" (Inst.Str "Ann") None)
  = Some "name.first"
  /\ propertyNameOf "ns:Name:name.first" = "first".
Proof.
  pose proof (getClaimPropertyName_third
                (Inst.Build None "" "ns:Name:name.first" None "String"
                            (Inst.Str "Ann") None)
                "ns" "Name" "name.first" eq_refl eq_refl eq_refl eq_refl)
    as (H1 & _ & H3).
  split; [exact H1|exact (H3 eq_refl)].
Defined.
(** ** Definitions that never resolve *)

Lemma getTypeName_alias (fuel : nat) (defs : list Def.t) (d e : Def.t) :
  aliasOf defs d e ->
  getTypeName (S fuel) defs d = getTypeName fuel defs e.
Proof.
  intros (n & Hty & Hfind). cbn [getTypeName].
  rewrite Hty, (find_includes _ _ _ Hfind), Hfind. reflexivity.
Qed.

(** An answer at the start of a chain of aliases is an answer at its end,
    reached with less fuel. *)
Lemma getTypeName_aliasSteps (k : nat) (defs : list Def.t) :
  forall (d e : Def.t) (fuel : nat),
    aliasSteps (S k) defs d e ->
    getTypeName fuel defs d <> OutOfFuel ->
    exists fuel', (fuel' < fuel)%nat
                  /\ getTypeName fuel' defs e = getTypeName fuel defs d.
Proof.
  induction k as [|k IH]; intros d e fuel (m & Hdm & Hme) Hr.
  - cbn in Hme. subst m. destruct fuel as [|fuel]; [now elim Hr|].
    exists fuel. split; [lia|]. symmetry. now apply getTypeName_alias.
  - destruct fuel as [|fuel]; [now elim Hr|].
    rewrite (getTypeName_alias fuel _ _ _ Hdm) in Hr |- *.
    destruct (IH m e fuel Hme Hr) as (fuel' & Hlt & E).
    exists fuel'. split; [lia|assumption].
Qed.

Lemma getTypeName_cycle (k : nat) (defs : list Def.t) (d : Def.t) :
  aliasSteps (S k) defs d d ->
  forall fuel, getTypeName fuel defs d = OutOfFuel.
Proof.
  intros Hcycle fuel.
  induction fuel as [fuel IH] using (well_founded_induction Wf_nat.lt_wf).
  destruct (getTypeName fuel defs d) as [T|err|] eqn:E; [| |reflexivity].
  - destruct (getTypeName_aliasSteps k defs d d fuel Hcycle)
      as (fuel' & Hlt & E'); [congruence|].
    rewrite (IH fuel' Hlt) in E'. congruence.
  - destruct (getTypeName_aliasSteps k defs d d fuel Hcycle)
      as (fuel' & Hlt & E'); [congruence|].
    rewrite (IH fuel' Hlt) in E'. congruence.
Qed.

Lemma resolveType_OutOfFuel (fuel : nat) (defs : list Def.t) (d : Def.t) :
  getTypeName fuel defs d = OutOfFuel -> resolveType fuel defs d = OutOfFuel.
Proof.
  destruct fuel as [|fuel]; [reflexivity|].
  intros H. cbn [resolveType]. rewrite H. reflexivity.
Qed.

Lemma resolveType_of_name (fuel : nat) (defs : list Def.t) (d : Def.t) (T : string) :
  getTypeName fuel defs d = Return T ->
  T <> "Object" ->
  resolveType fuel defs d = Return (TypeName T).
Proof.
  destruct fuel as [|fuel]; [discriminate|].
  intros H HT. cbn [resolveType]. rewrite H. cbn [obind].
  destruct (String.eqb_spec T "Object"); [contradiction|reflexivity].
Qed.

(** ** Loops over children *)

Section Preserved.

Variable R : World -> World -> Prop.
Hypothesis R_refl : forall w, R w w.
Hypothesis R_trans : forall a b c, R a b -> R b c -> R a c.

Lemma constructProperties_rel (new : Constructor) (props : list Property.t) :
  (forall identifier value version w w' r,
      new identifier value version w = (w', r) -> R w w') ->
  forall entries w w' r,
    constructProperties new props entries w = (w', r) -> R w w'.
Proof.
  intros Hnew. induction entries as [|[k v] rest IH]; intros w w' r H; simpl in H.
  - pure_step H. apply R_refl.
  - destruct (find _ props) as [propertyDef|]; [|pure_step H; apply R_refl].
    bind_cases H; apply Hnew in Hc; [|assumption..].
    bind_cases H; apply IH in Hc0; try pure_step H; eauto.
Qed.

Lemma reconstructProperties_rel (new : Constructor) (ty : DefType) :
  forall parsed,
    (forall fid p w w' r,
        In p parsed ->
        new fid (commitmentOf (Parsed.stringValue p)) None w = (w', r) ->
        R w w') ->
    forall ucaValue w w' r,
      reconstructProperties new ty parsed ucaValue w = (w', r) -> R w w'.
Proof.
  induction parsed as [|p rest IH]; intros Hnew ucaValue w w' r H; simpl in H.
  - pure_step H. apply R_refl.
  - destruct ty as [n|o]; [pure_step H; apply R_refl|].
    destruct (find _ (properties o)) as [property|];
      [|pure_step H; apply R_refl].
    bind_cases H; apply (Hnew _ p) in Hc; try (now left); try assumption.
    apply IH in H; [eauto|].
    intros fid q w1 w2 r1 Hq. apply Hnew. now right.
Qed.

End Preserved.

Lemma reconstructProperties_Forall (new : Constructor) (ty : DefType)
      (Q : string * Inst.t -> Prop) :
  forall parsed,
    (forall fid p w w' ch,
        In p parsed ->
        new fid (commitmentOf (Parsed.stringValue p)) None w = (w', Return ch) ->
        Q (Parsed.propertyName p, ch)) ->
    forall ucaValue w w' result,
      Forall Q ucaValue ->
      reconstructProperties new ty parsed ucaValue w = (w', Return result) ->
      Forall Q result.
Proof.
  induction parsed as [|p rest IH]; intros Hnew ucaValue w w' result Hacc H;
    simpl in H.
  - pure_step H. assumption.
  - destruct ty as [n|o]; [pure_step H|].
    destruct (find _ (properties o)) as [property|]; [|pure_step H].
    bind_cases H; try discriminate.
    apply (Hnew _ p) in Hc; [|now left].
    apply IH in H; [assumption| |].
    + intros fid q w1 w2 ch Hq. apply Hnew. now right.
    + now apply assign_Forall.
Qed.

Lemma constructProperties_inv (new : Constructor) (props : list Property.t) :
  forall entries w w' pairs,
    constructProperties new props entries w = (w', Return pairs) ->
    Forall2 (fun entry pair =>
               fst pair = fst entry
               /\ exists p w1 w2,
                   find (fun p => String.eqb (Property.name p) (fst entry)) props
                   = Some p
                   /\ new (Property.type p) (snd entry) (Property.version p) w1
                      = (w2, Return (snd pair)))
            entries pairs.
Proof.
  induction entries as [|[k v] rest IH]; intros w w' pairs H; simpl in H.
  - pure_step H. constructor.
  - destruct (find _ props) as [propertyDef|] eqn:Hfind; [|pure_step H].
    bind_cases H; try discriminate.
    bind_cases H; try discriminate.
    pure_step H. constructor; [|eapply IH; eassumption].
    split; [reflexivity|]. simpl. eauto.
Qed.

(** ** Components of a commitment *)

Lemma matchedValues_components (segments : list string) :
  Forall (fun p =>
            In (Parsed.stringValue p) segments
            /\ execUrn (Parsed.stringValue p)
               = Some (Parsed.propertyName p, Parsed.salt p, Parsed.value p))
         (matchedValues segments).
Proof.
  induction segments as [|seg rest IH]; simpl; [constructor|].
  assert (IH' : Forall (fun p =>
                          (seg = Parsed.stringValue p
                           \/ In (Parsed.stringValue p) rest)
                          /\ execUrn (Parsed.stringValue p)
                             = Some (Parsed.propertyName p, Parsed.salt p,
                                     Parsed.value p))
                       (matchedValues rest)).
  { eapply Forall_impl; [|exact IH]. simpl. intros p [H1 H2]. auto. }
  destruct (execUrn seg) as [[[g1 g2] g3]|] eqn:E; [|assumption].
  constructor; [|assumption]. simpl. auto.
Qed.

(** Every component [parseAttestableValue] returns is a segment without
    pipe that matches the pattern; parsed on its own, it gives that one
    component back. *)
Lemma parseAttestableValue_component (value : JsVal) (parsed : list Parsed.t)
      (p : Parsed.t) :
  parseAttestableValue value = Return parsed ->
  In p parsed ->
  isAttestableValue (commitmentOf (Parsed.stringValue p)) = true
  /\ parseAttestableValue (commitmentOf (Parsed.stringValue p)) = Return [p].
Proof.
  unfold parseAttestableValue at 1.
  destruct (getProp value "attestableValue") as [a| |]; try discriminate.
  cbn [obind]. unfold parseString.
  destruct (_ && _); [discriminate|]. intros H Hin. inversion H; subst. clear H.
  pose proof (matchedValues_components (splitPipes (lodashToString a))) as Hm.
  rewrite Forall_forall in Hm. destruct (Hm p Hin) as [Hseg Hexec].
  pose proof (splitPipes_segments (lodashToString a)) as Hs.
  rewrite Forall_forall in Hs. specialize (Hs _ Hseg).
  destruct p as [g1 g2 g3 sv]. cbn [Parsed.stringValue Parsed.propertyName
                                    Parsed.salt Parsed.value] in *.
  apply execUrn_iff in Hexec as (-> & W1 & W2).
  split; [reflexivity|].
  assert (Hrest : contains "|" g3 = false).
  { rewrite !contains_append in Hs. simpl in Hs.
    repeat (apply orb_false_iff in Hs as [_ Hs]). exact Hs. }
  exact (parseString_leaf g1 g2 g3 W1 W2 Hrest).
Qed.
Section ConstructorModes.

Variable sha256hex : string -> string.
Variable wordWith : nat -> string.
Variable now : nat -> Z.

Abbreviation Construct := (construct sha256hex wordWith now).
Abbreviation BuildValue := (buildValue sha256hex wordWith now).

(** X5: a cycle of aliases.  When the chain of type names that starts at a
    definition leads back to that definition, [getTypeName] and
    [resolveType] recur without end on it, at every bound on the depth of
    the calls, and so does every construction that looks the definition
    up; the registry is not touched. *)
Theorem construct_cyclic_definition (k fuel : nat) (identifier : string)
        (value : JsVal) (version : option string) (w : World)
        (i : nat) (d : Def.t) :
  lookupDefinition identifier version (definitions w) = Some (i, d) ->
  aliasSteps (S k) (definitions w) d d ->
  getTypeName fuel (definitions w) d = OutOfFuel
  /\ resolveType fuel (definitions w) d = OutOfFuel
  /\ Construct fuel identifier value version w = (w, OutOfFuel).
Proof.
  intros Hlook Hcycle.
  pose proof (getTypeName_cycle k _ _ Hcycle) as Hname.
  split; [apply Hname|]. split; [apply resolveType_OutOfFuel, Hname|].
  destruct fuel as [|fuel]; [reflexivity|].
  rewrite construct_S, (lookupDefinition_includes _ _ _ _ _ Hlook), Hlook.
  cbn [negb]. cbv zeta. now rewrite Hname.
Qed.

(** X6: the type name ['Object'] written out.  For a definition whose
    [type] is the string ['Object'], which is the identifier of no
    definition, [getTypeName] answers ['Object'] and [resolveType] then
    looks for a definition of that identifier, finds none and reads a
    property of [undefined]: every construction from such a definition
    throws that [TypeError], before the registry is written. *)
Theorem construct_literal_Object (fuel : nat) (identifier : string)
        (value : JsVal) (version : option string) (w : World)
        (i : nat) (d : Def.t) :
  lookupDefinition identifier version (definitions w) = Some (i, d) ->
  Def.type d = TypeName "Object" ->
  includes (validIdentifiers (definitions w)) "Object" = false ->
  getTypeName (S fuel) (definitions w) d = Return "Object"
  /\ resolveType (S fuel) (definitions w) d = Throw TypeError
  /\ Construct (S (S fuel)) identifier value version w = (w, Throw TypeError).
Proof.
  intros Hlook Hty Hno.
  assert (Hname : getTypeName (S fuel) (definitions w) d = Return "Object").
  { cbn [getTypeName]. now rewrite Hty, Hno. }
  assert (Hres : resolveType (S fuel) (definitions w) d = Throw TypeError).
  { cbn [resolveType]. rewrite Hname. cbn [obind String.eqb Ascii.eqb Bool.eqb negb].
    rewrite Hty, (find_not_included _ _ Hno). reflexivity. }
  repeat split; try assumption.
  rewrite construct_S, (lookupDefinition_includes _ _ _ _ _ Hlook), Hlook.
  cbn [negb]. cbv zeta. now rewrite Hname, Hres.
Qed.

(** ** The raw mode *)

Lemma isValid_set_type (value : JsVal) (T : string) (d : Def.t) (ty : DefType) :
  isValid value T (Def.set_type d ty) = isValid value T d.
Proof. reflexivity. Qed.

(** X7: a raw string, number or boolean for a definition of that type.
    The call overwrites the [type] of the definition by the type name,
    reads the clock once and validates.  A value the validator rejects
    makes it throw '... is not valid for ...' with the clock read and no
    random word drawn.  A value it accepts gives the instance with that
    reading of the clock as [timestamp], the raw value as [value], the
    digest of one fresh random word as [salt] and, as [id], the version,
    the identifier and the digest of the commitment, joined by colons. *)
Theorem construct_raw_leaf (fuel : nat) (identifier : string) (value : JsVal)
        (version : option string) (w : World) (i : nat) (d : Def.t)
        (T : string) :
  lookupDefinition identifier version (definitions w) = Some (i, d) ->
  getTypeName fuel (definitions w) d = Return T ->
  isValueOfType value T = true ->
  let this_version := if truthyStr version then version else Def.version d in
  let salt := sha256hex (wordWith (randomDraws w)) in
  let commitment := ("urn:" ++ propertyNameOf identifier ++ ":" ++ salt ++ ":"
                     ++ renderedValue T (primitive value))%string in
  (isValid value T d = false ->
   Construct (S fuel) identifier value version w
   = (tickClock (assignType i (TypeName T) w), Throw InvalidValue))
  /\ (isValid value T d = true ->
      Construct (S fuel) identifier value version w
      = (drawRandom (tickClock (assignType i (TypeName T) w)),
         Return (Inst.Build (Some (now (clockReads w)))
                            (optToString this_version ++ ":" ++ identifier
                             ++ ":" ++ sha256hex commitment)%string
                            identifier this_version T (primitive value)
                            (Some salt)))).
Proof.
  intros Hlook Hname Hof this_version salt commitment.
  destruct (isValueOfType_leaf _ _ Hof) as (Hleaf & Hatt & _).
  pose proof (resolveType_of_leaf _ _ _ _ Hname Hleaf) as Hres.
  split; intros Hvalid;
    rewrite construct_S, (lookupDefinition_includes _ _ _ _ _ Hlook), Hlook;
    cbn [negb]; cbv zeta; rewrite Hname, Hres;
    rewrite (buildValue_raw _ _ _ _ _ _ _ _ _ _ Hatt Hof);
    rewrite isValid_set_type, Hvalid; cbn [negb]; [reflexivity|].
  rewrite (getAttestableValue_leaf _ _ _ _ _ _ _ Hleaf). reflexivity.
Qed.

(** X8: no coercion.  For a definition whose type name is not ['Object'],
    a value that is neither the wrapper of a commitment nor of the runtime
    type the name asks for (a number for a ['String'], [null], a mapping,
    any value at all when the name is none of the three primitive names)
    makes the call throw '... is not valid for ...'; the clock is not read
    and no random word is drawn. *)
Theorem construct_type_mismatch (fuel : nat) (identifier : string)
        (value : JsVal) (version : option string) (w : World)
        (i : nat) (d : Def.t) (T : string) :
  lookupDefinition identifier version (definitions w) = Some (i, d) ->
  getTypeName fuel (definitions w) d = Return T ->
  T <> "Object" ->
  isAttestableValue value = false ->
  isValueOfType value T = false ->
  Construct (S fuel) identifier value version w
  = (assignType i (TypeName T) w, Throw InvalidValue).
Proof.
  intros Hlook Hname HT Hatt Hof.
  rewrite construct_S, (lookupDefinition_includes _ _ _ _ _ Hlook), Hlook.
  cbn [negb]. cbv zeta.
  rewrite Hname, (resolveType_of_name _ _ _ _ Hname HT).
  unfold buildValue. rewrite Hatt, Hof. reflexivity.
Qed.

(** A returned instance whose type the raw value has was built in the raw
    mode. *)
Lemma construct_raw_inv (fuel : nat) (identifier : string) (value : JsVal)
      (version : option string) (w w' : World) (u : Inst.t) :
  Construct fuel identifier value version w = (w', Return u) ->
  isValueOfType value (Inst.type u) = true ->
  Inst.timestamp u = Some (now (clockReads w))
  /\ Inst.value u = primitive value
  /\ clockReads w' = S (clockReads w).
Proof.
  intros H.
  destruct (construct_Return_inv _ _ _ _ _ _ _ _ _ _ H)
    as (fuel' & i & d & T & ty & ts & v & salt & c
        & -> & Hlook & Hname & Hres & Hbuild & Hc & ->).
  cbn [Inst.type Inst.timestamp Inst.value]. intros Hof.
  destruct (isValueOfType_leaf _ _ Hof) as (_ & Hatt & _).
  rewrite (buildValue_raw _ _ _ _ _ _ _ _ _ _ Hatt Hof) in Hbuild.
  destruct (negb (isValid value T (Def.set_type d ty))); [discriminate|].
  inversion Hbuild; subst. auto.
Qed.

(** A value that is not of the type name of the definition, when that name
    is not ['Object'], is never accepted. *)
Lemma construct_mismatch_inv (fuel : nat) (identifier : string) (value : JsVal)
      (version : option string) (w w' : World) (u : Inst.t) :
  Construct fuel identifier value version w = (w', Return u) ->
  isAttestableValue value = false ->
  Inst.type u <> "Object" ->
  isValueOfType value (Inst.type u) = true.
Proof.
  intros H Hatt HT.
  destruct (construct_Return_inv _ _ _ _ _ _ _ _ _ _ H)
    as (fuel' & i & d & T & ty & ts & v & salt & c
        & -> & Hlook & Hname & Hres & Hbuild & Hc & ->).
  cbn [Inst.type] in *.
  destruct (isValueOfType value T) eqn:Hof; [reflexivity|].
  rewrite (resolveType_of_name _ _ _ _ Hname HT) in Hres.
  inversion Hres; subst ty.
  unfold buildValue in Hbuild. rewrite Hatt, Hof in Hbuild. discriminate.
Qed.

(** X9: which mode sets what.  On a returned instance the [timestamp] is
    present exactly when the value was a raw string, number or boolean of
    the type of the instance: it is then the reading of the clock at the
    time of the call, and [value] is the raw value.  In the two other
    modes (the wrapper of a commitment, or a mapping) the [timestamp]
    stays [null], and the [value] is a string cut out of the commitment
    or an object of children. *)
Theorem construct_timestamp (fuel : nat) (identifier : string) (value : JsVal)
        (version : option string) (w w' : World) (u : Inst.t) :
  Construct fuel identifier value version w = (w', Return u) ->
  (isValueOfType value (Inst.type u) = true ->
   Inst.timestamp u = Some (now (clockReads w))
   /\ Inst.value u = primitive value
   /\ clockReads w' = S (clockReads w))
  /\ (isValueOfType value (Inst.type u) = false ->
      Inst.timestamp u = None
      /\ ((exists s, Inst.value u = Inst.Str s)
          \/ (exists children, Inst.value u = Inst.Obj children))).
Proof.
  intros H. split; [exact (construct_raw_inv _ _ _ _ _ _ _ H)|].
  destruct (construct_Return_inv _ _ _ _ _ _ _ _ _ _ H)
    as (fuel' & i & d & T & ty & ts & v & salt & c
        & -> & Hlook & Hname & Hres & Hbuild & Hc & ->).
  cbn [Inst.type Inst.timestamp Inst.value]. intros Hof.
  - destruct (isAttestableValue value) eqn:Hatt.
    + destruct (buildValue_commitment_inv _ _ _ _ _ _ _ _ _ _ _ _ Hatt Hbuild)
        as (parsed & _ & [(p & _ & _ & E)|(_ & ucaValue & _ & E)]);
        inversion E; subst; eauto.
    + destruct (buildValue_composite_inv _ _ _ _ _ _ _ _ _ _ _ _ Hatt Hof Hbuild)
        as (o & entries & pairs & _ & _ & _ & _ & _ & E).
      inversion E; subst; eauto.
Qed.
(** ** The reconstruction mode *)

Lemma buildValue_commitment_rel (R : World -> World -> Prop)
      (new : Constructor) identifier definition ty this_type value w w' r :
  (forall w, R w w) ->
  (forall a b c, R a b -> R b c -> R a c) ->
  isAttestableValue value = true ->
  (forall parsed fid p w1 w2 r1,
      parseAttestableValue value = Return parsed ->
      In p parsed ->
      new fid (commitmentOf (Parsed.stringValue p)) None w1 = (w2, r1) ->
      R w1 w2) ->
  BuildValue new identifier definition ty this_type value w = (w', r) ->
  R w w'.
Proof.
  intros R_refl R_trans Hatt Hnew H. unfold buildValue in H. rewrite Hatt in H.
  bind_cases H; pure_step Hc; try apply R_refl.
  assert (Hloop : forall ucaValue w1 w2 r1,
             reconstructProperties new ty a ucaValue w1 = (w2, r1) -> R w1 w2).
  { intros ucaValue w1 w2 r1.
    apply (reconstructProperties_rel R R_refl R_trans).
    intros fid p wa wb rb Hp. now apply (Hnew a). }
  destruct a as [|p [|q rest]].
  - bind_cases H; apply Hloop in Hc; try pure_step H; assumption.
  - pure_step H. apply R_refl.
  - bind_cases H; apply Hloop in Hc; try pure_step H; assumption.
Qed.

(** X10: rebuilding is silent.  A construction from the wrapper of a
    commitment reads no clock and draws no random word, at any depth and
    whatever its outcome. *)
Theorem construct_from_commitment_silent (fuel : nat) (identifier : string)
        (value : JsVal) (version : option string) (w w' : World)
        (r : Outcome Inst.t) :
  isAttestableValue value = true ->
  Construct fuel identifier value version w = (w', r) ->
  clockReads w' = clockReads w /\ randomDraws w' = randomDraws w.
Proof.
  revert identifier value version w w' r.
  induction fuel as [|fuel IH]; intros identifier value version w w' r Hatt H.
  - inversion H; subst. auto.
  - rewrite construct_S in H.
    destruct (negb _); [inversion H; subst; auto|].
    destruct (lookupDefinition _ _ _) as [[i d]|]; [|inversion H; subst; auto].
    cbv zeta in H.
    destruct (getTypeName _ _ _) as [T|e|]; try (inversion H; subst; auto; fail).
    destruct (resolveType _ _ _) as [ty|e|]; try (inversion H; subst; auto; fail).
    destruct (BuildValue _ _ _ _ _ _ _) as [w2 x] eqn:Hbuild.
    assert (Hw2 : clockReads w2 = clockReads (assignType i ty w)
                  /\ randomDraws w2 = randomDraws (assignType i ty w)).
    { refine (buildValue_commitment_rel
                (fun a b => clockReads b = clockReads a
                            /\ randomDraws b = randomDraws a)
                _ _ _ _ _ _ _ _ _ _ _ Hatt _ Hbuild).
      - auto.
      - intros a b c [-> ->] [-> ->]. auto.
      - intros parsed fid p w1 w3 r1 Hparsed Hp Hnew.
        apply (IH _ _ _ _ _ _
                  (proj1 (parseAttestableValue_component _ _ _ Hparsed Hp)) Hnew). }
    destruct x as [[[ts v] salt]|e|]; inversion H; subst; exact Hw2.
Qed.

(** X11: what a rebuilt composite holds.  When the commitment has a number
    of components other than one, every child of the returned instance
    comes from one component: it is stored under the property name of the
    component, its [value] is the string of the component, its [salt] the
    salt of the component, and it has no [timestamp].  The children are
    thus leaves that hold strings, whatever their definitions say:
    rebuilding goes one level deep. *)
Theorem construct_rebuilt_children (fuel : nat) (identifier : string)
        (value : JsVal) (version : option string) (w w' : World) (u : Inst.t)
        (parsed : list Parsed.t) :
  isAttestableValue value = true ->
  parseAttestableValue value = Return parsed ->
  List.length parsed <> 1%nat ->
  Construct fuel identifier value version w = (w', Return u) ->
  exists children,
    Inst.value u = Inst.Obj children
    /\ Forall (fun kv =>
                 exists p,
                   In p parsed
                   /\ fst kv = Parsed.propertyName p
                   /\ Inst.value (snd kv) = Inst.Str (Parsed.value p)
                   /\ Inst.salt (snd kv) = Some (Parsed.salt p)
                   /\ Inst.timestamp (snd kv) = None)
              children.
Proof.
  intros Hatt Hparsed Hlen H.
  destruct (construct_Return_inv _ _ _ _ _ _ _ _ _ _ H)
    as (fuel' & i & d & T & ty & ts & v & salt & c
        & -> & Hlook & Hname & Hres & Hbuild & Hc & ->).
  destruct (buildValue_commitment_inv _ _ _ _ _ _ _ _ _ _ _ _ Hatt Hbuild)
    as (parsed' & Hparsed' & [(p & -> & _)|(_ & ucaValue & Hloop & E)]).
  { rewrite Hparsed in Hparsed'. inversion Hparsed'; subst. now elim Hlen. }
  rewrite Hparsed in Hparsed'. inversion Hparsed'; subst parsed'. clear Hparsed'.
  inversion E; subst. exists ucaValue. split; [reflexivity|].
  refine (reconstructProperties_Forall _ _ _ parsed _ [] _ _ _ (Forall_nil _) Hloop).
  intros fid p w1 w2 ch Hp Hch. exists p. cbn [fst snd].
  destruct (parseAttestableValue_component _ _ _ Hparsed Hp) as [Hatt' Hone].
  destruct (construct_Return_inv _ _ _ _ _ _ _ _ _ _ Hch)
    as (fuel2 & i2 & d2 & T2 & ty2 & ts2 & v2 & salt2 & c2
        & -> & _ & _ & _ & Hbuild2 & _ & ->).
  destruct (buildValue_commitment_inv _ _ _ _ _ _ _ _ _ _ _ _ Hatt' Hbuild2)
    as (parsed2 & Hparsed2 & [(q & -> & _ & E2)|(Hlen2 & _)]).
  - rewrite Hone in Hparsed2. inversion Hparsed2; subst q.
    inversion E2; subst. cbn [Inst.value Inst.salt Inst.timestamp]. auto.
  - rewrite Hone in Hparsed2. inversion Hparsed2; subst. now elim Hlen2.
Qed.

(** ** The composite mode *)

(** X12: a composite from nothing.  For a definition that resolves to an
    object schema with properties and no required name, a value with no
    entry to visit ([undefined], [null], a number, a boolean, the empty
    string, the empty mapping) is accepted: the call returns an instance
    of type ['Object'] with no child, no salt and no timestamp, whose
    commitment is the empty string. *)
Theorem construct_composite_from_nothing (fuel : nat) (identifier : string)
        (value : JsVal) (version : option string) (w : World)
        (i : nat) (d : Def.t) (o : ObjectSchema) :
  lookupDefinition identifier version (definitions w) = Some (i, d) ->
  resolveType fuel (definitions w) d = Return (TypeSchema o) ->
  properties o <> [] ->
  required o = [] ->
  collectionEntries value = Some [] ->
  let this_version := if truthyStr version then version else Def.version d in
  let u := Inst.Build None
                      (optToString this_version ++ ":" ++ identifier ++ ":"
                       ++ sha256hex "")%string
                      identifier this_version "Object" (Inst.Obj []) None in
  Construct (S fuel) identifier value version w
  = (assignType i (TypeSchema o) w, Return u)
  /\ getAttestableValue u = Return "".
Proof.
  intros Hlook Hres Hprops Hreq Hentries this_version u.
  split; [|reflexivity].
  destruct (resolveType_typeName _ _ _ _ Hres) as (T & Hname & ->).
  assert (Hatt : isAttestableValue value = false).
  { destruct value as [| |b|n|s|fields]; try reflexivity.
    - apply andb_false_r.
    - apply andb_false_r.
    - destruct s; [reflexivity|discriminate].
    - inversion Hentries; subst. reflexivity. }
  assert (Hof : isValueOfType value "Object" = false) by reflexivity.
  rewrite construct_S, (lookupDefinition_includes _ _ _ _ _ Hlook), Hlook.
  cbn [negb]. cbv zeta. rewrite Hname, Hres.
  unfold buildValue. rewrite Hatt, Hof.
  destruct (properties o) as [|pr prs]; [now elim Hprops|].
  rewrite Hreq, Hentries. reflexivity.
Qed.

(** Where the children of an instance built from a mapping come from. *)
Lemma constructProperties_children (new : Constructor) (props : list Property.t)
      (entries : list (string * JsVal)) (w w' : World)
      (pairs : list (string * Inst.t)) (k : string) (ch : Inst.t) :
  constructProperties new props entries w = (w', Return pairs) ->
  assoc k (keyBy pairs) = Some ch ->
  exists v p w1 w2,
    In (k, v) entries
    /\ find (fun p => String.eqb (Property.name p) k) props = Some p
    /\ new (Property.type p) v (Property.version p) w1 = (w2, Return ch).
Proof.
  intros Hloop Hk.
  pose proof (constructProperties_inv _ _ _ _ _ _ Hloop) as Hinv.
  apply assoc_Some_In in Hk.
  assert (Hin : In (k, ch) pairs).
  { pose proof (keyBy_Forall (fun kv : string * Inst.t => In kv pairs) pairs) as HF.
    assert (HP : Forall (fun kv : string * Inst.t => In kv pairs) pairs)
      by (apply Forall_forall; auto).
    apply HF in HP. rewrite Forall_forall in HP. now apply HP. }
  clear - Hinv Hin. induction Hinv as [|entry pair entries pairs Hhd _ IH];
    [contradiction|].
  destruct Hin as [->|Hin].
  - destruct Hhd as (Hk & p & w1 & w2 & Hfind & Hnew).
    destruct entry as [k' v]. cbn [fst snd] in *. subst k'.
    exists v, p, w1, w2. repeat split; try assumption. now left.
  - destruct (IH Hin) as (v & p & w1 & w2 & Hv & Hrest).
    exists v, p, w1, w2. split; [now right|assumption].
Qed.

End ConstructorModes.

Lemma construct_cyclic_definition_witness :
  construct sampleDigest sampleWord sampleClock 50 "ns:Loop:ping" (VStr "x")
            None flaggedWorld
  = (flaggedWorld, OutOfFuel).
Proof.
  refine (proj2 (proj2 (construct_cyclic_definition
                          sampleDigest sampleWord sampleClock
                          1 50 "ns:Loop:ping" (VStr "x") None flaggedWorld 7
                          (flaggedDefinition "ns:Loop:ping" (Some "1")
                                             (TypeName "ns:Loop:pong")
                                             false false)
                          eq_refl _))).
  exists (flaggedDefinition "ns:Loop:pong" (Some "1") (TypeName "ns:Loop:ping")
                            false false).
  split; [exists "ns:Loop:pong"; split; reflexivity|].
  eexists. split; [exists "ns:Loop:ping"; split; reflexivity|reflexivity].
Defined.

Lemma construct_literal_Object_witness :
  construct sampleDigest sampleWord sampleClock 2 "ns:Odd:object" VNull None
            flaggedWorld
  = (flaggedWorld, Throw TypeError).
Proof.
  exact (proj2 (proj2 (construct_literal_Object
                         sampleDigest sampleWord sampleClock
                         0 "ns:Odd:object" VNull None flaggedWorld 6
                         (flaggedDefinition "ns:Odd:object" (Some "1")
                                            (TypeName "Object") false false)
                         eq_refl eq_refl eq_refl))).
Defined.

Lemma construct_raw_leaf_witness :
  sampleConstruct 2 "ns:Person:age" (VNum 42) None sampleWorld
  = (drawRandom (tickClock (assignType 4 (TypeName "Number") sampleWorld)),
     Return (Inst.Build (Some 1000) "1:ns:Person:age:ab12" "ns:Person:age"
                        (Some "1") "Number" (Inst.Num 42) (Some "ab12")))
  /\ sampleConstruct 2 "ns:Person:age" (VNum 200) None sampleWorld
     = (tickClock (assignType 4 (TypeName "Number") sampleWorld),
        Throw InvalidValue).
Proof.
  split.
  - exact (proj2 (construct_raw_leaf
                    sampleDigest sampleWord sampleClock 1 "ns:Person:age"
                    (VNum 42) None sampleWorld 4 ageDefinition "Number"
                    eq_refl eq_refl eq_refl) eq_refl).
  - exact (proj1 (construct_raw_leaf
                    sampleDigest sampleWord sampleClock 1 "ns:Person:age"
                    (VNum 200) None sampleWorld 4 ageDefinition "Number"
                    eq_refl eq_refl eq_refl) eq_refl).
Defined.

Lemma construct_type_mismatch_witness :
  sampleConstruct 2 "ns:Person:age" (VStr "42") None sampleWorld
  = (assignType 4 (TypeName "Number") sampleWorld, Throw InvalidValue).
Proof.
  apply (construct_type_mismatch
           sampleDigest sampleWord sampleClock 1 "ns:Person:age" (VStr "42")
           None sampleWorld 4 ageDefinition "Number");
    try reflexivity.
  discriminate.
Defined.

Lemma construct_timestamp_witness :
  exists w' u,
    sampleConstruct 2 "ns:Person:age" (VNum 42) None sampleWorld
    = (w', Return u)
    /\ Inst.timestamp u = Some 1000
    /\ Inst.value u = Inst.Num 42
    /\ clockReads w' = 1%nat.
Proof.
  eexists _, _. split; [vm_compute; reflexivity|].
  exact (proj1 (construct_timestamp
                  sampleDigest sampleWord sampleClock 2 "ns:Person:age"
                  (VNum 42) None sampleWorld _ _ eq_refl) eq_refl).
Defined.

Lemma construct_from_commitment_silent_witness :
  exists w' r,
    sampleConstruct 3 "ns:Identity:person"
                    (commitmentOf "urn:age:ab12:00000042|urn:first:ab12:Ann|")
                    None sampleWorld
    = (w', r)
    /\ clockReads w' = clockReads sampleWorld
    /\ randomDraws w' = randomDraws sampleWorld.
Proof.
  eexists _, _. split; [vm_compute; reflexivity|].
  exact (construct_from_commitment_silent
           sampleDigest sampleWord sampleClock 3 "ns:Identity:person"
           (commitmentOf "urn:age:ab12:00000042|urn:first:ab12:Ann|")
           None sampleWorld _ _ eq_refl eq_refl).
Defined.

Lemma construct_rebuilt_children_witness :
  exists w' u children,
    sampleConstruct 3 "ns:Identity:person"
                    (commitmentOf "urn:age:ab12:00000042|urn:first:ab12:Ann|")
                    None sampleWorld
    = (w', Return u)
    /\ Inst.value u = Inst.Obj children
    /\ Forall (fun kv => exists s, Inst.value (snd kv) = Inst.Str s) children.
Proof.
  destruct (sampleConstruct
              3 "ns:Identity:person"
              (commitmentOf "urn:age:ab12:00000042|urn:first:ab12:Ann|")
              None sampleWorld) as [w' [u|e|]] eqn:E;
    [|vm_compute in E; discriminate..].
  destruct (construct_rebuilt_children
              sampleDigest sampleWord sampleClock 3 "ns:Identity:person"
              (commitmentOf "urn:age:ab12:00000042|urn:first:ab12:Ann|")
              None sampleWorld w' u
              [Parsed.Build "age" "ab12" "00000042" "urn:age:ab12:00000042";
               Parsed.Build "first" "ab12" "Ann" "urn:first:ab12:Ann"]
              eq_refl eq_refl (fun F => Nat.neq_succ_diag_l 1 F) E)
    as (children & Hv & Hall).
  exists w', u, children. split; [reflexivity|]. split; [exact Hv|].
  eapply Forall_impl; [|exact Hall].
  intros kv (p & _ & _ & Hs & _). eauto.
Defined.

Lemma construct_composite_from_nothing_witness :
  construct sampleDigest sampleWord sampleClock 2 "ns:Identity:contact" VNull
            None flaggedWorld
  = (assignType 1 (TypeSchema contactSchema) flaggedWorld,
     Return (Inst.Build None "1:ns:Identity:contact:ab12" "ns:Identity:contact"
                        (Some "1") "Object" (Inst.Obj []) None)).
Proof.
  refine (proj1 (construct_composite_from_nothing
                   sampleDigest sampleWord sampleClock 1 "ns:Identity:contact"
                   VNull None flaggedWorld 1
                   (flaggedDefinition "ns:Identity:contact" (Some "1")
                                      (TypeSchema contactSchema) true false)
                   contactSchema eq_refl eq_refl _ eq_refl eq_refl)).
  discriminate.
Defined.


(** ** Type resolution after constructions *)

Lemma includes_find (defs : list Def.t) (n : string) :
  includes (validIdentifiers defs) n = true ->
  exists e, find (matchesIdentifier n) defs = Some e.
Proof.
  intros H. destruct (find (matchesIdentifier n) defs) as [e|] eqn:E; [eauto|].
  apply includes_In in H. unfold validIdentifiers in H.
  apply in_map_iff in H as (d & Hd & Hin).
  pose proof (find_none _ _ E d Hin) as Hno.
  unfold matchesIdentifier in Hno. rewrite Hd, String.eqb_refl in Hno.
  discriminate.
Qed.

(** A definition found by identifier in the registry as it is now is the
    counterpart of the one found in the registry as loaded. *)
Lemma find_resolved_rev (defs defs' : list Def.t) (n : string) (e' : Def.t) :
  resolvedRegistry defs defs' ->
  find (matchesIdentifier n) defs' = Some e' ->
  exists e, find (matchesIdentifier n) defs = Some e /\ resolvedFrom defs e e'.
Proof.
  intros Hreg Hfind.
  pose proof (find_includes _ _ _ Hfind) as Hinc.
  rewrite (resolvedRegistry_identifiers _ _ Hreg) in Hinc.
  destruct (includes_find _ _ Hinc) as (e & He).
  exists e. split; [assumption|].
  destruct (find_Forall2 (resolvedFrom defs) (matchesIdentifier n) defs defs' e
                         Hreg) as (y & Hy & Hry); [|assumption|].
  - intros a b Hab. unfold matchesIdentifier.
    now rewrite (proj1 (resolvedFrom_identifier _ _ _ Hab)).
  - congruence.
Qed.

Lemma getTypeName_resolved_rev (defs defs' : list Def.t) :
  resolvedRegistry defs defs' ->
  forall fuel d d' T,
    resolvedFrom defs d d' ->
    getTypeName fuel defs' d' = Return T ->
    exists fuel0, getTypeName fuel0 defs d = Return T.
Proof.
  intros Hreg. induction fuel as [|fuel IH]; intros d d' T Hd H; [discriminate|].
  destruct Hd as [->|(f0 & ty0 & Hres & ->)].
  - cbn [getTypeName] in H. destruct (Def.type d) as [n|o] eqn:Hty.
    + rewrite (resolvedRegistry_identifiers _ _ Hreg) in H.
      destruct (includes (validIdentifiers defs) n) eqn:Hinc.
      * destruct (find (matchesIdentifier n) defs') as [e'|] eqn:Hfind;
          [|discriminate].
        cbn [deref] in H.
        destruct (find_resolved_rev _ _ _ _ Hreg Hfind) as (e & He & Hee).
        destruct (IH _ _ _ Hee H) as (f1 & Hf1).
        exists (S f1). cbn [getTypeName]. now rewrite Hty, Hinc, He.
      * exists 1%nat. cbn [getTypeName]. now rewrite Hty, Hinc.
    + exists 1%nat. cbn [getTypeName]. now rewrite Hty.
  - destruct (resolveType_typeName _ _ _ _ Hres) as (T0 & HT0 & _).
    assert (Hfwd : getTypeName f0 defs' (Def.set_type d ty0) = Return T0).
    { apply (getTypeName_resolved defs defs' Hreg f0 d); [|assumption].
      right. eauto. }
    rewrite (getTypeName_det _ _ _ _ _ _ H Hfwd). eauto.
Qed.

Lemma resolveType_resolved_rev (defs defs' : list Def.t) :
  resolvedRegistry defs defs' ->
  forall fuel d d' ty,
    resolvedFrom defs d d' ->
    resolveType fuel defs' d' = Return ty ->
    exists fuel0, resolveType fuel0 defs d = Return ty.
Proof.
  intros Hreg. induction fuel as [|fuel IH]; intros d d' ty Hd H; [discriminate|].
  destruct Hd as [->|(f0 & ty0 & Hres & ->)].
  - cbn [resolveType] in H.
    destruct (getTypeName (S fuel) defs' d) as [T|e|] eqn:Hname;
      try discriminate.
    cbn [obind] in H.
    destruct (getTypeName_resolved_rev _ _ Hreg _ d d T (or_introl eq_refl) Hname)
      as (f1 & Hf1).
    destruct (String.eqb_spec T "Object") as [->|HT]; cbn [negb] in H.
    + destruct (Def.type d) as [n|o] eqn:Hty.
      * destruct (find (matchesIdentifier n) defs') as [e'|] eqn:Hfind;
          [|discriminate].
        cbn [deref] in H.
        destruct (find_resolved_rev _ _ _ _ Hreg Hfind) as (e & He & Hee).
        destruct (IH _ _ _ Hee H) as (f2 & Hf2).
        exists (S (Nat.max f1 f2)). cbn [resolveType].
        rewrite (getTypeName_mono _ _ _ _ Hf1) by lia.
        cbn [obind String.eqb Ascii.eqb Bool.eqb negb].
        rewrite Hty, He. cbn [deref].
        apply (resolveType_mono _ _ _ _ Hf2). lia.
      * inversion H; subst. exists (S f1). cbn [resolveType].
        rewrite (getTypeName_mono _ _ _ _ Hf1) by lia.
        cbn [obind String.eqb Ascii.eqb Bool.eqb negb]. now rewrite Hty.
    + inversion H; subst. exists f1. now apply resolveType_of_name.
  - assert (Hfwd : resolveType f0 defs' (Def.set_type d ty0) = Return ty0).
    { apply (resolveType_resolved defs defs' Hreg f0 d); [|assumption].
      right. eauto. }
    rewrite (resolveType_det _ _ _ _ _ _ H Hfwd). eauto.
Qed.

Lemma Forall2_nth_error {A B : Type} (R : A -> B -> Prop) (l : list A)
      (l' : list B) (i : nat) (y : B) :
  Forall2 R l l' -> nth_error l' i = Some y ->
  exists x, nth_error l i = Some x /\ R x y.
Proof.
  intros H. revert i. induction H as [|a b l l' Hab _ IH]; intros i Hi.
  - destruct i; discriminate.
  - destruct i as [|i]; simpl in *; [inversion Hi; subst; eauto|auto].
Qed.

Section Resolution.

Variable sha256hex : string -> string.
Variable wordWith : nat -> string.
Variable now : nat -> Z.

Abbreviation Construct := (construct sha256hex wordWith now).
Abbreviation BuildValue := (buildValue sha256hex wordWith now).

Lemma buildValue_rel (R : World -> World -> Prop) (new : Constructor)
      identifier definition ty this_type value w w' r :
  (forall w, R w w) ->
  (forall a b c, R a b -> R b c -> R a c) ->
  (forall w, R w (tickClock w)) ->
  (forall w, R w (drawRandom w)) ->
  (forall identifier value version w w' r,
      new identifier value version w = (w', r) -> R w w') ->
  BuildValue new identifier definition ty this_type value w = (w', r) ->
  R w w'.
Proof.
  intros R_refl R_trans R_tick R_draw Hnew H.
  destruct (isAttestableValue value) eqn:Hatt.
  - apply (buildValue_commitment_rel sha256hex wordWith now R new identifier
             definition ty this_type value w w' r R_refl R_trans Hatt);
      [|exact H].
    intros parsed fid p w1 w2 r1 _ _. apply Hnew.
  - unfold buildValue in H. rewrite Hatt in H.
    destruct (isValueOfType value this_type).
    + destruct (negb (isValid value this_type definition));
        inversion H; subst; eauto.
    + destruct ty as [n|o]; [pure_step H; apply R_refl|].
      destruct (properties o) as [|pr prs] eqn:Hprops;
        [pure_step H; apply R_refl|].
      bind_cases H; pure_step Hc; try apply R_refl.
      destruct (negb a); [pure_step H; apply R_refl|].
      destruct (collectionEntries value) as [entries|];
        [|pure_step H; apply R_refl].
      bind_cases H;
        apply (constructProperties_rel R R_refl R_trans _ _ Hnew) in Hc;
        try pure_step H; assumption.
Qed.

Lemma construct_resolved (defs : list Def.t) (fuel : nat) :
  forall identifier value version w w' r,
    Construct fuel identifier value version w = (w', r) ->
    resolvedRegistry defs (definitions w) ->
    resolvedRegistry defs (definitions w').
Proof.
  induction fuel as [|fuel IH]; intros identifier value version w w' r H Hreg.
  - inversion H; subst. assumption.
  - rewrite construct_S in H.
    destruct (negb _); [inversion H; subst; assumption|].
    destruct (lookupDefinition _ _ _) as [[i d']|] eqn:Hlook;
      [|inversion H; subst; assumption].
    cbv zeta in H.
    destruct (getTypeName _ _ _) as [T|e|];
      try (inversion H; subst; assumption).
    destruct (resolveType _ _ _) as [ty|e|] eqn:Hres;
      try (inversion H; subst; assumption).
    destruct (BuildValue _ _ _ _ _ _ _) as [w2 x] eqn:Hbuild.
    assert (Hw2 : resolvedRegistry defs (definitions w2)).
    { refine (buildValue_rel
                (fun a b => resolvedRegistry defs (definitions a) ->
                            resolvedRegistry defs (definitions b))
                _ _ _ _ _ _ _ _ _
                (fun a Ha => Ha) (fun a b c Hab Hbc Ha => Hbc (Hab Ha))
                (fun a Ha => Ha) (fun a Ha => Ha)
                (fun id v ver w1 w3 r1 Hnew => IH id v ver w1 w3 r1 Hnew)
                Hbuild _).
      cbn [definitions assignType].
      destruct (lookupDefinition_Some _ _ _ _ _ Hlook) as [Hnth _].
      destruct (Forall2_nth_error _ _ _ _ _ Hreg Hnth) as (d & Hd & Hdd).
      destruct (resolveType_resolved_rev _ _ Hreg _ _ _ _ Hdd Hres)
        as (f0 & Hf0).
      exact (resolvedRegistry_assign _ _ _ _ _ _ _ Hreg Hd Hnth Hf0). }
    destruct x as [[[ts v] salt]|e|]; inversion H; subst; exact Hw2.
Qed.

(** X14: constructions do not change what a definition resolves to.  Call
    a registry resolved from the loaded one when each of its records is
    the loaded record, or the loaded record with its [type] overwritten by
    what [resolveType] answered for it at load.  Every construction,
    whatever its inputs and its outcome, takes a registry resolved from
    the loaded one to a registry resolved from the loaded one; and on such
    a registry [getTypeName] and [resolveType] answer for every record
    what they answered for the loaded record, and nothing else. *)
Theorem construct_keeps_resolution (defs : list Def.t) (fuel : nat)
        (identifier : string) (value : JsVal) (version : option string)
        (w w' : World) (r : Outcome Inst.t) :
  resolvedRegistry defs (definitions w) ->
  Construct fuel identifier value version w = (w', r) ->
  resolvedRegistry defs (definitions w')
  /\ forall i d d',
      nth_error defs i = Some d ->
      nth_error (definitions w') i = Some d' ->
      (forall fuel0 T, getTypeName fuel0 defs d = Return T ->
                       getTypeName fuel0 (definitions w') d' = Return T)
      /\ (forall fuel0 ty, resolveType fuel0 defs d = Return ty ->
                           resolveType fuel0 (definitions w') d' = Return ty)
      /\ (forall fuel0 T, getTypeName fuel0 (definitions w') d' = Return T ->
                          exists fuel1, getTypeName fuel1 defs d = Return T)
      /\ (forall fuel0 ty, resolveType fuel0 (definitions w') d' = Return ty ->
                           exists fuel1, resolveType fuel1 defs d = Return ty).
Proof.
  intros Hreg H.
  pose proof (construct_resolved defs fuel _ _ _ _ _ _ H Hreg) as Hreg'.
  split; [assumption|]. intros i d d' Hd Hd'.
  destruct (Forall2_nth_error _ _ _ _ _ Hreg' Hd') as (d0 & Hd0 & Hdd).
  rewrite Hd in Hd0. inversion Hd0; subst d0.
  repeat split.
  - intros fuel0 T. now apply getTypeName_resolved.
  - intros fuel0 ty. now apply resolveType_resolved.
  - intros fuel0 T. now apply getTypeName_resolved_rev.
  - intros fuel0 ty. now apply resolveType_resolved_rev.
Qed.

End Resolution.

Lemma construct_keeps_resolution_witness :
  exists w' r,
    sampleConstruct 3 "ns:Identity:person" (VObj (annAged 42)) None sampleWorld
    = (w', r)
    /\ definitions w' <> definitions sampleWorld
    /\ resolvedRegistry sampleDefinitions (definitions w').
Proof.
  destruct (sampleConstruct 3 "ns:Identity:person" (VObj (annAged 42)) None
                            sampleWorld) as [w' r] eqn:E.
  exists w', r. split; [reflexivity|]. split.
  - vm_compute in E. inversion E. discriminate.
  - exact (proj1 (construct_keeps_resolution
                    sampleDigest sampleWord sampleClock sampleDefinitions 3
                    "ns:Identity:person" (VObj (annAged 42)) None sampleWorld
                    w' r (resolvedRegistry_refl sampleDefinitions) E)).
Defined.

(** ** Disclosure *)

Lemma getAttestableValues_Obj (defs : list Def.t) timestamp id identifier
      version children salt :
  getAttestableValues
    defs (Inst.Build timestamp id identifier version "Object"
                     (Inst.Obj children) salt)
  = deref (find (matchesInstance identifier version) defs)
          (fun def =>
             if Def.credentialItem def || Def.attestable def then
               obind (getAttestableValue
                        (Inst.Build timestamp id identifier version "Object"
                                    (Inst.Obj children) salt))
                     (fun c => forEachKey (keys children)
                                          (collectChildren defs children)
                                          [(identifier, c)])
             else Return []).
Proof.
  cbn [getAttestableValues Inst.identifier Inst.version Inst.type Inst.value].
  destruct (find _ defs) as [def|]; [|reflexivity]. cbn [deref].
  destruct (_ || _); [|reflexivity].
  destruct (getAttestableValue _) as [c|e|]; try reflexivity.
  cbn [obind String.eqb Ascii.eqb Bool.eqb]. f_equal.
  unfold collectChildren.
  induction children as [|[k child] rest IH]; [reflexivity|].
  cbn [map fst snd]. f_equal. exact IH.
Qed.

Lemma assoc_collectChildren (defs : list Def.t) (k : string)
      (children : list (string * Inst.t)) :
  assoc k (collectChildren defs children)
  = option_map (getAttestableValues defs) (assoc k children).
Proof.
  induction children as [|[k' child] rest IH]; simpl; [reflexivity|].
  destruct (String.eqb k k'); [reflexivity|exact IH].
Qed.

Lemma pushEach_short {A : Type} (values l : list A) :
  (List.length l <= 1)%nat -> pushEach values l = Return (values ++ l)%list.
Proof.
  destruct l as [|a [|b l]]; simpl; intros H.
  - now rewrite app_nil_r.
  - reflexivity.
  - lia.
Qed.

Lemma pushEach_Return_inv {A : Type} (values l out : list A) :
  pushEach values l = Return out ->
  (List.length l <= 1)%nat /\ out = (values ++ l)%list.
Proof.
  destruct l as [|a [|b l]]; simpl; intros H; inversion H; subst.
  - rewrite app_nil_r. auto.
  - auto.
Qed.

Lemma forEachKey_concat (collected : list (string * Outcome (list (string * string))))
      (ks : list string) (ls : list (list (string * string))) :
  Forall2 (fun k l => assoc k collected = Some (Return l)
                      /\ (List.length l <= 1)%nat) ks ls ->
  forall values,
    forEachKey ks collected values = Return (values ++ List.concat ls)%list.
Proof.
  induction 1 as [|k l ks ls [Hk Hl] _ IH]; intros values; simpl.
  - now rewrite app_nil_r.
  - rewrite Hk. cbn [obind]. rewrite (pushEach_short _ _ Hl). cbn [obind].
    rewrite IH. now rewrite app_assoc.
Qed.

Lemma forEachKey_Return_inv (collected : list (string * Outcome (list (string * string))))
      (ks : list string) :
  forall values out,
    forEachKey ks collected values = Return out ->
    exists ls,
      Forall2 (fun k l => assoc k collected = Some (Return l)
                          /\ (List.length l <= 1)%nat) ks ls
      /\ out = (values ++ List.concat ls)%list.
Proof.
  induction ks as [|k ks IH]; intros values out H; simpl in H.
  - inversion H; subst. exists []. split; [constructor|].
    simpl. now rewrite app_nil_r.
  - destruct (assoc k collected) as [[l|e|]|] eqn:Hk; try discriminate.
    cbn [obind] in H.
    destruct (pushEach values l) as [values'|e|] eqn:Hpush; try discriminate.
    cbn [obind] in H.
    apply pushEach_Return_inv in Hpush as [Hl ->].
    destruct (IH _ _ H) as (ls & Hls & ->).
    exists (l :: ls). split; [constructor; auto|].
    simpl. now rewrite app_assoc.
Qed.

Lemma assoc_NoDup {A : Type} (l : list (string * A)) (k : string) (a : A) :
  NoDup (keys l) -> In (k, a) l -> assoc k l = Some a.
Proof.
  induction l as [|[k' a'] l IH]; simpl; intros Hnd Hin; [contradiction|].
  inversion Hnd as [|? ? Hnotin Hnd']; subst.
  destruct Hin as [E|Hin].
  - inversion E; subst. now rewrite String.eqb_refl.
  - destruct (String.eqb_spec k k') as [->|_]; [|auto].
    elim Hnotin. unfold keys. change k' with (fst (k', a)).
    now apply in_map.
Qed.

Lemma collectChildren_Forall2 (defs : list Def.t) (all : list (string * Inst.t)) :
  forall children ls,
    (forall kv, In kv children -> assoc (fst kv) all = Some (snd kv)) ->
    Forall2 (fun kv l => getAttestableValues defs (snd kv) = Return l
                         /\ (List.length l <= 1)%nat) children ls ->
    Forall2 (fun k l => assoc k (collectChildren defs all) = Some (Return l)
                        /\ (List.length l <= 1)%nat) (keys children) ls.
Proof.
  intros children ls Hassoc Hall. revert Hassoc.
  induction Hall as [|[k ch] l rest ls [Hl Hlen] _ IH]; intros Hassoc;
    [constructor|].
  cbn [keys map fst]. constructor.
  - rewrite assoc_collectChildren.
    pose proof (Hassoc (k, ch) (or_introl eq_refl)) as Hk.
    cbn [fst snd] in *. rewrite Hk. cbn [option_map]. now rewrite Hl.
  - apply IH. intros kv Hin. apply Hassoc. now right.
Qed.

(** X15: what a flagged composite discloses.  Take an instance of type
    ['Object'] whose definition, found by identifier and version, is
    flagged [credentialItem] or [attestable], and whose children each
    disclose at most one pair.  Then [getAttestableValues] returns the
    pair of the instance itself, made of its identifier and its
    commitment, followed by the pairs of the children in the order in
    which the children were inserted (not in the sorted order the
    commitment uses). *)
Theorem getAttestableValues_composite (defs : list Def.t) (this : Inst.t)
        (def : Def.t) (children : list (string * Inst.t)) (c : string)
        (ls : list (list (string * string))) :
  find (matchesInstance (Inst.identifier this) (Inst.version this)) defs
  = Some def ->
  Def.credentialItem def || Def.attestable def = true ->
  Inst.type this = "Object" ->
  Inst.value this = Inst.Obj children ->
  NoDup (keys children) ->
  getAttestableValue this = Return c ->
  Forall2 (fun kv l => getAttestableValues defs (snd kv) = Return l
                       /\ (List.length l <= 1)%nat) children ls ->
  getAttestableValues defs this
  = Return ((Inst.identifier this, c) :: List.concat ls).
Proof.
  destruct this as [ts id identifier version type v salt].
  cbn [Inst.identifier Inst.version Inst.type Inst.value].
  intros Hfind Hflag -> -> Hnd Hc Hall.
  rewrite getAttestableValues_Obj, Hfind. cbn [deref].
  rewrite Hflag, Hc. cbn [obind].
  apply (forEachKey_concat _ _ ls).
  apply collectChildren_Forall2; [|assumption].
  intros [k ch] Hin. now apply assoc_NoDup.
Qed.

(** X16: nested disclosure.  The pairs of a child are pushed with a
    reduction whose accumulator becomes a number after its first step, so
    a child that discloses two pairs or more makes the call throw.
    Hence, when [getAttestableValues] returns on a flagged instance of
    type ['Object'], every child disclosed at most one pair, and the
    result is the pair of the instance followed by those of its children:
    a flagged composite that has a flagged composite child with a flagged
    child of its own is never disclosed. *)
Theorem getAttestableValues_children_bound (defs : list Def.t) (this : Inst.t)
        (def : Def.t) (children : list (string * Inst.t))
        (values : list (string * string)) :
  getAttestableValues defs this = Return values ->
  find (matchesInstance (Inst.identifier this) (Inst.version this)) defs
  = Some def ->
  Def.credentialItem def || Def.attestable def = true ->
  Inst.type this = "Object" ->
  Inst.value this = Inst.Obj children ->
  (forall k ch,
      assoc k children = Some ch ->
      exists l, getAttestableValues defs ch = Return l
                /\ (List.length l <= 1)%nat)
  /\ (List.length values <= 1 + List.length children)%nat
  /\ exists c, getAttestableValue this = Return c
               /\ hd_error values = Some (Inst.identifier this, c).
Proof.
  destruct this as [ts id identifier version type v salt].
  cbn [Inst.identifier Inst.version Inst.type Inst.value].
  intros H Hfind Hflag -> ->.
  rewrite getAttestableValues_Obj, Hfind in H. cbn [deref] in H.
  rewrite Hflag in H.
  destruct (getAttestableValue _) as [c|e|]; try discriminate.
  cbn [obind] in H.
  destruct (forEachKey_Return_inv _ _ _ _ H) as (ls & Hls & ->).
  split; [|split].
  - intros k ch Hk.
    assert (Hin : In k (keys children)).
    { apply assoc_Some_In in Hk. unfold keys. change k with (fst (k, ch)).
      now apply in_map. }
    clear H. induction Hls as [|k' l ks ls [Hk' Hl] _ IH]; [contradiction|].
    destruct Hin as [->|Hin]; [|auto].
    rewrite assoc_collectChildren, Hk in Hk'. cbn [option_map] in Hk'.
    inversion Hk' as [E]. eauto.
  - cbn [app List.length]. apply le_n_S.
    assert (Hlen : List.length ls = List.length children).
    { apply Forall2_length in Hls. unfold keys in Hls.
      now rewrite length_map in Hls. }
    rewrite <- Hlen. clear - Hls.
    induction Hls as [|k l ks ls [_ Hl] _ IH]; simpl; [lia|].
    rewrite length_app. lia.
  - exists c. split; reflexivity.
Qed.

Lemma getAttestableValues_unflagged (defs : list Def.t) (this : Inst.t)
      (def : Def.t) :
  find (matchesInstance (Inst.identifier this) (Inst.version this)) defs
  = Some def ->
  Def.credentialItem def || Def.attestable def = false ->
  getAttestableValues defs this = Return [].
Proof.
  destruct this as [ts id identifier version type v salt].
  cbn [getAttestableValues Inst.identifier Inst.version].
  intros -> Hflag. cbn [deref]. now rewrite Hflag.
Qed.

Lemma getAttestableValues_single (defs : list Def.t) (this : Inst.t)
      (def : Def.t) (c : string) :
  find (matchesInstance (Inst.identifier this) (Inst.version this)) defs
  = Some def ->
  Def.credentialItem def || Def.attestable def = true ->
  Inst.type this <> "Object" ->
  getAttestableValue this = Return c ->
  getAttestableValues defs this = Return [(Inst.identifier this, c)].
Proof.
  destruct this as [ts id identifier version type v salt].
  cbn [Inst.identifier Inst.version Inst.type]. intros Hfind Hflag Hty Hc.
  cbn [getAttestableValues Inst.identifier Inst.version Inst.type Inst.value].
  rewrite Hfind. cbn [deref]. rewrite Hflag, Hc. cbn [obind].
  destruct (String.eqb_spec type "Object"); [contradiction|reflexivity].
Qed.

Lemma find_matchesInstance_None (defs : list Def.t) (identifier : string) :
  find (matchesInstance identifier None) defs = None.
Proof.
  induction defs as [|d defs IH]; [reflexivity|].
  cbn [find]. unfold matchesInstance at 1. now rewrite andb_false_r.
Qed.

Lemma getAttestableValues_no_version (defs : list Def.t) (this : Inst.t) :
  Inst.version this = None ->
  getAttestableValues defs this = Throw TypeError.
Proof.
  destruct this as [ts id identifier version type v salt].
  cbn [Inst.version]. intros ->.
  cbn [getAttestableValues Inst.identifier Inst.version].
  now rewrite find_matchesInstance_None.
Qed.

Lemma findIndexed_find {A : Type} (p : A -> bool) (l : list A) (i : nat) (x : A) :
  findIndexed p l = Some (i, x) -> find p l = Some x.
Proof.
  revert i. induction l as [|a l IH]; intros i H; simpl in *; [discriminate|].
  destruct (p a); [now inversion H|].
  destruct (findIndexed p l) as [[j y]|]; [|discriminate].
  inversion H; subst. eauto.
Qed.

Lemma find_ext {A : Type} (p q : A -> bool) (l : list A) :
  (forall x, p x = q x) -> find p l = find q l.
Proof.
  intros H. induction l as [|a l IH]; simpl; [reflexivity|].
  now rewrite H, IH.
Qed.

(** The record the constructor worked on is the one a later search by the
    identifier and the version of the instance finds, provided the
    instance has a version. *)
Lemma find_matchesInstance (defs : list Def.t) (identifier : string)
      (version : option string) (i : nat) (d : Def.t) (v : string) :
  lookupDefinition identifier version defs = Some (i, d) ->
  (if truthyStr version then version else Def.version d) = Some v ->
  find (matchesInstance identifier (Some v)) defs = Some d.
Proof.
  intros Hlook Hv.
  assert (Hcases : (truthyStr version = true /\ version = Some v
                    /\ findIndexed (matchesIdentifierVersion identifier v) defs
                       = Some (i, d))
                   \/ (Def.version d = Some v
                       /\ findIndexed (matchesIdentifier identifier) defs
                          = Some (i, d))).
  { unfold lookupDefinition in Hlook. destruct version as [v'|].
    - destruct (truthyStr (Some v')) eqn:Ht.
      + inversion Hv; subst. auto.
      + auto.
    - cbn in Hv. auto. }
  destruct Hcases as [(_ & _ & Hfind)|(Hd & Hfind)].
  - apply findIndexed_find in Hfind. rewrite <- Hfind. apply find_ext.
    intros x. unfold matchesInstance, matchesIdentifierVersion.
    destruct (Def.version x); reflexivity.
  - apply (findIndexed_find _ _ i).
    apply (findIndexed_stronger (matchesIdentifier identifier)); try assumption.
    + intros y Hy. unfold matchesInstance in Hy.
      now apply andb_true_iff in Hy as [Hy _].
    + apply findIndexed_Some in Hfind as [_ Hp].
      unfold matchesInstance. unfold matchesIdentifier in Hp.
      now rewrite Hp, Hd, String.eqb_refl.
Qed.

Lemma typeRefined_matchesInstance (identifier : string) (version : option string)
      (a b : Def.t) :
  typeRefined a b -> matchesInstance identifier version b
                     = matchesInstance identifier version a.
Proof. intros [-> _]. reflexivity. Qed.

Section Disclosure.

Variable sha256hex : string -> string.
Variable wordWith : nat -> string.
Variable now : nat -> Z.

Abbreviation Construct := (construct sha256hex wordWith now).

(** X17: disclosure of a constructed instance.  [getAttestableValues]
    looks the definition up again, by the identifier and the version of
    the instance, in the registry as it is at the time of the call; the
    type assignments of the constructions in between do not matter.  If
    the instance has no version (none was given and the definition has
    none) the search finds nothing and the call throws a [TypeError].
    Otherwise it finds the record the constructor worked on: the call
    returns no pair when that definition is flagged neither
    [credentialItem] nor [attestable], and exactly the pair of identifier
    and commitment when it is flagged and the type is not ['Object']. *)
Theorem getAttestableValues_constructed (fuel : nat) (identifier : string)
        (value : JsVal) (version : option string) (w w' : World) (u : Inst.t)
        (i : nat) (d : Def.t) (defs : list Def.t) :
  Construct fuel identifier value version w = (w', Return u) ->
  lookupDefinition identifier version (definitions w) = Some (i, d) ->
  registryRefined (definitions w) defs ->
  (Inst.version u = None -> getAttestableValues defs u = Throw TypeError)
  /\ (Inst.version u <> None ->
      Def.credentialItem d || Def.attestable d = false ->
      getAttestableValues defs u = Return [])
  /\ (Inst.version u <> None ->
      Def.credentialItem d || Def.attestable d = true ->
      Inst.type u <> "Object" ->
      exists c, getAttestableValue u = Return c
                /\ getAttestableValues defs u = Return [(identifier, c)]).
Proof.
  intros H Hlook Hdefs.
  destruct (construct_committed _ _ _ _ _ _ _ _ _ _ H) as (c & Hc & Hid & _).
  destruct (construct_Return_inv _ _ _ _ _ _ _ _ _ _ H)
    as (fuel' & i' & d' & T & ty & ts & v & salt & c'
        & -> & Hlook' & _ & _ & _ & _ & Hu).
  rewrite Hlook in Hlook'. inversion Hlook'; subst i' d'. clear Hlook'.
  assert (Hver : Inst.version u
                 = if truthyStr version then version else Def.version d)
    by (rewrite Hu; reflexivity).
  split; [apply getAttestableValues_no_version|].
  assert (Hfound : Inst.version u <> None ->
                   exists d', find (matchesInstance (Inst.identifier u)
                                                    (Inst.version u)) defs
                              = Some d'
                              /\ typeRefined d d').
  { intros Hsome. destruct (Inst.version u) as [v0|] eqn:Ev; [|now elim Hsome].
    rewrite Hid.
    pose proof (find_matchesInstance _ _ _ _ _ _ Hlook (eq_sym Hver)) as Hfind.
    destruct (find_Forall2 typeRefined _ _ _ _ Hdefs
                           (typeRefined_matchesInstance identifier (Some v0))
                           Hfind) as (d' & Hd' & Hdd).
    eauto. }
  split; intros Hsome Hflag.
  - destruct (Hfound Hsome) as (d' & Hd' & [E _]).
    apply (getAttestableValues_unflagged _ _ _ Hd').
    rewrite E. exact Hflag.
  - intros Hty. destruct (Hfound Hsome) as (d' & Hd' & [E _]).
    exists c. split; [assumption|]. rewrite <- Hid.
    apply (getAttestableValues_single _ _ _ _ Hd'); try assumption.
    rewrite E. exact Hflag.
Qed.

End Disclosure.

Lemma getAttestableValues_composite_witness :
  exists w u,
    sampleConstruct 4 "ns:Identity:household" (householdOf "first") None
                    flaggedWorld
    = (w, Return u)
    /\ getAttestableValues (definitions w) u
       = Return [("ns:Identity:household",
                  "urn:first:ab12:Ann||urn:street:ab12:Main|");
                 ("ns:Identity:contact", "urn:first:ab12:Ann|");
                 ("ns:Address:street", "urn:street:ab12:Main")].
Proof.
  destruct (sampleConstruct 4 "ns:Identity:household" (householdOf "first")
                            None flaggedWorld)
    as [w [u|e|]] eqn:E; [|vm_compute in E; discriminate..].
  exists w, u. split; [reflexivity|].
  vm_compute in E. inversion E; subst w u. clear E.
  match goal with
  | |- getAttestableValues ?defs ?this = _ =>
      eapply (getAttestableValues_composite
               defs this
               (flaggedDefinition "ns:Identity:household" (Some "1")
                                  (TypeSchema householdSchema) true false)
               _ "urn:first:ab12:Ann||urn:street:ab12:Main|"
               [[("ns:Identity:contact", "urn:first:ab12:Ann|")];
                [("ns:Address:street", "urn:street:ab12:Main")]])
  end; try reflexivity.
  - repeat constructor; simpl; intuition discriminate.
  - repeat constructor.
Defined.

Lemma getAttestableValues_children_bound_witness :
  exists w u,
    sampleConstruct 4 "ns:Identity:household" (householdOf "first") None
                    flaggedWorld
    = (w, Return u)
    /\ (exists values, getAttestableValues (definitions w) u = Return values
                       /\ (List.length values <= 3)%nat)
    /\ exists w' u',
        sampleConstruct 4 "ns:Identity:household" (householdOf "nick") None
                        flaggedWorld
        = (w', Return u')
        /\ getAttestableValues (definitions w') u' = Throw TypeError.
Proof.
  destruct (sampleConstruct 4 "ns:Identity:household" (householdOf "first")
                            None flaggedWorld)
    as [w [u|e|]] eqn:E; [|vm_compute in E; discriminate..].
  exists w, u. split; [reflexivity|].
  vm_compute in E. inversion E; subst w u. clear E. split.
  - match goal with
    | |- exists values, getAttestableValues ?defs ?this = Return values /\ _ =>
        destruct (getAttestableValues defs this) as [values|e|] eqn:Ev;
        [|vm_compute in Ev; discriminate..];
        epose proof (getAttestableValues_children_bound
                       defs this
                       (flaggedDefinition "ns:Identity:household" (Some "1")
                                          (TypeSchema householdSchema)
                                          true false)
                       _ values Ev eq_refl eq_refl eq_refl eq_refl)
          as (_ & Hbound & _)
    end.
    exists values. split; [reflexivity|exact Hbound].
  - eexists _, _. split; vm_compute; reflexivity.
Defined.

Lemma getAttestableValues_constructed_witness :
  exists w u,
    sampleConstruct 2 "ns:Name:alias" (VStr "x") None flaggedWorld
    = (w, Return u)
    /\ getAttestableValues (definitions w) u = Throw TypeError.
Proof.
  destruct (sampleConstruct 2 "ns:Name:alias" (VStr "x") None flaggedWorld)
    as [w [u|e|]] eqn:E; [|vm_compute in E; discriminate..].
  exists w, u. split; [reflexivity|].
  refine (proj1 (getAttestableValues_constructed
                   sampleDigest sampleWord sampleClock 2 "ns:Name:alias"
                   (VStr "x") None flaggedWorld w u 5
                   (flaggedDefinition "ns:Name:alias" None (TypeName "String")
                                      true true)
                   (definitions w) E eq_refl _) _).
  - exact (construct_frame sampleDigest sampleWord sampleClock 2 _ _ _ _ _ _ E).
  - vm_compute in E. inversion E. reflexivity.
Defined.

(** ** Flattening *)

Lemma getPlainValue_Obj timestamp id identifier version type children salt
      (propName : option string) :
  isLeafType type = false ->
  getPlainValue
    (Inst.Build timestamp id identifier version type (Inst.Obj children) salt)
    propName
  = obind (plainResults (sortBy (keys children)) (flattenChildren children))
          (fun result => Return (Flat (fold_left assignPlain result []))).
Proof.
  intros H. cbn [getPlainValue Inst.type Inst.value]. rewrite H.
  f_equal. f_equal. unfold flattenChildren.
  induction children as [|[k child] rest IH]; [reflexivity|].
  cbn [map fst snd]. f_equal. exact IH.
Qed.

Lemma getPlainValue_named_leaf (this : Inst.t) (k : string) :
  isLeafType (Inst.type this) = true ->
  k <> "" ->
  getPlainValue this (Some k) = Return (Flat [(k, PlainValue (Inst.value this))]).
Proof.
  destruct this as [ts id identifier version type v salt].
  cbn [Inst.type Inst.value]. intros H Hk.
  cbn [getPlainValue Inst.type Inst.value]. rewrite H.
  cbn [truthyStr optToString].
  destruct (String.eqb_spec k ""); [contradiction|reflexivity].
Qed.

Lemma assoc_flattenChildren (k : string) (children : list (string * Inst.t)) :
  assoc k (flattenChildren children)
  = option_map (fun ch => getPlainValue ch (Some k)) (assoc k children).
Proof.
  induction children as [|[k' child] rest IH]; simpl; [reflexivity|].
  destruct (String.eqb_spec k k') as [->|_]; [reflexivity|exact IH].
Qed.

(** The results the first loop collects when every child is a leaf under
    a non-empty key: one object of one entry per key. *)
Lemma plainResults_leaves (children : list (string * Inst.t)) (ks : list string) :
  (forall k, In k ks ->
             exists ch, assoc k children = Some ch
                        /\ k <> ""
                        /\ isLeafType (Inst.type ch) = true) ->
  exists entries,
    keys entries = ks
    /\ Forall (fun ke => exists ch, assoc (fst ke) children = Some ch
                                    /\ snd ke = PlainValue (Inst.value ch))
              entries
    /\ plainResults ks (flattenChildren children)
       = Return (map (fun ke => Flat [ke]) entries).
Proof.
  induction ks as [|k ks IH]; intros Hks.
  - exists []. repeat split. constructor.
  - destruct IH as (entries & Hkeys & Hall & Hres);
      [intros k' Hk'; apply Hks; now right|].
    destruct (Hks k (or_introl eq_refl)) as (ch & Hch & Hk & Hleaf).
    exists ((k, PlainValue (Inst.value ch)) :: entries).
    split; [change (k :: keys entries = k :: ks); now rewrite Hkeys|].
    split; [constructor; [exists ch; auto|assumption]|].
    cbn [plainResults]. rewrite assoc_flattenChildren, Hch. cbn [option_map].
    rewrite (getPlainValue_named_leaf _ _ Hleaf Hk). cbn [obind].
    rewrite Hres. reflexivity.
Qed.

Lemma fold_assignPlain_entries (entries acc : list (string * PlainEntry)) :
  NoDup (keys (acc ++ entries)%list) ->
  fold_left assignPlain (map (fun ke => Flat [ke]) entries) acc
  = (acc ++ entries)%list.
Proof.
  revert acc. induction entries as [|[k e] entries IH]; intros acc Hnd.
  - simpl. now rewrite app_nil_r.
  - cbn [map fold_left]. unfold assignPlain at 2. cbn [fold_left fst snd].
    assert (Hfresh : ~ In k (keys acc)).
    { unfold keys in *. rewrite map_app in Hnd. cbn [map fst] in Hnd.
      apply NoDup_remove_2 in Hnd. intros Hin. apply Hnd.
      apply in_or_app. now left. }
    rewrite (assign_fresh _ _ _ Hfresh), IH; rewrite <- app_assoc;
      [reflexivity|exact Hnd].
Qed.

Lemma ordinaryKey_nonempty (k : string) : ordinaryKey k = true -> k <> "".
Proof. intros H ->. discriminate. Qed.

Lemma getPlainValue_of_leaves (this : Inst.t)
      (children : list (string * Inst.t)) (propName : option string) :
  isLeafType (Inst.type this) = false ->
  Inst.value this = Inst.Obj children ->
  NoDup (keys children) ->
  (forall k ch, assoc k children = Some ch ->
                k <> "" /\ isLeafType (Inst.type ch) = true) ->
  exists entries,
    getPlainValue this propName = Return (Flat entries)
    /\ keys entries = sortBy (keys children)
    /\ Forall (fun ke => exists ch, assoc (fst ke) children = Some ch
                                    /\ snd ke = PlainValue (Inst.value ch))
              entries.
Proof.
  destruct this as [ts id identifier version type v salt].
  cbn [Inst.type Inst.value]. intros Hty -> Hnd Hall.
  destruct (plainResults_leaves children (sortBy (keys children)))
    as (entries & Hkeys & Hentries & Hres).
  { intros k Hk.
    apply (Permutation_in _ (sortBy_Permutation (keys children))) in Hk.
    destruct (assoc_In_keys _ _ Hk) as (ch & Hch). exists ch.
    split; [assumption|]. exact (Hall _ _ Hch). }
  exists entries. split; [|split; assumption].
  rewrite (getPlainValue_Obj _ _ _ _ _ _ _ _ Hty), Hres. cbn [obind].
  rewrite fold_assignPlain_entries; [reflexivity|].
  cbn [app]. rewrite Hkeys.
  exact (Permutation_NoDup (Permutation_sym (sortBy_Permutation _)) Hnd).
Qed.

Lemma primitive_not_attestable (v : JsVal) :
  isString v || isNumber v || isBoolean v = true ->
  isAttestableValue v = false.
Proof.
  destruct v as [| |b|n|s|fields]; try discriminate; intros _;
    unfold isAttestableValue; cbn [getProp truthy]; apply andb_false_r.
Qed.

(** X18: the plain value of a flat composite.  Take an instance that is
    not of a leaf type and whose children, all of a leaf type, are stored
    under distinct keys that are ordinary property names (not empty, not
    made of digits, not [length], not a name of [Object.prototype]).
    Then [getPlainValue] returns an object whose keys are the keys of the
    children in ascending order and which holds, under each key, the
    [value] of that child; the property name it is called with plays no
    part, and the identifiers of the children do not appear. *)
Theorem getPlainValue_flat (this : Inst.t) (children : list (string * Inst.t))
        (propName : option string) :
  isLeafType (Inst.type this) = false ->
  Inst.value this = Inst.Obj children ->
  NoDup (keys children) ->
  Forall (fun kv => ordinaryKey (fst kv) = true
                    /\ isLeafType (Inst.type (snd kv)) = true) children ->
  exists entries,
    getPlainValue this propName = Return (Flat entries)
    /\ getPlainValue this None = Return (Flat entries)
    /\ keys entries = sortBy (keys children)
    /\ Forall (fun ke => exists ch, assoc (fst ke) children = Some ch
                                    /\ snd ke = PlainValue (Inst.value ch))
              entries.
Proof.
  intros Hty Hv Hnd Hall.
  assert (Hleaves : forall k ch, assoc k children = Some ch ->
                                 k <> "" /\ isLeafType (Inst.type ch) = true).
  { intros k ch Hch. rewrite Forall_forall in Hall.
    destruct (Hall _ (assoc_Some_In _ _ _ Hch)) as [Hk Hleaf].
    split; [exact (ordinaryKey_nonempty _ Hk)|exact Hleaf]. }
  destruct (getPlainValue_of_leaves this children propName Hty Hv Hnd Hleaves)
    as (entries & Hres & Hkeys & Hentries).
  destruct (getPlainValue_of_leaves this children None Hty Hv Hnd Hleaves)
    as (entries' & Hres' & Hkeys' & Hentries').
  exists entries. repeat split; try assumption.
  rewrite Hres'. f_equal. f_equal.
  destruct this as [ts id identifier version type v salt].
  cbn [Inst.type Inst.value] in *. subst v.
  rewrite (getPlainValue_Obj _ _ _ _ _ _ _ propName Hty) in Hres.
  rewrite (getPlainValue_Obj _ _ _ _ _ _ _ None Hty) in Hres'.
  congruence.
Qed.

Section Flattening.

Variable sha256hex : string -> string.
Variable wordWith : nat -> string.
Variable now : nat -> Z.

Abbreviation Construct := (construct sha256hex wordWith now).

(** X19: from a mapping and back.  Construct an instance from a mapping
    (not the wrapper of a commitment) whose keys are distinct ordinary
    property names (not empty, not made of digits, not [length], not a
    name of [Object.prototype]) and whose values are strings, numbers or
    booleans, and let every child of the instance be of a leaf type.
    Then the plain value of the instance is the mapping again, with its
    keys in ascending order: under each key it holds the raw value that
    was given. *)
Theorem getPlainValue_constructed (fuel : nat) (identifier : string)
        (fields : list (string * JsVal)) (version : option string)
        (w w' : World) (u : Inst.t) :
  Construct fuel identifier (VObj fields) version w = (w', Return u) ->
  isAttestableValue (VObj fields) = false ->
  NoDup (keys fields) ->
  Forall (fun kv => ordinaryKey (fst kv) = true
                    /\ (isString (snd kv) || isNumber (snd kv)
                        || isBoolean (snd kv)) = true) fields ->
  (forall k ch, child u k = Some ch -> isLeafType (Inst.type ch) = true) ->
  exists entries,
    getPlainValue u None = Return (Flat entries)
    /\ keys entries = sortBy (keys fields)
    /\ Forall (fun ke => exists v, assoc (fst ke) fields = Some v
                                   /\ snd ke = PlainValue (primitive v))
              entries.
Proof.
  intros H Hatt Hnd Hfields Hleaves.
  destruct (construct_composite_shape _ _ _ _ _ _ _ _ _ _ H Hatt)
    as (pairs0 & Hty & _).
  destruct (construct_Return_inv _ _ _ _ _ _ _ _ _ _ H)
    as (fuel' & i & d & T & ty & ts & v & salt & c
        & -> & Hlook & Hname & Hres & Hbuild & Hc & ->).
  destruct (buildValue_composite_inv _ _ _ _ _ _ _ _ _ _ _ _ Hatt
              (isValueOfType_VObj _ _) Hbuild)
    as (o & entries0 & pairs & -> & _ & _ & Hentries0 & Hloop & E).
  inversion Hentries0; subst entries0. inversion E; subst. clear E Hentries0.
  cbn [Inst.type] in Hty. subst T.
  destruct (constructProperties_committed _ _ _ _ _ _ _ _ _ Hloop)
    as [Hkeys _].
  assert (Hnd' : NoDup (keys pairs)) by now rewrite Hkeys.
  rewrite (keyBy_NoDup _ Hnd') in *.
  rewrite Forall_forall in Hfields.
  assert (Hchild : forall k ch,
             assoc k pairs = Some ch ->
             exists val, assoc k fields = Some val
                         /\ k <> ""
                         /\ isLeafType (Inst.type ch) = true
                         /\ Inst.value ch = primitive val).
  { intros k ch Hk.
    pose proof (Hleaves k ch Hk) as Hleaf.
    assert (Hk' : assoc k (keyBy pairs) = Some ch)
      by now rewrite (keyBy_NoDup _ Hnd').
    destruct (constructProperties_children _ _ _ _ _ _ _ _ Hloop Hk')
      as (val & p & w1 & w2 & Hin & _ & Hnew).
    destruct (Hfields _ Hin) as [Hne Hprim]. cbn [fst snd] in *.
    apply ordinaryKey_nonempty in Hne.
    exists val. split; [now apply assoc_NoDup|]. split; [assumption|].
    split; [assumption|].
    assert (Hof : isValueOfType val (Inst.type ch) = true).
    { apply (construct_mismatch_inv _ _ _ _ _ _ _ _ _ _ Hnew).
      - now apply primitive_not_attestable.
      - intros Eo. rewrite Eo in Hleaf. discriminate. }
    now destruct (construct_raw_inv _ _ _ _ _ _ _ _ _ _ Hnew Hof) as (_ & Hv & _). }
  destruct (getPlainValue_of_leaves
              (Inst.Build None
                          (optToString (if truthyStr version then version
                                        else Def.version d)
                           ++ ":" ++ identifier ++ ":" ++ sha256hex c)%string
                          identifier
                          (if truthyStr version then version else Def.version d)
                          "Object" (Inst.Obj pairs) None)
              pairs None eq_refl eq_refl Hnd')
    as (entries & Hplain & Hek & Hall).
  { intros k ch Hk. destruct (Hchild k ch Hk) as (val & _ & Hne & Hleaf & _).
    auto. }
  exists entries. split; [exact Hplain|]. split; [now rewrite Hek, Hkeys|].
  eapply Forall_impl; [|exact Hall].
  intros [k e] (ch & Hch & He). cbn [fst snd] in *.
  destruct (Hchild k ch Hch) as (val & Hval & _ & _ & Hv).
  exists val. split; [assumption|]. now rewrite He, Hv.
Qed.

End Flattening.

Lemma getPlainValue_flat_witness :
  exists entries,
    getPlainValue
      (Inst.Build None "" "ns:Identity:person" (Some "1") "Object"
                  (Inst.Obj
                     [("first",
                       Inst.Build None "" "ns:Name:first" (Some "1") "String"
                                  (Inst.Str "Ann") (Some "ab12"));
                      ("age",
                       Inst.Build None "" "ns:Person:age" (Some "1") "Number"
                                  (Inst.Num 42) (Some "ab12"))])
                  None)
      (Some "person")
    = Return (Flat entries)
    /\ keys entries = ["age"; "first"].
Proof.
  destruct (getPlainValue_flat
              (Inst.Build None "" "ns:Identity:person" (Some "1") "Object"
                          (Inst.Obj
                             [("first",
                               Inst.Build None "" "ns:Name:first" (Some "1")
                                          "String" (Inst.Str "Ann")
                                          (Some "ab12"));
                              ("age",
                               Inst.Build None "" "ns:Person:age" (Some "1")
                                          "Number" (Inst.Num 42)
                                          (Some "ab12"))])
                          None)
              _ (Some "person") eq_refl eq_refl)
    as (entries & Hres & _ & Hkeys & _).
  - repeat constructor; simpl; intuition discriminate.
  - repeat constructor; discriminate.
  - exists entries. split; [exact Hres|exact Hkeys].
Defined.

Lemma getPlainValue_constructed_witness :
  exists w u entries,
    sampleConstruct 3 "ns:Identity:person" (VObj (annAged 42)) None sampleWorld
    = (w, Return u)
    /\ getPlainValue u None = Return (Flat entries)
    /\ keys entries = ["age"; "first"].
Proof.
  destruct (sampleConstruct 3 "ns:Identity:person" (VObj (annAged 42)) None
                            sampleWorld) as [w [u|e|]] eqn:E;
    [|vm_compute in E; discriminate..].
  destruct (getPlainValue_constructed
              sampleDigest sampleWord sampleClock 3 "ns:Identity:person"
              (annAged 42) None sampleWorld w u E eq_refl)
    as (entries & Hres & Hkeys & _).
  - repeat constructor; simpl; intuition discriminate.
  - repeat constructor; discriminate.
  - vm_compute in E. inversion E; subst w u. clear E.
    intros k ch. cbn [child Inst.value assoc].
    destruct (String.eqb k "first"); [intros Hk; inversion Hk; reflexivity|].
    destruct (String.eqb k "age"); [intros Hk; inversion Hk; reflexivity|].
    discriminate.
  - exists w, u, entries. split; [reflexivity|]. split; [exact Hres|exact Hkeys].
Defined.

(** ** What rebuilding does not check *)

Lemma isAttestableValue_commitmentOf (s : string) :
  s <> "" -> isAttestableValue (commitmentOf s) = true.
Proof.
  intros H. unfold isAttestableValue, commitmentOf.
  cbn [truthy getProp assoc andb String.eqb Ascii.eqb Bool.eqb].
  destruct (String.eqb_spec s ""); [contradiction|reflexivity].
Qed.

Lemma parseAttestableValue_commitmentOf (s : string) :
  parseAttestableValue (commitmentOf s) = parseString s.
Proof. reflexivity. Qed.


Section Unchecked.

Variable sha256hex : string -> string.
Variable wordWith : nat -> string.
Variable now : nat -> Z.

Abbreviation Construct := (construct sha256hex wordWith now).
Abbreviation BuildValue := (buildValue sha256hex wordWith now).

(** X20: rebuilding a leaf checks nothing.  For a definition of a leaf
    type, the wrapper of any one-component commitment is accepted: the
    property name in the commitment is not compared with the identifier,
    and the value is neither validated nor checked against the type.  The
    instance holds the value as a string and the salt of the commitment,
    has no timestamp, and its [id] is computed from the commitment it
    renders itself, with the property name of its own identifier. *)
Theorem construct_commitment_unchecked (fuel : nat) (identifier : string)
        (version : option string) (w : World) (i : nat) (d : Def.t)
        (T name salt rest : string) :
  lookupDefinition identifier version (definitions w) = Some (i, d) ->
  getTypeName fuel (definitions w) d = Return T ->
  isLeafType T = true ->
  allWord name = true ->
  allWord salt = true ->
  contains "|" rest = false ->
  let this_version := if truthyStr version then version else Def.version d in
  let own := ("urn:" ++ propertyNameOf identifier ++ ":" ++ salt ++ ":"
              ++ renderedValue T (Inst.Str rest))%string in
  Construct (S fuel) identifier
            (commitmentOf ("urn:" ++ name ++ ":" ++ salt ++ ":" ++ rest))
            version w
  = (assignType i (TypeName T) w,
     Return (Inst.Build None
                        (optToString this_version ++ ":" ++ identifier ++ ":"
                         ++ sha256hex own)%string
                        identifier this_version T (Inst.Str rest) (Some salt))).
Proof.
  intros Hlook Hname Hleaf Hn Hs Hr this_version own.
  rewrite construct_S, (lookupDefinition_includes _ _ _ _ _ Hlook), Hlook.
  cbn [negb]. cbv zeta.
  rewrite Hname, (resolveType_of_leaf _ _ _ _ Hname Hleaf).
  unfold buildValue.
  rewrite isAttestableValue_commitmentOf by discriminate.
  rewrite parseAttestableValue_commitmentOf, (parseString_leaf _ _ _ Hn Hs Hr).
  cbn [lift bind ret Parsed.value Parsed.salt].
  rewrite (getAttestableValue_leaf _ _ _ _ _ _ _ Hleaf). reflexivity.
Qed.

(** X21: a commitment with no component.  A non-empty string without pipe
    that does not match the pattern parses to no component and is not
    rejected; the constructor then takes the branch of composites with
    nothing to loop over.  For every definition, of a leaf type or not,
    the call returns an instance whose [value] is the empty object, with
    no salt; for a leaf type its commitment reads
    [urn:name:undefined:[object Object]]. *)
Theorem construct_unmatched_commitment (fuel : nat) (identifier : string)
        (version : option string) (w : World) (i : nat) (d : Def.t)
        (T : string) (ty : DefType) (s : string) :
  lookupDefinition identifier version (definitions w) = Some (i, d) ->
  getTypeName fuel (definitions w) d = Return T ->
  resolveType fuel (definitions w) d = Return ty ->
  s <> "" ->
  contains "|" s = false ->
  matchesUrn s = false ->
  let this_version := if truthyStr version then version else Def.version d in
  let own := if isLeafType T
             then ("urn:" ++ propertyNameOf identifier
                   ++ ":undefined:[object Object]")%string
             else "" in
  parseAttestableValue (commitmentOf s) = Return []
  /\ Construct (S fuel) identifier (commitmentOf s) version w
     = (assignType i ty w,
        Return (Inst.Build None
                           (optToString this_version ++ ":" ++ identifier
                            ++ ":" ++ sha256hex own)%string
                           identifier this_version T (Inst.Obj []) None)).
Proof.
  intros Hlook Hname Hres Hne Hpipe Hurn this_version own.
  assert (Hparse : parseAttestableValue (commitmentOf s) = Return []).
  { rewrite parseAttestableValue_commitmentOf. unfold parseString.
    rewrite (splitPipes_no_pipe _ Hpipe). cbn [matchedValues].
    unfold matchesUrn in Hurn.
    destruct (execUrn s) as [[[g1 g2] g3]|]; [discriminate|reflexivity]. }
  split; [exact Hparse|].
  rewrite construct_S, (lookupDefinition_includes _ _ _ _ _ Hlook), Hlook.
  cbn [negb]. cbv zeta. rewrite Hname, Hres.
  unfold buildValue.
  rewrite (isAttestableValue_commitmentOf _ Hne), Hparse.
  cbn [lift bind ret reconstructProperties].
  subst own. destruct (isLeafType T) eqn:Hleaf.
  - rewrite (getAttestableValue_leaf _ _ _ _ _ _ _ Hleaf). cbn [obind].
    do 3 f_equal. unfold renderedValue.
    destruct (String.eqb T "Number"); reflexivity.
  - rewrite (getAttestableValue_Obj _ _ _ _ _ _ _ Hleaf). reflexivity.
Qed.

(** X22: several components for a definition without schema.  When the
    commitment parses to two components or more and the definition
    resolves to a type name, the loop over the components reads
    [properties] of that string and calls [find] of [undefined]: the call
    throws a [TypeError], after the type of the definition was
    overwritten. *)
Theorem construct_components_without_schema (fuel : nat) (identifier : string)
        (value : JsVal) (version : option string) (w : World)
        (i : nat) (d : Def.t) (T n : string) (p q : Parsed.t)
        (rest : list Parsed.t) :
  lookupDefinition identifier version (definitions w) = Some (i, d) ->
  getTypeName fuel (definitions w) d = Return T ->
  resolveType fuel (definitions w) d = Return (TypeName n) ->
  isAttestableValue value = true ->
  parseAttestableValue value = Return (p :: q :: rest) ->
  Construct (S fuel) identifier value version w
  = (assignType i (TypeName n) w, Throw TypeError).
Proof.
  intros Hlook Hname Hres Hatt Hparse.
  rewrite construct_S, (lookupDefinition_includes _ _ _ _ _ Hlook), Hlook.
  cbn [negb]. cbv zeta. rewrite Hname, Hres.
  unfold buildValue. rewrite Hatt, Hparse. reflexivity.
Qed.


End Unchecked.

Lemma construct_commitment_unchecked_witness :
  sampleConstruct 2 "ns:Person:age" (commitmentOf "urn:height:cafe:tall") None
                  sampleWorld
  = (assignType 4 (TypeName "Number") sampleWorld,
     Return (Inst.Build None "1:ns:Person:age:ab12" "ns:Person:age" (Some "1")
                        "Number" (Inst.Str "tall") (Some "cafe"))).
Proof.
  exact (construct_commitment_unchecked
           sampleDigest sampleWord sampleClock 1 "ns:Person:age" None
           sampleWorld 4 ageDefinition "Number" "height" "cafe" "tall"
           eq_refl eq_refl eq_refl eq_refl eq_refl eq_refl).
Defined.

Lemma construct_unmatched_commitment_witness :
  sampleConstruct 2 "ns:Name:first" (commitmentOf "nonsense") None sampleWorld
  = (assignType 2 (TypeName "String") sampleWorld,
     Return (Inst.Build None "1:ns:Name:first:ab12" "ns:Name:first" (Some "1")
                        "String" (Inst.Obj []) None)).
Proof.
  refine (proj2 (construct_unmatched_commitment
                   sampleDigest sampleWord sampleClock 1 "ns:Name:first" None
                   sampleWorld 2
                   (plainDefinition "ns:Name:first" (TypeName "String"))
                   "String" (TypeName "String") "nonsense"
                   eq_refl eq_refl eq_refl _ eq_refl eq_refl)).
  discriminate.
Defined.

Lemma construct_components_without_schema_witness :
  sampleConstruct 2 "ns:Name:first"
                  (commitmentOf "urn:first:ab12:Ann|urn:last:ab12:Lee|") None
                  sampleWorld
  = (assignType 2 (TypeName "String") sampleWorld, Throw TypeError).
Proof.
  exact (construct_components_without_schema
           sampleDigest sampleWord sampleClock 1 "ns:Name:first"
           (commitmentOf "urn:first:ab12:Ann|urn:last:ab12:Lee|") None
           sampleWorld 2 (plainDefinition "ns:Name:first" (TypeName "String"))
           "String" "String"
           (Parsed.Build "first" "ab12" "Ann" "urn:first:ab12:Ann")
           (Parsed.Build "last" "ab12" "Lee" "urn:last:ab12:Lee") []
           eq_refl eq_refl eq_refl eq_refl eq_refl).
Defined.


(** ** Composites and their own commitments *)

Lemma moreResolved_refl (w : World) : moreResolved w w.
Proof. intros defs H. exact H. Qed.

Lemma moreResolved_trans (a b c : World) :
  moreResolved a b -> moreResolved b c -> moreResolved a c.
Proof. intros Hab Hbc defs H. exact (Hbc defs (Hab defs H)). Qed.

Lemma moreResolved_resolved (a b : World) :
  moreResolved a b -> resolvedRegistry (definitions a) (definitions b).
Proof. intros H. apply H, resolvedRegistry_refl. Qed.

Lemma assignType_moreResolved (w : World) (identifier : string)
      (version : option string) (i : nat) (d : Def.t) (fuel : nat)
      (ty : DefType) :
  lookupDefinition identifier version (definitions w) = Some (i, d) ->
  resolveType fuel (definitions w) d = Return ty ->
  moreResolved w (assignType i ty w).
Proof.
  intros Hlook Hres defs Hreg. cbn [definitions assignType].
  destruct (lookupDefinition_Some _ _ _ _ _ Hlook) as [Hnth _].
  destruct (Forall2_nth_error _ _ _ _ _ Hreg Hnth) as (d0 & Hd0 & Hdd).
  destruct (resolveType_resolved_rev _ _ Hreg _ _ _ _ Hdd Hres) as (f0 & Hf0).
  exact (resolvedRegistry_assign _ _ _ _ _ _ _ Hreg Hd0 Hnth Hf0).
Qed.

Lemma Forall2_nth_both {A B : Type} (R : A -> B -> Prop) (l : list A)
      (l' : list B) (i : nat) (x : A) (y : B) :
  Forall2 R l l' -> nth_error l i = Some x -> nth_error l' i = Some y -> R x y.
Proof.
  intros H Hx Hy. destruct (Forall2_nth_error _ _ _ _ _ H Hy) as (x' & Hx' & HR).
  congruence.
Qed.

(** Searching by identifier and version finds the same index in the
    registry as loaded and in a registry resolved from it. *)
Lemma lookupDefinition_resolved_rev (defs defs' : list Def.t) identifier version
      (i : nat) (d' : Def.t) :
  resolvedRegistry defs defs' ->
  lookupDefinition identifier version defs' = Some (i, d') ->
  exists d, lookupDefinition identifier version defs = Some (i, d)
            /\ resolvedFrom defs d d'.
Proof.
  intros Hreg Hlook.
  assert (Hflip : Forall2 (fun b a => resolvedFrom defs a b) defs' defs)
    by now apply Forall2_flip.
  assert (Hfind : forall p : Def.t -> bool,
             (forall a b, resolvedFrom defs a b -> p b = p a) ->
             findIndexed p defs' = Some (i, d') ->
             exists d, findIndexed p defs = Some (i, d) /\ resolvedFrom defs d d').
  { intros p Hp H.
    apply (findIndexed_Forall2 (fun b a => resolvedFrom defs a b) p defs' defs
                               i d' Hflip); [|assumption].
    intros b a Hab. symmetry. now apply Hp. }
  assert (Hid : forall a b, resolvedFrom defs a b ->
                            matchesIdentifier identifier b
                            = matchesIdentifier identifier a).
  { intros a b Hab. unfold matchesIdentifier.
    now rewrite (proj1 (resolvedFrom_identifier _ _ _ Hab)). }
  assert (Hidv : forall v a b, resolvedFrom defs a b ->
                               matchesIdentifierVersion identifier v b
                               = matchesIdentifierVersion identifier v a).
  { intros v a b Hab. unfold matchesIdentifierVersion.
    destruct (resolvedFrom_identifier _ _ _ Hab) as [-> ->]. reflexivity. }
  unfold lookupDefinition in *. destruct version as [v|]; [|now apply Hfind].
  destruct (truthyStr (Some v)); apply Hfind; auto.
Qed.

(** The definition a construction works on is found again under the
    version the instance carries. *)
Lemma lookupDefinition_this_version (defs : list Def.t) identifier version
      (i : nat) (d : Def.t) :
  lookupDefinition identifier version defs = Some (i, d) ->
  lookupDefinition identifier
                   (if truthyStr version then version else Def.version d) defs
  = Some (i, d).
Proof.
  intros Hlook. destruct (truthyStr version) eqn:Ht; [assumption|].
  assert (Hfind : findIndexed (matchesIdentifier identifier) defs = Some (i, d)).
  { unfold lookupDefinition in Hlook. destruct version as [v|]; [|assumption].
    now rewrite Ht in Hlook. }
  unfold lookupDefinition. destruct (Def.version d) as [v|] eqn:Hv; [|assumption].
  destruct (truthyStr (Some v)); [|assumption].
  apply (findIndexed_stronger (matchesIdentifier identifier)); try assumption.
  - intros y Hy. unfold matchesIdentifierVersion in Hy.
    now apply andb_true_iff in Hy as [Hy _].
  - apply findIndexed_Some in Hfind as [_ Hp].
    unfold matchesIdentifierVersion. unfold matchesIdentifier in Hp.
    now rewrite Hp, Hv, String.eqb_refl.
Qed.

Lemma Forall2_exists {A B : Type} (P : A -> B -> Prop) (l : list A) :
  (forall a, In a l -> exists b, P a b) -> exists l', Forall2 P l l'.
Proof.
  induction l as [|a l IH]; intros H; [exists []; constructor|].
  destruct (H a (or_introl eq_refl)) as [b Hb].
  destruct IH as [l' Hl']; [intros a' Ha'; apply H; now right|].
  exists (b :: l'). now constructor.
Qed.

Lemma sortBy_again (l : list string) : sortBy (sortBy l) = sortBy l.
Proof. apply sortBy_permuted, sortBy_Permutation. Qed.

Lemma parseString_pipeJoin (parts : list (string * string * string)) :
  Forall wellFormedPart parts ->
  parseString (pipeJoin (map urnOf parts)) = Return (map parsedOf parts).
Proof.
  intros H. unfold parseString.
  rewrite (splitPipes_pipeJoin _ H), (matchedValues_urns _ H).
  rewrite length_app, !length_map. cbn [List.length].
  rewrite Nat.eqb_refl, andb_false_r. reflexivity.
Qed.

Section Rebuilding.

Variable sha256hex : string -> string.
Variable wordWith : nat -> string.
Variable now : nat -> Z.

Abbreviation Construct := (construct sha256hex wordWith now).
Abbreviation BuildValue := (buildValue sha256hex wordWith now).

Lemma construct_moreResolved (fuel : nat) identifier value version w w' r :
  Construct fuel identifier value version w = (w', r) -> moreResolved w w'.
Proof.
  intros H defs Hreg.
  exact (construct_resolved sha256hex wordWith now defs fuel _ _ _ _ _ _ H Hreg).
Qed.

(** X24: a composite with one child is not rebuilt.  When the commitment
    has exactly one component the constructor takes the instance for a
    leaf and stores the string of the component as [value], whatever the
    type.  For a type that is not a leaf type the rendering of the
    commitment, which the computation of [id] asks for, then enumerates
    the characters of that string and calls a method of a character: the
    call throws a [TypeError] unless the string is empty.  So the
    commitment of a composite with a single child, which is the
    commitment of the child and a pipe, cannot be given back to the
    constructor. *)
Theorem construct_single_component_composite (fuel : nat) (identifier : string)
        (value : JsVal) (version : option string) (w : World)
        (i : nat) (d : Def.t) (T : string) (ty : DefType) (p : Parsed.t) :
  lookupDefinition identifier version (definitions w) = Some (i, d) ->
  getTypeName fuel (definitions w) d = Return T ->
  resolveType fuel (definitions w) d = Return ty ->
  isLeafType T = false ->
  isAttestableValue value = true ->
  parseAttestableValue value = Return [p] ->
  (Parsed.value p <> "" ->
   Construct (S fuel) identifier value version w
   = (assignType i ty w, Throw TypeError))
  /\ (Parsed.value p = "" ->
      exists u,
        Construct (S fuel) identifier value version w
        = (assignType i ty w, Return u)
        /\ Inst.value u = Inst.Str ""
        /\ getAttestableValue u = Return "").
Proof.
  intros Hlook Hname Hres Hleaf Hatt Hparse.
  assert (H : Construct (S fuel) identifier value version w
              = (assignType i ty w,
                 obind (getAttestableValue
                          (Inst.Build None "" identifier
                                      (if truthyStr version then version
                                       else Def.version d)
                                      T (Inst.Str (Parsed.value p))
                                      (Some (Parsed.salt p))))
                       (fun c =>
                          Return (Inst.set_id
                                    (Inst.Build None "" identifier
                                                (if truthyStr version then version
                                                 else Def.version d)
                                                T (Inst.Str (Parsed.value p))
                                                (Some (Parsed.salt p)))
                                    (optToString
                                       (if truthyStr version then version
                                        else Def.version d)
                                     ++ ":" ++ identifier ++ ":"
                                     ++ sha256hex c)%string)))).
  { rewrite construct_S, (lookupDefinition_includes _ _ _ _ _ Hlook), Hlook.
    cbn [negb]. cbv zeta. rewrite Hname, Hres.
    unfold buildValue. rewrite Hatt, Hparse. reflexivity. }
  rewrite H. clear H.
  unfold isLeafType in Hleaf.
  apply orb_false_iff in Hleaf as [Hleaf HB].
  apply orb_false_iff in Hleaf as [HS HN].
  cbn [getAttestableValue Inst.type Inst.value]. rewrite HS, HN, HB.
  split; intros Hv.
  - destruct (Parsed.value p); [now elim Hv|reflexivity].
  - rewrite Hv. cbn [obind]. eexists. split; [reflexivity|].
    split; [reflexivity|].
    cbn [getAttestableValue Inst.set_id Inst.type Inst.value Inst.identifier
         Inst.timestamp Inst.version Inst.salt].
    now rewrite HS, HN, HB.
Qed.


(** A leaf child built from a raw value. *)
Lemma construct_raw_child (fuel : nat) (identifier : string) (value : JsVal)
      (version : option string) (w w' : World) (u : Inst.t) :
  Construct fuel identifier value version w = (w', Return u) ->
  isString value || isNumber value || isBoolean value = true ->
  isLeafType (Inst.type u) = true ->
  exists f j d n,
    fuel = S f
    /\ lookupDefinition identifier version (definitions w) = Some (j, d)
    /\ getTypeName f (definitions w) d = Return (Inst.type u)
    /\ Inst.identifier u = identifier
    /\ Inst.value u = primitive value
    /\ isValueOfType value (Inst.type u) = true
    /\ Inst.salt u = Some (sha256hex n).
Proof.
  intros H Hprim Hleaf.
  assert (Hof : isValueOfType value (Inst.type u) = true).
  { apply (construct_mismatch_inv _ _ _ _ _ _ _ _ _ _ H).
    - now apply primitive_not_attestable.
    - intros E. rewrite E in Hleaf. discriminate. }
  destruct (construct_Return_inv _ _ _ _ _ _ _ _ _ _ H)
    as (fuel' & i & d & T & ty & ts & v & salt & c
        & -> & Hlook & Hname & Hres & Hbuild & Hc & ->).
  cbn [Inst.type Inst.identifier Inst.value Inst.salt] in *.
  destruct (isValueOfType_leaf _ _ Hof) as (_ & Hatt & _).
  rewrite (buildValue_raw _ _ _ _ _ _ _ _ _ _ Hatt Hof) in Hbuild.
  destruct (negb (isValid value T (Def.set_type d ty))); [discriminate|].
  inversion Hbuild; subst.
  exists fuel', i, d, (wordWith (randomDraws (tickClock (assignType i ty w)))).
  repeat split; try assumption; reflexivity.
Qed.

(** A leaf rebuilt from the urn of a component. *)
Lemma construct_leaf_component (f : nat) (item : Component.t)
      (version : option string) (w : World) (j : nat) (d : Def.t) :
  lookupDefinition (Component.identifier item) version (definitions w)
  = Some (j, d) ->
  getTypeName f (definitions w) d = Return (Component.type item) ->
  isLeafType (Component.type item) = true ->
  wellFormedPart (partOf item) ->
  exists u,
    Construct (S f) (Component.identifier item)
              (commitmentOf (urnOf (partOf item))) version w
    = (assignType j (TypeName (Component.type item)) w, Return u)
    /\ Inst.identifier u = Component.identifier item
    /\ Inst.type u = Component.type item
    /\ Inst.value u = Inst.Str (Component.printed item)
    /\ Inst.salt u = Some (Component.salt item)
    /\ Inst.timestamp u = None.
Proof.
  intros Hlook Hname Hleaf (Hk & Hs & Hp).
  destruct item as [k identifier T salt printed].
  cbn [partOf Component.key Component.identifier Component.type Component.salt
       Component.printed fst snd urnOf] in *.
  eexists. split.
  - rewrite construct_S, (lookupDefinition_includes _ _ _ _ _ Hlook), Hlook.
    cbn [negb]. cbv zeta.
    rewrite Hname, (resolveType_of_leaf _ _ _ _ Hname Hleaf).
    unfold buildValue.
    rewrite isAttestableValue_commitmentOf by discriminate.
    rewrite parseAttestableValue_commitmentOf, (parseString_leaf _ _ _ Hk Hs Hp).
    cbn [lift bind ret Parsed.value Parsed.salt].
    rewrite (getAttestableValue_leaf _ _ _ _ _ _ _ Hleaf). reflexivity.
  - repeat split.
Qed.

Lemma rebuilt_commitment (item : Component.t) (u : Inst.t) :
  isLeafType (Component.type item) = true ->
  renderedValue (Component.type item) (Inst.Str (Component.printed item))
  = Component.printed item ->
  propertyNameOf (Component.identifier item) = Component.key item ->
  Inst.identifier u = Component.identifier item ->
  Inst.type u = Component.type item ->
  Inst.value u = Inst.Str (Component.printed item) ->
  Inst.salt u = Some (Component.salt item) ->
  getAttestableValue u = Return (urnOf (partOf item)).
Proof.
  destruct u as [ts id identifier version type v salt].
  cbn [Inst.identifier Inst.type Inst.value Inst.salt].
  intros Hleaf Hprinted Hname -> -> -> ->.
  rewrite (getAttestableValue_leaf _ _ _ _ _ _ _ Hleaf), Hprinted, Hname.
  reflexivity.
Qed.

(** The reconstruction loop over the urns of rebuildable components. *)
Lemma reconstructProperties_items (f : nat) (base : World) (o : ObjectSchema) :
  forall items acc w,
    Forall (rebuildable f base o) items ->
    moreResolved base w ->
    exists children w',
      reconstructProperties (Construct (S f)) (TypeSchema o)
                            (map parsedOf (map partOf items)) acc w
      = (w', Return (fold_left (fun o kv => assign (fst kv) (snd kv) o)
                               children acc))
      /\ moreResolved base w'
      /\ Forall2 (fun item kv =>
                    fst kv = Component.key item
                    /\ getAttestableValue (snd kv) = Return (urnOf (partOf item))
                    /\ Inst.identifier (snd kv) = Component.identifier item
                    /\ Inst.value (snd kv) = Inst.Str (Component.printed item)
                    /\ Inst.salt (snd kv) = Some (Component.salt item)
                    /\ Inst.timestamp (snd kv) = None)
                 items children.
Proof.
  induction items as [|item items IH]; intros acc w Hall Hw.
  - exists [], w. repeat split; [assumption|constructor].
  - inversion Hall as [|? ? Hitem Hrest]; subst.
    destruct Hitem as (Hpart & Hleaf & Hprinted & Hname & (q & Hq & Hqid) & Hstable).
    destruct (Hstable w Hw) as (j & d & Hlook & Htype).
    destruct (construct_leaf_component f item None w j d Hlook Htype Hleaf Hpart)
      as (u & Hu & Hid & Hty & Hv & Hs & Hts).
    assert (Hw' : moreResolved base (assignType j (TypeName (Component.type item)) w)).
    { apply (moreResolved_trans _ w); [assumption|].
      apply (assignType_moreResolved w (Component.identifier item) None j d f);
        [assumption|].
      now apply resolveType_of_leaf. }
    destruct (IH (assign (Component.key item) u acc) _ Hrest Hw')
      as (children & w' & Hloop & Hw'' & Hchildren).
    exists ((Component.key item, u) :: children), w'.
    split; [|split; [assumption|]].
    + cbn [map reconstructProperties].
      assert (Hpn : Parsed.propertyName (parsedOf (partOf item))
                    = Component.key item) by (destruct item; reflexivity).
      assert (Hsv : Parsed.stringValue (parsedOf (partOf item))
                    = urnOf (partOf item)) by (destruct item; reflexivity).
      rewrite Hpn, Hsv, Hq, Hqid. unfold bind at 1.
      change (VObj [("attestableValue", VStr (urnOf (partOf item)))])
        with (commitmentOf (urnOf (partOf item))).
      rewrite Hu. exact Hloop.
    + constructor; [|assumption]. cbn [fst snd].
      repeat split; try assumption.
      now apply rebuilt_commitment.
Qed.

Lemma constructProperties_trace (fuel : nat) (props : list Property.t) :
  forall entries w w' pairs,
    constructProperties (Construct fuel) props entries w = (w', Return pairs) ->
    Forall2 (fun entry pair =>
               fst pair = fst entry
               /\ exists p w1 w2,
                   find (fun p => String.eqb (Property.name p) (fst entry)) props
                   = Some p
                   /\ Construct fuel (Property.type p) (snd entry)
                                (Property.version p) w1
                      = (w2, Return (snd pair))
                   /\ moreResolved w w1
                   /\ moreResolved w2 w')
            entries pairs.
Proof.
  induction entries as [|[k v] rest IH]; intros w w' pairs H; simpl in H.
  - pure_step H. constructor.
  - destruct (find _ props) as [propertyDef|] eqn:Hfind; [|pure_step H].
    bind_cases H; try discriminate.
    bind_cases H; try discriminate.
    pure_step H.
    pose proof (construct_moreResolved _ _ _ _ _ _ _ Hc) as Hhead.
    assert (Htail : moreResolved w0 w').
    { apply (constructProperties_rel moreResolved moreResolved_refl
                                     moreResolved_trans _ props) in Hc0;
        [assumption|].
      intros ? ? ? ? ? ?. apply construct_moreResolved. }
    constructor.
    + split; [reflexivity|]. exists propertyDef, w, w0. cbn [fst snd].
      repeat split; try assumption. apply moreResolved_refl.
    + eapply Forall2_impl; [|exact (IH _ _ _ Hc0)].
      intros entry pair (Hk & p & w1 & w2 & Hp & Hnew & Hw1 & Hw2).
      split; [assumption|]. exists p, w1, w2. repeat split; try assumption.
      now apply (moreResolved_trans _ w0).
Qed.

Lemma Forall2_In_left {A B : Type} (Q : A -> B -> Prop) (l : list A)
      (l' : list B) (a : A) :
  Forall2 Q l l' -> In a l -> exists b, In b l' /\ Q a b.
Proof.
  induction 1 as [|x y l l' Hxy _ IH]; intros Hin; [contradiction|].
  destruct Hin as [->|Hin]; [exists y; split; [now left|assumption]|].
  destruct (IH Hin) as (b & Hb & Hq). exists b. split; [now right|assumption].
Qed.

Lemma In_keys {A : Type} (k : string) (l : list (string * A)) :
  In k (keys l) -> exists a, In (k, a) l.
Proof.
  unfold keys. intros H. apply in_map_iff in H as ([k' a] & Hk & Hin).
  cbn [fst] in Hk. subst k'. eauto.
Qed.

Lemma urnOf_nonempty (part : string * string * string) (rest : string) :
  (urnOf part ++ rest)%string <> "".
Proof. destruct part as [[n s] v]. discriminate. Qed.

(** The leaf children of an instance built from a mapping, in the order
    of the sorted keys, as components that rebuild. *)
Lemma construct_mapping_components (f : nat) (fields : list (string * JsVal))
      (o : ObjectSchema) (w w0 wA : World) (pairs : list (string * Inst.t)) :
  (forall x, allWord (sha256hex x) = true) ->
  constructProperties (Construct (S f)) (properties o) fields w0
  = (wA, Return pairs) ->
  moreResolved w w0 ->
  NoDup (keys fields) ->
  Forall (fun kv =>
            isString (snd kv) || isNumber (snd kv) || isBoolean (snd kv) = true
            /\ match snd kv with
               | VStr s => contains "|" s = false
               | _ => True
               end) fields ->
  (forall k ch, assoc k pairs = Some ch -> isLeafType (Inst.type ch) = true) ->
  (forall k p,
      In k (keys fields) ->
      find (fun p => String.eqb (Property.name p) k) (properties o) = Some p ->
      propertyNameOf (Property.type p) = k
      /\ allWord k = true
      /\ (exists q,
             find (fun property => endsWith (Property.type property) k)
                  (properties o) = Some q
             /\ Property.type q = Property.type p)
      /\ lookupDefinition (Property.type p) None (definitions w)
         = lookupDefinition (Property.type p) (Property.version p)
                            (definitions w)) ->
  forall k,
    In k (keys fields) ->
    exists item,
      Component.key item = k
      /\ rebuildable f wA o item
      /\ exists a, assoc k pairs = Some a
                   /\ getAttestableValue a = Return (urnOf (partOf item)).
Proof.
  intros Hword Hloop Hw0 Hnd Hfields Hleaves Hschema k Hk.
  pose proof (constructProperties_trace _ _ _ _ _ _ Hloop) as Htrace.
  destruct (constructProperties_committed _ _ _ _ _ _ _ _ _ Hloop) as [Hkeys _].
  assert (Hnd' : NoDup (keys pairs)) by now rewrite Hkeys.
  destruct (In_keys _ _ Hk) as (v & Hin).
  destruct (Forall2_In_left _ _ _ _ Htrace Hin)
    as ([k' a] & Hin' & Hk' & p & w1 & w2 & Hp & Hnew & Hw1 & Hw2).
  cbn [fst snd] in *. subst k'.
  pose proof (assoc_NoDup _ _ _ Hnd' Hin') as Ha.
  pose proof (Hleaves _ _ Ha) as Hleaf.
  rewrite Forall_forall in Hfields.
  destruct (Hfields _ Hin) as [Hprim Hpipe]. cbn [snd] in *.
  destruct (construct_raw_child _ _ _ _ _ _ _ Hnew Hprim Hleaf)
    as (f' & j & dj & n & Hf & Hlook & Htype & Hid & Hv & Hof & Hsalt).
  inversion Hf; subst f'. clear Hf.
  destruct (Hschema k p Hk Hp) as (Hname & Hwordk & (q & Hq & Hqid) & Hversion).
  exists (Component.Build k (Property.type p) (Inst.type a) (sha256hex n)
                          (renderedValue (Inst.type a) (primitive v))).
  split; [reflexivity|]. split.
  - unfold rebuildable, wellFormedPart.
    cbn [partOf Component.key Component.identifier Component.type
         Component.salt Component.printed fst snd].
    repeat split; try assumption.
    + apply Hword.
    + now apply renderedValue_no_pipe.
    + apply renderedValue_again.
    + exists q. auto.
    + intros wcur Hcur.
      assert (Hw_w1 : moreResolved w w1) by now apply (moreResolved_trans _ w0).
      assert (Hw1_cur : moreResolved w1 wcur).
      { apply (moreResolved_trans _ w2);
          [exact (construct_moreResolved _ _ _ _ _ _ _ Hnew)|].
        now apply (moreResolved_trans _ wA). }
      destruct (lookupDefinition_resolved_rev
                  _ _ _ _ _ _ (moreResolved_resolved _ _ Hw_w1) Hlook)
        as (d0 & Hlook0 & _).
      rewrite <- Hversion in Hlook0.
      destruct (lookupDefinition_resolved
                  _ _ _ _ _ _
                  (moreResolved_resolved
                     _ _ (moreResolved_trans _ _ _ Hw_w1 Hw1_cur)) Hlook0)
        as (d' & Hlook' & _).
      exists j, d'. split; [assumption|].
      pose proof (moreResolved_resolved _ _ Hw1_cur) as Hreg1.
      apply (getTypeName_resolved _ _ Hreg1 f dj d'); [|assumption].
      apply (Forall2_nth_both _ _ _ j _ _ Hreg1).
      * exact (proj1 (lookupDefinition_Some _ _ _ _ _ Hlook)).
      * exact (proj1 (lookupDefinition_Some _ _ _ _ _ Hlook')).
  - exists a. split; [assumption|].
    destruct a as [ts id identifier version type val salt].
    cbn [Inst.type Inst.identifier Inst.value Inst.salt] in *.
    subst identifier val salt.
    rewrite (getAttestableValue_leaf _ _ _ _ _ _ _ Hleaf), Hname.
    reflexivity.
Qed.

Lemma Forall2_keys_components (f : nat) (base : World) (o : ObjectSchema)
      (pairs : list (string * Inst.t)) (ks : list string)
      (items : list Component.t) :
  Forall2 (fun k item =>
             Component.key item = k
             /\ rebuildable f base o item
             /\ exists a, assoc k pairs = Some a
                          /\ getAttestableValue a
                             = Return (urnOf (partOf item)))
          ks items ->
  map Component.key items = ks
  /\ Forall (rebuildable f base o) items
  /\ Forall2 (fun k c => assoc k (renderChildren pairs) = Some (Return c))
             ks (map urnOf (map partOf items)).
Proof.
  induction 1 as [|k item ks items (Hk & Hr & a & Ha & Hc) _ (IH1 & IH2 & IH3)].
  - repeat split; constructor.
  - cbn [map]. repeat split.
    + now rewrite Hk, IH1.
    + now constructor.
    + constructor; [|assumption].
      rewrite assoc_renderChildren, Ha. cbn [option_map]. now rewrite Hc.
Qed.

Lemma Forall2_children_rendered (all : list (string * Inst.t))
      (items : list Component.t) (children : list (string * Inst.t)) :
  (forall kv, In kv children -> assoc (fst kv) all = Some (snd kv)) ->
  Forall2 (fun item kv =>
             fst kv = Component.key item
             /\ getAttestableValue (snd kv) = Return (urnOf (partOf item))
             /\ Inst.identifier (snd kv) = Component.identifier item
             /\ Inst.value (snd kv) = Inst.Str (Component.printed item)
             /\ Inst.salt (snd kv) = Some (Component.salt item)
             /\ Inst.timestamp (snd kv) = None)
          items children ->
  keys children = map Component.key items
  /\ Forall2 (fun k c => assoc k (renderChildren all) = Some (Return c))
             (keys children) (map urnOf (map partOf items)).
Proof.
  intros Hassoc H. revert Hassoc.
  induction H as [|item [k ch] items children (Hk & Hc & _) _ IH];
    intros Hassoc; [split; [reflexivity|constructor]|].
  destruct IH as [IH1 IH2]; [intros kv Hin; apply Hassoc; now right|].
  unfold keys in *. cbn [map fst] in *. split; [now rewrite Hk, IH1|].
  constructor; [|assumption].
  rewrite assoc_renderChildren.
  pose proof (Hassoc (k, ch) (or_introl eq_refl)) as Hkc.
  cbn [fst snd] in *. rewrite Hkc. cbn [option_map]. now rewrite Hc.
Qed.

(** X25: the round trip of a composite.  Build an instance from a mapping
    of two entries or more, whose keys are distinct ordinary property
    names (not empty, not made of digits, not [length], not a name of
    [Object.prototype]) and whose values are strings without pipe,
    numbers or booleans, all its children being of a leaf type.  Suppose
    the digests that serve as salts are made of word characters and, for
    each key of the mapping and the property of that name: the key is
    made of word characters and is the property name of the property's
    type, the first property whose type ends with the key has that same
    type, and the definition of that type is the same whether it is
    looked up with the version the property declares or with none.  Then
    the constructor, given the commitment of the instance with the same
    identifier and the version of the instance, in the registry the first
    construction left, returns an instance with the same commitment and
    the same [id], no timestamp, and children under the same keys, in
    ascending order. *)
Theorem composite_roundtrip (fuel : nat) (identifier : string)
        (fields : list (string * JsVal)) (version : option string)
        (w wA : World) (A : Inst.t) (i : nat) (d : Def.t) (o : ObjectSchema) :
  (forall x, allWord (sha256hex x) = true) ->
  Construct (S fuel) identifier (VObj fields) version w = (wA, Return A) ->
  isAttestableValue (VObj fields) = false ->
  lookupDefinition identifier version (definitions w) = Some (i, d) ->
  resolveType fuel (definitions w) d = Return (TypeSchema o) ->
  NoDup (keys fields) ->
  (2 <= List.length fields)%nat ->
  Forall (fun kv =>
            ordinaryKey (fst kv) = true
            /\ isString (snd kv) || isNumber (snd kv) || isBoolean (snd kv) = true
            /\ match snd kv with
               | VStr s => contains "|" s = false
               | _ => True
               end) fields ->
  (forall k ch, child A k = Some ch -> isLeafType (Inst.type ch) = true) ->
  (forall k p,
      In k (keys fields) ->
      find (fun p => String.eqb (Property.name p) k) (properties o) = Some p ->
      propertyNameOf (Property.type p) = k
      /\ allWord k = true
      /\ (exists q,
             find (fun property => endsWith (Property.type property) k)
                  (properties o) = Some q
             /\ Property.type q = Property.type p)
      /\ lookupDefinition (Property.type p) None (definitions w)
         = lookupDefinition (Property.type p) (Property.version p)
                            (definitions w)) ->
  exists c wB B children,
    getAttestableValue A = Return c
    /\ Construct (S fuel) identifier (commitmentOf c) (Inst.version A) wA
       = (wB, Return B)
    /\ getAttestableValue B = Return c
    /\ Inst.id B = Inst.id A
    /\ Inst.timestamp B = None
    /\ Inst.value B = Inst.Obj children
    /\ keys children = sortBy (keys fields).
Proof.
  intros Hword HA Hatt Hlook Hres Hnd Hlen Hordinary Hleaves Hschema.
  assert (Hfields :
            Forall (fun kv =>
                      isString (snd kv) || isNumber (snd kv)
                      || isBoolean (snd kv) = true
                      /\ match snd kv with
                         | VStr s => contains "|" s = false
                         | _ => True
                         end) fields).
  { eapply Forall_impl; [|exact Hordinary]. intros kv (_ & H). exact H. }
  (* the first construction *)
  destruct (construct_Return_inv _ _ _ _ _ _ _ _ _ _ HA)
    as (fuel' & i' & d' & T & ty & ts & v & salt & cA
        & Hfuel & Hlook' & Hname & Hres' & Hbuild & HcA & HAeq).
  inversion Hfuel; subst fuel'. clear Hfuel.
  rewrite Hlook in Hlook'. inversion Hlook'; subst i' d'. clear Hlook'.
  rewrite Hres in Hres'. inversion Hres'; subst ty. clear Hres'.
  destruct (resolveType_typeName _ _ _ _ Hres) as (T' & Hname' & HT').
  rewrite Hname in Hname'. inversion Hname'; subst T' T. clear Hname'.
  destruct (buildValue_composite_inv _ _ _ _ _ _ _ _ _ _ _ _ Hatt
              (isValueOfType_VObj _ _) Hbuild)
    as (o' & entries & pairs & Ho & _ & _ & Hentries & Hloop & E).
  inversion Ho; subst o'. inversion Hentries; subst entries.
  inversion E; subst ts v salt. clear Ho Hentries E.
  destruct (constructProperties_committed _ _ _ _ _ _ _ _ _ Hloop) as [Hkeys _].
  assert (Hnd' : NoDup (keys pairs)) by now rewrite Hkeys.
  rewrite (keyBy_NoDup _ Hnd') in *.
  set (this_version := if truthyStr version then version else Def.version d) in *.
  assert (Hw0 : moreResolved w (assignType i (TypeSchema o) w))
    by exact (assignType_moreResolved _ _ _ _ _ _ _ Hlook Hres).
  (* there is a child, so the children were built with some fuel *)
  destruct fuel as [|f].
  { destruct fields as [|[k0 v0] rest]; [cbn in Hlen; lia|].
    cbn [constructProperties] in Hloop.
    destruct (find _ (properties o)); [|pure_step Hloop].
    bind_cases Hloop; discriminate. }
  (* the components, in the order of the sorted keys *)
  assert (Hchildren : forall k ch, assoc k pairs = Some ch ->
                                   isLeafType (Inst.type ch) = true).
  { intros k ch Hk. apply (Hleaves k). subst A. exact Hk. }
  destruct (Forall2_exists
              (fun k item =>
                 Component.key item = k
                 /\ rebuildable f wA o item
                 /\ exists a, assoc k pairs = Some a
                              /\ getAttestableValue a
                                 = Return (urnOf (partOf item)))
              (sortBy (keys fields)))
    as (items & Hitems).
  { intros k Hk.
    apply (Permutation_in _ (sortBy_Permutation (keys fields))) in Hk.
    exact (construct_mapping_components
             f fields o w _ wA pairs Hword Hloop Hw0 Hnd Hfields Hchildren
             Hschema k Hk). }
  destruct (Forall2_keys_components _ _ _ _ _ _ Hitems)
    as (Hikeys & Hrebuild & Hrendered).
  set (cs := map urnOf (map partOf items)) in *.
  assert (Hcommit : getAttestableValue
                      (Inst.Build None "" identifier this_version "Object"
                                  (Inst.Obj pairs) None)
                    = Return (pipeJoin cs)).
  { rewrite (getAttestableValue_Obj _ _ _ _ "Object" _ _ eq_refl), Hkeys.
    exact (reduceChildren_Return _ _ _ "" Hrendered). }
  rewrite Hcommit in HcA. inversion HcA; subst cA. clear HcA.
  assert (HAc : getAttestableValue A = Return (pipeJoin cs)).
  { subst A. exact Hcommit. }
  (* the registry the first construction left *)
  pose proof (construct_moreResolved _ _ _ _ _ _ _ HA) as HwA.
  pose proof (moreResolved_resolved _ _ HwA) as Hreg.
  destruct (lookupDefinition_resolved
              _ _ _ _ _ _ Hreg (lookupDefinition_this_version _ _ _ _ _ Hlook))
    as (dA & HlookA & HdA).
  fold this_version in HlookA.
  pose proof (getTypeName_resolved _ _ Hreg _ _ _ _ HdA Hname) as HnameA.
  pose proof (resolveType_resolved _ _ Hreg _ _ _ _ HdA Hres) as HresA.
  assert (HversionA : (if truthyStr this_version then this_version
                       else Def.version dA) = this_version).
  { rewrite (proj2 (resolvedFrom_identifier _ _ _ HdA)).
    apply version_again. }
  (* the commitment parses to the components *)
  assert (Hparts : Forall wellFormedPart (map partOf items)).
  { clear - Hrebuild. induction Hrebuild as [|item items Hitem _ IH];
      cbn [map]; constructor; [exact (proj1 Hitem)|assumption]. }
  assert (Hilen : List.length items = List.length fields).
  { rewrite <- (length_map Component.key items), Hikeys.
    rewrite (Permutation_length (sortBy_Permutation _)).
    unfold keys. apply length_map. }
  destruct items as [|i1 [|i2 items]]; try (cbn in Hilen; lia).
  assert (Hne : pipeJoin cs <> "").
  { subst cs. cbn [map pipeJoin]. apply urnOf_nonempty. }
  assert (Hparse : parseAttestableValue (commitmentOf (pipeJoin cs))
                   = Return (map parsedOf (map partOf (i1 :: i2 :: items)))).
  { rewrite parseAttestableValue_commitmentOf.
    exact (parseString_pipeJoin _ Hparts). }
  (* the loop over the components *)
  assert (HwB0 : moreResolved wA (assignType i (TypeSchema o) wA))
    by exact (assignType_moreResolved _ _ _ _ _ _ _ HlookA HresA).
  destruct (reconstructProperties_items f wA o (i1 :: i2 :: items) [] _
                                        Hrebuild HwB0)
    as (children & wB & HloopB & _ & HchildrenB).
  assert (HkeysB : keys children = sortBy (keys fields)).
  { assert (Hk : keys children = map Component.key (i1 :: i2 :: items)).
    { clear - HchildrenB.
      induction HchildrenB as [|item [k ch] its chs (Hk & _) _ IH];
        [reflexivity|].
      unfold keys in *. cbn [map fst] in *. now rewrite Hk, IH. }
    now rewrite Hk, Hikeys. }
  assert (HndB : NoDup (keys children)).
  { rewrite HkeysB.
    exact (Permutation_NoDup (Permutation_sym (sortBy_Permutation _)) Hnd). }
  assert (HfoldB : fold_left (fun o kv => assign (fst kv) (snd kv) o) children []
                   = children) by exact (keyBy_NoDup _ HndB).
  rewrite HfoldB in HloopB.
  assert (HcommitB : forall ts id ver salt,
             getAttestableValue
               (Inst.Build ts id identifier ver "Object" (Inst.Obj children) salt)
             = Return (pipeJoin cs)).
  { intros ts id ver salt.
    rewrite (getAttestableValue_Obj _ _ _ _ "Object" _ _ eq_refl), HkeysB, sortBy_again.
    rewrite <- HkeysB.
    apply (reduceChildren_Return _ _ cs "").
    apply (Forall2_children_rendered children _ _); [|exact HchildrenB].
    intros [k ch] Hin. now apply assoc_NoDup. }
  exists (pipeJoin cs), wB,
    (Inst.Build None
                (optToString this_version ++ ":" ++ identifier ++ ":"
                 ++ sha256hex (pipeJoin cs))%string
                identifier this_version "Object" (Inst.Obj children) None),
    children.
  split; [exact HAc|]. split.
  - assert (HvA : Inst.version A = this_version) by (subst A; reflexivity).
    rewrite HvA.
    rewrite construct_S, (lookupDefinition_includes _ _ _ _ _ HlookA), HlookA.
    cbn [negb]. cbv zeta. rewrite HnameA, HresA, HversionA.
    unfold buildValue.
    rewrite (isAttestableValue_commitmentOf _ Hne), Hparse.
    cbn [lift bind]. cbn [map]. cbn [map] in HloopB.
    unfold bind. rewrite HloopB. cbn [ret].
    rewrite HcommitB. reflexivity.
  - split; [apply HcommitB|]. split; [subst A; reflexivity|].
    repeat split. exact HkeysB.
Qed.
End Rebuilding.

Lemma construct_single_component_composite_witness :
  exists w u c,
    construct sampleDigest sampleWord sampleClock 3 "ns:Identity:contact"
              (VObj [("nick", VStr "a")]) None flaggedWorld
    = (w, Return u)
    /\ getAttestableValue u = Return c
    /\ snd (construct sampleDigest sampleWord sampleClock 3
                      "ns:Identity:contact" (commitmentOf c) None w)
       = Throw TypeError.
Proof.
  destruct (construct sampleDigest sampleWord sampleClock 3
                      "ns:Identity:contact" (VObj [("nick", VStr "a")]) None
                      flaggedWorld) as [w [u|e|]] eqn:E;
    [|vm_compute in E; discriminate..].
  exists w, u, "urn:nick:ab12:a|".
  vm_compute in E. inversion E; subst w u. clear E.
  split; [reflexivity|]. split; [reflexivity|].
  match goal with
  | |- snd (construct _ _ _ _ _ _ _ ?w) = _ =>
      rewrite (proj1 (construct_single_component_composite
                        sampleDigest sampleWord sampleClock 2
                        "ns:Identity:contact"
                        (commitmentOf "urn:nick:ab12:a|") None w 1
                        (flaggedDefinition "ns:Identity:contact" (Some "1")
                                           (TypeSchema contactSchema)
                                           true false)
                        "Object" (TypeSchema contactSchema)
                        (Parsed.Build "nick" "ab12" "a" "urn:nick:ab12:a")
                        eq_refl eq_refl eq_refl eq_refl eq_refl eq_refl))
  end; [reflexivity|discriminate].
Defined.

Lemma composite_roundtrip_witness :
  exists wA A c wB B,
    sampleConstruct 3 "ns:Identity:person" (VObj (annAged 42)) None sampleWorld
    = (wA, Return A)
    /\ getAttestableValue A = Return c
    /\ sampleConstruct 3 "ns:Identity:person" (commitmentOf c) (Inst.version A) wA
       = (wB, Return B)
    /\ getAttestableValue B = Return c
    /\ Inst.id B = Inst.id A.
Proof.
  destruct (sampleConstruct 3 "ns:Identity:person" (VObj (annAged 42)) None
                            sampleWorld) as [wA [A|e|]] eqn:E;
    [|vm_compute in E; discriminate..].
  destruct (composite_roundtrip
              sampleDigest sampleWord sampleClock 2 "ns:Identity:person"
              (annAged 42) None sampleWorld wA A 0
              (plainDefinition "ns:Identity:person" (TypeName "ns:Type:Person"))
              personSchema sampleDigest_word E eq_refl eq_refl eq_refl)
    as (c & wB & B & children & HAc & HB & HBc & Hid & _).
  - repeat constructor; simpl; intuition discriminate.
  - simpl. lia.
  - repeat constructor.
  - vm_compute in E. inversion E; subst wA A. clear E.
    intros k ch. cbn [child Inst.value assoc].
    destruct (String.eqb k "first"); [intros Hk; inversion Hk; reflexivity|].
    destruct (String.eqb k "age"); [intros Hk; inversion Hk; reflexivity|].
    discriminate.
  - intros k p [<-|[<-|[]]] Hp; vm_compute in Hp; inversion Hp; subst p;
      (split; [reflexivity|]); (split; [reflexivity|]);
      (split; [|reflexivity]); eexists; split; reflexivity.
  - exists wA, A, c, wB, B. repeat split; assumption.
Defined.
